(** * T3N Mail: the multi-provider mailbox API, embedded and verified

    A shallow embedding of the decision logic of the T3N Mail API module:
    the HTTP retry client ([fetchWithRetry]), the address predicate
    ([isValidEmail]), the login generator ([generateRandomString]), the
    message normalizer and the [TempMailManager] orchestrator
    ([initialize], [createEmail], [getMessages], [getMessage],
    [refreshEmail], [isReady]).

    Conventions of the embedding.
    - JavaScript values that cross the provider boundary are terms of
      [JsVal]; truthiness, property access and [||] follow the language.
    - A computation that may throw returns a [Res]; the thrown value is a
      [JsVal]: an error object as a rule, but a promise can reject with
      any value, [null] and [undefined] included.
    - A [string] holds the text of a JavaScript string in UTF-8, one
      [ascii] per byte; where the language counts UTF-16 code units
      ([substring], [length]) the embedding counts them too.
    - The outside world (network, providers, clock, entropy) is an input:
      the retry client reads the outcome of its i-th request from a script,
      the orchestrator reads provider replies from a [World], and every
      external call that is made is recorded in the returned trace.
    - A method of the manager runs to completion before the next one
      starts: callers invoke the asynchronous methods one at a time. *)

From Stdlib Require Import ZArith QArith Qpower String Ascii List Bool Lia.
From stdpp Require Import base option list gmap strings pretty.
Import ListNotations.

Local Open Scope string_scope.
Local Open Scope list_scope.

#[local] Arguments String.append !s1 s2 : simpl nomatch.

(** ** JavaScript values *)

(** Numbers are integer-valued (ids, timestamps, HTTP statuses) and of a
    magnitude below 10^21, the range in which a number is printed in
    plain decimal digits; none of the embedded operations does arithmetic
    on a number held in a [JsVal]. An object is a plain object, as
    [JSON.parse] and the object literals of the module build them: its
    fields are its own properties, none of which is a function. *)
#[warnings="-register-all"]
Inductive JsVal : Type :=
| JUndefined
| JNull
| JBool (b : bool)
| JNum (n : Z)
| JStr (s : string)
| JArr (items : list JsVal)
| JObj (fields : list (string * JsVal)).

Inductive Res (A : Type) : Type :=
| Ret (a : A)
| Throw (e : JsVal).
Arguments Ret {A} a.
Arguments Throw {A} e.

Definition res_bind {A B} (m : Res A) (f : A -> Res B) : Res B :=
  match m with
  | Ret a => f a
  | Throw e => Throw e
  end.

(** [new Error(message)], [TypeError] and the [DOMException] an aborted
    request rejects with, seen through the two properties the code reads. *)
Definition mkError (name message : string) : JsVal :=
  JObj [("name", JStr name); ("message", JStr message)].

Definition typeError (message : string) : JsVal := mkError "TypeError" message.

(** ToBoolean. *)
Definition truthy (v : JsVal) : bool :=
  match v with
  | JUndefined | JNull => false
  | JBool b => b
  | JNum n => negb (Z.eqb n 0)
  | JStr s => negb (String.eqb s "")
  | JArr _ | JObj _ => true
  end.

Definition nullish (v : JsVal) : bool :=
  match v with
  | JUndefined | JNull => true
  | _ => false
  end.

(** [a || b] on already evaluated operands. *)
Definition js_or (a b : JsVal) : JsVal := if truthy a then a else b.

Fixpoint assoc (k : string) (fields : list (string * JsVal)) : JsVal :=
  match fields with
  | [] => JUndefined
  | (k', v) :: rest => if String.eqb k k' then v else assoc k rest
  end.

(** [v.k] for the property names the module reads ([email], [subject],
    [name], ...): a [TypeError] on [undefined] and [null], the own
    property of an object, and [undefined] on every other value, whose
    prototypes define none of those names. *)
Definition get (v : JsVal) (k : string) : Res JsVal :=
  match v with
  | JUndefined | JNull =>
      Throw (typeError ("Cannot read properties of undefined (reading '" ++ k ++ "')"))
  | JObj fields => Ret (assoc k fields)
  | _ => Ret JUndefined
  end.

(** ** Strings *)

(** [hay.includes(needle)]. *)
Fixpoint includes (needle hay : string) : bool :=
  String.prefix needle hay ||
  match hay with
  | EmptyString => false
  | String _ rest => includes needle rest
  end.

(** *** UTF-16 code units

    JavaScript indexes a string by UTF-16 code unit. In the UTF-8 text a
    character of one, two or three bytes is one code unit, and a
    character of four bytes is two (a surrogate pair). *)

(** A byte [10xxxxxx], which continues a character. *)
Definition is_continuation (c : ascii) : bool :=
  (128 <=? N_of_ascii c)%N && (N_of_ascii c <? 192)%N.

(** A byte [11110xxx], which starts a character of four bytes. *)
Definition is_astral (c : ascii) : bool := (240 <=? N_of_ascii c)%N.

(** [s.length] *)
Fixpoint code_units (s : string) : nat :=
  match s with
  | EmptyString => 0
  | String c rest =>
      ((if is_continuation c then 0 else if is_astral c then 2 else 1) + code_units rest)%nat
  end.

(** The high surrogate of the four-byte character that starts with the
    bytes [c], [b1], [b2], standing alone: [top] is the code point
    without its six low bits, [w] the ten bits [(code point - 0x10000)
    >> 10] that a high surrogate [0xD800 + w] carries, and the result its
    three bytes [ED], [A0 + (w >> 6)], [80 + (w & 63)]. *)
Definition high_surrogate (c b1 b2 : ascii) : string :=
  let top := (N.land (N_of_ascii c) 7 * 4096 + N.land (N_of_ascii b1) 63 * 64
              + N.land (N_of_ascii b2) 63)%N in
  let w := ((top - 1024) / 16)%N in
  String (ascii_of_N 237)
    (String (ascii_of_N (160 + (w / 64) mod 16))
       (String (ascii_of_N (128 + w mod 64)) EmptyString)).

(** [s.substring(0, n)]: the first [n] code units. A continuation byte
    belongs to the character taken before it; a four-byte character
    takes two units, and when only one is left the result ends with its
    high surrogate alone. *)
Fixpoint take_string (n : nat) (s : string) : string :=
  match s with
  | EmptyString => EmptyString
  | String c rest =>
      if is_continuation c then String c (take_string n rest)
      else
        match n with
        | O => EmptyString
        | S n' =>
            if is_astral c then
              match n' with
              | O =>
                  match rest with
                  | String b1 (String b2 _) => high_surrogate c b1 b2
                  | _ => EmptyString
                  end
              | S n'' => String c (take_string n'' rest)
              end
            else String c (take_string n' rest)
        end
  end.

(** [s.split('/').pop()]: the text after the last slash. *)
Fixpoint last_segment_from (acc s : string) : string :=
  match s with
  | EmptyString => acc
  | String c rest =>
      if Ascii.eqb c "/" then last_segment_from EmptyString rest
      else last_segment_from (acc ++ String c EmptyString)%string rest
  end.

Definition last_segment (s : string) : string := last_segment_from EmptyString s.

(** The conversion of a value to a string, done by [String(v)], by a
    template literal and by [RegExp.prototype.test] on its argument,
    returns or throws. A plain object is converted by its [toString],
    then by its [valueOf]: when [toString] is an own property it is not
    a function, and the inherited [valueOf] returns the object itself,
    so no primitive is obtained and a [TypeError] is thrown; without an
    own [toString] the inherited one answers. An array is converted by
    joining the conversions of its elements. The conversion to a number
    goes through the same two methods and throws on the same values. *)
Fixpoint stringifies (v : JsVal) : bool :=
  match v with
  | JArr items => forallb stringifies items
  | JObj fields => negb (existsb (fun kv => String.eqb "toString" (fst kv)) fields)
  | _ => true
  end.

Definition conversion_error : JsVal :=
  typeError "Cannot convert object to primitive value".

(** The text of [String(v)] when the conversion returns. *)
Fixpoint js_toString (v : JsVal) : string :=
  match v with
  | JUndefined => "undefined"
  | JNull => "null"
  | JBool true => "true"
  | JBool false => "false"
  | JNum n => pretty n
  | JStr s => s
  | JArr items =>
      String.concat ","
        (List.map (fun x => if nullish x then EmptyString else js_toString x) items)
  | JObj _ => "[object Object]"
  end.

(** ** Regular expressions, by derivatives *)

Inductive regex : Type :=
| Void
| Eps
| Class (p : ascii -> bool)
| Seq (r s : regex)
| Alt (r s : regex)
| Star (r : regex).

Fixpoint nullable (r : regex) : bool :=
  match r with
  | Void => false
  | Eps => true
  | Class _ => false
  | Seq r s => nullable r && nullable s
  | Alt r s => nullable r || nullable s
  | Star _ => true
  end.

Fixpoint deriv (c : ascii) (r : regex) : regex :=
  match r with
  | Void => Void
  | Eps => Void
  | Class p => if p c then Eps else Void
  | Seq r s =>
      if nullable r then Alt (Seq (deriv c r) s) (deriv c s)
      else Seq (deriv c r) s
  | Alt r s => Alt (deriv c r) (deriv c s)
  | Star r => Seq (deriv c r) (Star r)
  end.

(** [/^r$/.test(s)] *)
Fixpoint matches (r : regex) (s : string) : bool :=
  match s with
  | EmptyString => nullable r
  | String c rest => matches (deriv c r) rest
  end.

(** The language of a regular expression. *)
Inductive in_lang : regex -> string -> Prop :=
| in_eps : in_lang Eps EmptyString
| in_class p c : p c = true -> in_lang (Class p) (String c EmptyString)
| in_seq r s u v : in_lang r u -> in_lang s v -> in_lang (Seq r s) (u ++ v)
| in_alt_l r s u : in_lang r u -> in_lang (Alt r s) u
| in_alt_r r s u : in_lang s u -> in_lang (Alt r s) u
| in_star_nil r : in_lang (Star r) EmptyString
| in_star_more r u v : in_lang r u -> in_lang (Star r) v -> in_lang (Star r) (u ++ v).

Definition Plus (r : regex) : regex := Seq r (Star r).

Definition in_range (lo hi c : ascii) : bool :=
  (N_of_ascii lo <=? N_of_ascii c)%N && (N_of_ascii c <=? N_of_ascii hi)%N.

Definition one_of (set : string) (c : ascii) : bool :=
  existsb (Ascii.eqb c) (list_ascii_of_string set).

Definition is_alpha (c : ascii) : bool := in_range "a" "z" c || in_range "A" "Z" c.
Definition is_digit (c : ascii) : bool := in_range "0" "9" c.

(** [[a-zA-Z0-9._%+-]] *)
Definition local_class (c : ascii) : bool := is_alpha c || is_digit c || one_of "._%+-" c.
(** [[a-zA-Z0-9.-]] *)
Definition domain_class (c : ascii) : bool := is_alpha c || is_digit c || one_of ".-" c.

(** [/^[a-zA-Z0-9._%+-]+@[a-zA-Z0-9.-]+\.[a-zA-Z]{2,}$/] *)
Definition emailRegex : regex :=
  Seq (Plus (Class local_class))
   (Seq (Class (Ascii.eqb "@"))
    (Seq (Plus (Class domain_class))
     (Seq (Class (Ascii.eqb "."))
      (Seq (Class is_alpha) (Seq (Class is_alpha) (Star (Class is_alpha))))))).

(** [String(v)] *)
Definition to_string (v : JsVal) : Res string :=
  if stringifies v then Ret (js_toString v) else Throw conversion_error.

Definition isValidEmail (email : JsVal) : Res bool :=
  res_bind (to_string email) (fun text => Ret (matches emailRegex text)).

(** ** Configuration *)

Module CONFIG.
Definition MAX_RETRIES : Z := 3.
Definition RETRY_DELAY : Z := 1000.
Definition RETRY_MULTIPLIER : Z := 2.
Definition DEFAULT_REFRESH_INTERVAL : Z := 3000.
Definition MIN_REFRESH_INTERVAL : Z := 2000.
Definition MAX_REFRESH_INTERVAL : Z := 10000.
Definition REQUEST_TIMEOUT : Z := 10000.
Definition CACHE_DURATION : Z := 2000.
End CONFIG.

(** ** Login generator *)

Definition letters : string := "abcdefghijklmnopqrstuvwxyz".
Definition numbers : string := "0123456789".

(** [s[Math.floor(Math.random() * s.length)]]: the entropy source hands
    over a natural number, reduced into the index range [0, s.length),
    which is exactly the range of the floor. *)
Definition pick (s : string) (r : nat) : string :=
  match String.get (r mod String.length s) s with
  | Some c => String c EmptyString
  | None => "undefined"
  end.

(** The loop [for (let i = 1; i < length; i++)], by the number of rounds
    left; [i] is also the index of the draw it consumes. *)
Fixpoint generate_rest (chars : string) (rnd : nat -> nat) (i rounds : nat)
    (result : string) : string :=
  match rounds with
  | O => result
  | S rounds' =>
      generate_rest chars rnd (S i) rounds' (result ++ pick chars (rnd i))%string
  end.

Definition generateRandomString (length : nat) (includeNumbers : bool)
    (rnd : nat -> nat) : string :=
  let chars := if includeNumbers then (letters ++ numbers)%string else letters in
  let result := (EmptyString ++ pick letters (rnd 0%nat))%string in
  generate_rest chars rnd 1 (length - 1) result.

(** ** HTTP retry client *)

Record Response : Type := mkResponse {
  ok : bool;
  status : Z;
  body : JsVal
}.

(** What one [fetch] of [fetchWithRetry] meets. The request carries the
    signal of a fresh [AbortController] whose [abort()] is scheduled after
    [REQUEST_TIMEOUT]; when that timer fires first, the request is aborted
    and the promise rejects with the signal's abort reason, a
    [DOMException] named [AbortError]. *)
Inductive FetchOutcome : Type :=
| Responds (r : Response)
| Rejects (e : JsVal)
| TimesOut.

Definition abortError : JsVal :=
  mkError "AbortError" "signal is aborted without reason".

Inductive Event : Type :=
| EvFetch (url : string)
| EvSleep (ms : Q).

(** The [try] block of one attempt. *)
Definition attempt (o : FetchOutcome) : Res Response :=
  match o with
  | Responds response =>
      if ok response then Ret response
      else Throw (mkError "Error" ("HTTP " ++ pretty (status response)))
  | Rejects e => Throw e
  | TimesOut => Throw abortError
  end.

(** [error.name?.includes('Abort')], as a condition. *)
Definition name_includes_Abort (error : JsVal) : Res bool :=
  res_bind (get error "name") (fun name =>
    match name with
    | JUndefined | JNull => Ret false
    | JStr s => Ret (includes "Abort" s)
    | JArr items =>
        Ret (existsb (fun x => match x with
                               | JStr s => String.eqb s "Abort"
                               | _ => false
                               end) items)
    | _ => Throw (typeError "error.name?.includes is not a function")
    end).

(** [RETRY_DELAY * Math.pow(RETRY_MULTIPLIER, MAX_RETRIES - retries)];
    a rational, since the exponent is negative when [retries] exceeds
    [MAX_RETRIES]. *)
Definition retry_delay (retries : nat) : Q :=
  Qred (inject_Z CONFIG.RETRY_DELAY *
        Qpower (inject_Z CONFIG.RETRY_MULTIPLIER)
               (CONFIG.MAX_RETRIES - Z.of_nat retries)).

(** [net i] is what the i-th request issued meets; [k] numbers the next
    request. The trace lists requests and sleeps in program order. *)
Fixpoint fetchWithRetry (net : nat -> FetchOutcome) (k : nat) (url : string)
    (retries : nat) : Res Response * list Event :=
  match attempt (net k) with
  | Ret response => (Ret response, [EvFetch url])
  | Throw error =>
      match retries with
      | O => (Throw error, [EvFetch url])
      | S retries' =>
          match name_includes_Abort error with
          | Throw e => (Throw e, [EvFetch url])
          | Ret true => (Throw error, [EvFetch url])
          | Ret false =>
              let '(res, trace) := fetchWithRetry net (S k) url retries' in
              (res, EvFetch url :: EvSleep (retry_delay retries) :: trace)
          end
      end
  end.

Definition sleeps (trace : list Event) : list Q :=
  omap (fun ev => match ev with EvSleep ms => Some ms | EvFetch _ => None end) trace.

Definition requests (trace : list Event) : nat :=
  length (List.filter (fun ev => match ev with EvFetch _ => true | EvSleep _ => false end) trace).

(** ** Providers, as the orchestrator sees them *)

Inductive ProviderKey : Type := secmail | mailtm | guerrilla.

(** The [name] set by each provider's constructor. *)
Definition provider_name (p : ProviderKey) : string :=
  match p with
  | secmail => "1secmail"
  | mailtm => "mail.tm"
  | guerrilla => "guerrillamail"
  end.

Definition providerOrder : list ProviderKey := [secmail; mailtm; guerrilla].

(** A provider method invoked by the orchestrator, with its arguments. *)
Inductive Call : Type :=
| CheckHealth (p : ProviderKey)
| CreateEmail (p : ProviderKey)
| GetMessages (p : ProviderKey) (args : list JsVal)
| GetMessage (p : ProviderKey) (args : list JsVal).

(** How an awaited provider promise settles. *)
Inductive Reply : Type :=
| Returns (v : JsVal)
| Raises (e : JsVal).

(** The surroundings of one orchestrator method invocation: what each
    provider call it may issue settles to, what [Date.now()] reads, and
    the draws of [Math.random()] in order. *)
Record World : Type := mkWorld {
  reply : Call -> Reply;
  now : Z;
  random : nat -> nat
}.

(** ** Orchestrator state *)

Record Summary : Type := mkSummary {
  s_id : JsVal;
  s_from : JsVal;
  s_subject : JsVal;
  s_date : JsVal;
  s_preview : JsVal
}.

Record Detail : Type := mkDetail {
  d_id : JsVal;
  d_from : JsVal;
  d_subject : JsVal;
  d_date : JsVal;
  d_body : JsVal;
  d_textBody : JsVal;
  d_htmlBody : JsVal;
  d_attachments : JsVal
}.

(** Counters start at 0 and grow by one; they stay far below 2^53, where
    [++] on a JavaScript number is exact. *)
Record Stats : Type := mkStats {
  emailsCreated : Z;
  messagesReceived : Z;
  providerSwitches : Z
}.

Record Manager : Type := mkManager {
  currentProvider : option ProviderKey;
  email : JsVal;
  login : JsVal;
  domain : JsVal;
  messages : list Summary;
  refreshInterval : option Z;
  messageCache : gmap string Detail;
  lastRefresh : Z;
  stats : Stats
}.

(** The constructor of [TempMailManager]. *)
Definition newManager : Manager :=
  {| currentProvider := None;
     email := JNull;
     login := JNull;
     domain := JNull;
     messages := [];
     refreshInterval := None;
     messageCache := ∅;
     lastRefresh := 0;
     stats := mkStats 0 0 0 |}.

Definition set_currentProvider (p : option ProviderKey) (st : Manager) : Manager :=
  mkManager p (email st) (login st) (domain st) (messages st)
    (refreshInterval st) (messageCache st) (lastRefresh st) (stats st).

Definition set_email (v : JsVal) (st : Manager) : Manager :=
  mkManager (currentProvider st) v (login st) (domain st) (messages st)
    (refreshInterval st) (messageCache st) (lastRefresh st) (stats st).

Definition set_login (v : JsVal) (st : Manager) : Manager :=
  mkManager (currentProvider st) (email st) v (domain st) (messages st)
    (refreshInterval st) (messageCache st) (lastRefresh st) (stats st).

Definition set_domain (v : JsVal) (st : Manager) : Manager :=
  mkManager (currentProvider st) (email st) (login st) v (messages st)
    (refreshInterval st) (messageCache st) (lastRefresh st) (stats st).

Definition set_messages (ms : list Summary) (st : Manager) : Manager :=
  mkManager (currentProvider st) (email st) (login st) (domain st) ms
    (refreshInterval st) (messageCache st) (lastRefresh st) (stats st).

Definition set_refreshInterval (t : option Z) (st : Manager) : Manager :=
  mkManager (currentProvider st) (email st) (login st) (domain st) (messages st)
    t (messageCache st) (lastRefresh st) (stats st).

Definition set_messageCache (c : gmap string Detail) (st : Manager) : Manager :=
  mkManager (currentProvider st) (email st) (login st) (domain st) (messages st)
    (refreshInterval st) c (lastRefresh st) (stats st).

Definition set_lastRefresh (t : Z) (st : Manager) : Manager :=
  mkManager (currentProvider st) (email st) (login st) (domain st) (messages st)
    (refreshInterval st) (messageCache st) t (stats st).

Definition set_stats (s : Stats) (st : Manager) : Manager :=
  mkManager (currentProvider st) (email st) (login st) (domain st) (messages st)
    (refreshInterval st) (messageCache st) (lastRefresh st) s.

(** [this.stats.emailsCreated++] and its two siblings. *)
Definition bump_emailsCreated (st : Manager) : Manager :=
  set_stats (mkStats (emailsCreated (stats st) + 1) (messagesReceived (stats st))
               (providerSwitches (stats st))) st.

Definition bump_messagesReceived (st : Manager) : Manager :=
  set_stats (mkStats (emailsCreated (stats st)) (messagesReceived (stats st) + 1)
               (providerSwitches (stats st))) st.

Definition bump_providerSwitches (st : Manager) : Manager :=
  set_stats (mkStats (emailsCreated (stats st)) (messagesReceived (stats st))
               (providerSwitches (stats st) + 1)) st.

(** ** The orchestrator monad

    An asynchronous method of the manager reads the world, updates the
    manager and either returns or throws; the provider calls it awaited
    are listed in order. *)
Definition Orch (A : Type) : Type :=
  World -> Manager -> Res A * Manager * list Call.

Definition orch_ret {A} (a : A) : Orch A := fun _ st => (Ret a, st, []).

Definition orch_bind {A B} (m : Orch A) (f : A -> Orch B) : Orch B :=
  fun w st =>
    let '(r, st1, c1) := m w st in
    match r with
    | Ret a => let '(r2, st2, c2) := f a w st1 in (r2, st2, c1 ++ c2)
    | Throw e => (Throw e, st1, c1)
    end.

#[global] Instance orch_mret : MRet Orch := @orch_ret.
#[global] Instance orch_mbind : MBind Orch := fun A B f m => orch_bind m f.

(** [try { body } catch (error) { handler }] *)
Definition try_catch {A} (body : Orch A) (handler : JsVal -> Orch A) : Orch A :=
  fun w st =>
    let '(r, st1, c1) := body w st in
    match r with
    | Ret a => (Ret a, st1, c1)
    | Throw error => let '(r2, st2, c2) := handler error w st1 in (r2, st2, c1 ++ c2)
    end.

Definition this : Orch Manager := fun _ st => (Ret st, st, []).

Definition update (f : Manager -> Manager) : Orch unit :=
  fun _ st => (Ret tt, f st, []).

Definition lift {A} (r : Res A) : Orch A := fun _ st => (r, st, []).

(** [await provider.method(args)] *)
Definition await (c : Call) : Orch JsVal :=
  fun w st =>
    (match reply w c with Returns v => Ret v | Raises e => Throw e end, st, [c]).

Definition date_now : Orch Z := fun w st => (Ret (now w), st, []).

Definition math_random : Orch (nat -> nat) := fun w st => (Ret (random w), st, []).

#[global] Instance res_mret : MRet Res := @Ret.
#[global] Instance res_mbind : MBind Res := fun A B f m => res_bind m f.

(** ** Message normalizer *)

(** The subject given to a message that carries none. *)
Definition NO_SUBJECT : string := "(بدون عنوان)".

(** [a || b], the right operand evaluated only when the left is falsy. *)
Definition or_else (a b : Res JsVal) : Res JsVal :=
  v ← a; if truthy v then mret v else b.

(** [v?.method(...)] for a method of strings: skipped on [undefined] and
    [null], applied to a string, and a [TypeError] ("not a function") on
    any other value. *)
Definition opt_string_method (f : string -> string) (v : JsVal) : Res JsVal :=
  match v with
  | JUndefined | JNull => Ret JUndefined
  | JStr s => Ret (JStr (f s))
  | _ => Throw (typeError "is not a function")
  end.

(** The callback of [messages.map] in [normalizeMessages]. *)
Definition normalize_summary (msg : JsVal) : Res Summary :=
  id ← or_else (get msg "id")
        (or_else (get msg "mail_id")
          (v ← get msg "@id"; opt_string_method last_segment v));
  from ← or_else (get msg "from")
          (or_else (get msg "mail_from") (get msg "fromAddress"));
  subject ← or_else (get msg "subject")
             (or_else (get msg "mail_subject") (Ret (JStr NO_SUBJECT)));
  date ← or_else (get msg "date")
          (or_else (get msg "mail_timestamp") (get msg "createdAt"));
  preview ← or_else (v ← get msg "textBody"; opt_string_method (take_string 100) v)
             (or_else (get msg "mail_excerpt") (Ret (JStr "")));
  mret (mkSummary id from subject date preview).

Fixpoint res_map {A B} (f : A -> Res B) (l : list A) : Res (list B) :=
  match l with
  | [] => Ret []
  | x :: rest => y ← f x; ys ← res_map f rest; mret (y :: ys)
  end.

Definition normalizeMessages (messages : JsVal) : Res (list Summary) :=
  match messages with
  | JArr items => res_map normalize_summary items
  | _ => Ret []
  end.

(** The object literal built by [getMessage] from a truthy [message]. *)
Definition normalize_detail (message : JsVal) (messageId : string) : Res Detail :=
  id ← or_else (get message "id") (Ret (JStr messageId));
  from ← or_else (get message "from")
          (or_else (get message "mail_from") (get message "fromAddress"));
  subject ← or_else (get message "subject")
             (or_else (get message "mail_subject") (Ret (JStr NO_SUBJECT)));
  date ← or_else (get message "date")
          (or_else (get message "mail_timestamp") (get message "createdAt"));
  body ← or_else (get message "body")
          (or_else (get message "mail_body") (get message "text"));
  textBody ← or_else (get message "textBody")
              (or_else (get message "body") (get message "mail_body"));
  htmlBody ← or_else (get message "htmlBody")
              (or_else (get message "html") (Ret JNull));
  attachments ← or_else (get message "attachments") (Ret (JArr []));
  mret (mkDetail id from subject date body textBody htmlBody attachments).

(** ** TempMailManager *)

Definition is_provider (st : Manager) : bool :=
  match currentProvider st with Some _ => true | None => false end.

(** The loop of [initialize]: the first provider whose health check
    returns a truthy value is pinned; a throwing check is skipped, after
    the [catch] block has read [error.message] for its log line. *)
Fixpoint initialize_loop (order : list ProviderKey) : Orch unit :=
  match order with
  | [] => mret tt
  | provider :: rest =>
      found ← try_catch
        (isHealthy ← await (CheckHealth provider);
         if truthy isHealthy
         then update (set_currentProvider (Some provider));; mret true
         else mret false)
        (fun error => lift (get error "message");; mret false);
      if found : bool then mret tt else initialize_loop rest
  end.

Definition initialize : Orch (option ProviderKey) :=
  initialize_loop providerOrder;;
  st ← this;
  (if is_provider st then mret tt
   else update (set_currentProvider (Some secmail)));;
  st ← this;
  mret (currentProvider st).

(** The tail of [createEmail] after the loop: a local address. *)
Definition createEmail_fallback : Orch JsVal :=
  rnd ← math_random;
  update (set_login (JStr (generateRandomString 12 true rnd)));;
  update (set_domain (JStr "1secmail.com"));;
  st ← this;
  l ← lift (to_string (login st));
  d ← lift (to_string (domain st));
  update (set_email (JStr (l ++ "@" ++ d)));;
  update (set_currentProvider (Some secmail));;
  st ← this;
  mret (email st).

(** [result && result.email && isValidEmail(result.email)] *)
Definition accepts (result : JsVal) : Res bool :=
  if truthy result then
    e ← get result "email";
    if truthy e then
      e' ← get result "email"; isValidEmail e'
    else mret false
  else mret false.

(** The [for] loop of [createEmail]; [Some] is an early [return]. The
    success branch converts [this.email] to a string for its log line,
    and the [catch] block reads [error.message] for its own before it
    counts the switch. *)
Fixpoint createEmail_loop (order : list ProviderKey) : Orch JsVal :=
  match order with
  | [] => createEmail_fallback
  | provider :: rest =>
      returned ← try_catch
        (result ← await (CreateEmail provider);
         valid ← lift (accepts result);
         if valid : bool then
           update (set_currentProvider (Some provider));;
           e ← lift (get result "email"); update (set_email e);;
           l ← lift (get result "login"); update (set_login l);;
           d ← lift (get result "domain"); update (set_domain d);;
           update (set_messages []);;
           update (set_messageCache ∅);;
           update bump_emailsCreated;;
           st ← this;
           lift (to_string (email st));;
           st ← this;
           mret (Some (email st))
         else mret None)
        (fun error =>
           lift (get error "message");;
           update bump_providerSwitches;; mret None);
      match returned with
      | Some address => mret address
      | None => createEmail_loop rest
      end
  end.

Definition createEmail : Orch JsVal :=
  st ← this;
  (if is_provider st then mret None else initialize);;
  createEmail_loop providerOrder.

(** The dispatch on [this.currentProvider.name] shared in shape by
    [getMessages] and [getMessage]; [none] is the initial value of the
    local variable, kept when no name matches. *)
Definition by_name (st : Manager) (on_secmail on_other : ProviderKey -> Orch JsVal)
    (none : JsVal) : Orch JsVal :=
  match currentProvider st with
  | None => lift (get JNull "name")
  | Some provider =>
      if String.eqb (provider_name provider) "1secmail" then on_secmail provider
      else if String.eqb (provider_name provider) "mail.tm" then on_other provider
      else if String.eqb (provider_name provider) "guerrillamail" then on_other provider
      else mret none
  end.

Definition getMessages : Orch (list Summary) :=
  t ← date_now;
  st ← this;
  if (t - lastRefresh st <? CONFIG.CACHE_DURATION)%Z then mret (messages st)
  else
    update (set_lastRefresh t);;
    st ← this;
    if negb (is_provider st) || negb (truthy (login st)) || negb (truthy (domain st))
    then mret []
    else
      try_catch
        (raw ← by_name st
            (fun p => await (GetMessages p [login st; domain st]))
            (fun p => await (GetMessages p []))
            (JArr []);
         normalized ← lift (normalizeMessages raw);
         update (set_messages normalized);;
         st ← this;
         mret (messages st))
        (fun error => st ← this; mret (messages st)).

Definition getMessage (messageId : string) : Orch (option Detail) :=
  st ← this;
  match messageCache st !! messageId with
  | Some cached => mret (Some cached)
  | None =>
      if negb (is_provider st) then mret None
      else
        try_catch
          (message ← by_name st
              (fun p => await (GetMessage p [login st; domain st; JStr messageId]))
              (fun p => await (GetMessage p [JStr messageId]))
              JNull;
           if truthy message then
             normalized ← lift (normalize_detail message messageId);
             update (fun st => set_messageCache (<[messageId := normalized]> (messageCache st)) st);;
             update bump_messagesReceived;;
             mret (Some normalized)
           else mret None)
          (fun error => mret None)
  end.

Definition stopAutoRefresh : Orch unit :=
  st ← this;
  match refreshInterval st with
  | Some _ => update (set_refreshInterval None)
  | None => mret tt
  end.

Definition refreshEmail : Orch JsVal :=
  stopAutoRefresh;;
  update (set_messages []);;
  update (set_messageCache ∅);;
  createEmail.

(** [!!this.email && !!this.currentProvider] *)
Definition isReady (st : Manager) : bool := truthy (email st) && is_provider st.

Definition getEmail (st : Manager) : JsVal := email st.

(** * Vocabulary of the statements *)

(** ** Address predicate *)

(** Every character of [s] satisfies [p]. *)
Fixpoint all_chars (p : ascii -> bool) (s : string) : bool :=
  match s with
  | EmptyString => true
  | String c rest => p c && all_chars p rest
  end.

(** The shape [isValidEmail] asks of a string, in words: a non-empty local part,
    an at sign, a non-empty domain, a dot, and two or more letters. *)
Definition email_shape (s : string) : Prop :=
  exists loc dom tld,
    s = (loc ++ "@" ++ dom ++ "." ++ tld)%string /\
    loc <> EmptyString /\ all_chars local_class loc = true /\
    dom <> EmptyString /\ all_chars domain_class dom = true /\
    (2 <= String.length tld)%nat /\ all_chars is_alpha tld = true.

(** ** Retry client *)

(** A failure the guard of the [catch] block lets through to a retry: a
    response that is not [ok], or a rejection whose error name does not
    contain ["Abort"]. *)
Definition retryable (o : FetchOutcome) : bool :=
  match o with
  | Responds response => negb (ok response)
  | Rejects e =>
      match name_includes_Abort e with
      | Ret false => true
      | _ => false
      end
  | TimesOut => false
  end.

(** ** Mailbox creation *)

(** [v.k] where it cannot throw. *)
Definition field (v : JsVal) (k : string) : JsVal :=
  match v with
  | JObj fields => assoc k fields
  | _ => JUndefined
  end.

(** The acceptance test of [createEmail] returns true on a result. *)
Definition valid_result (result : JsVal) : bool :=
  truthy result && truthy (field result "email") &&
  match isValidEmail (field result "email") with
  | Ret valid => valid
  | Throw _ => false
  end.

(** The acceptance test itself throws: the address of the result cannot
    be converted to a string. *)
Definition test_throws (result : JsVal) : bool :=
  truthy result && truthy (field result "email") &&
  negb (stringifies (field result "email")).

(** The promise of a provider call rejects with [undefined] or [null]. *)
Definition rejects_nullish (r : Reply) : bool :=
  match r with
  | Raises e => nullish e
  | Returns _ => false
  end.

(** No health check rejects with [undefined] or [null]. *)
Definition probes_reject_objects (w : World) : bool :=
  forallb (fun p => negb (rejects_nullish (reply w (CheckHealth p)))) providerOrder.

(** No [createEmail] of a provider rejects with [undefined] or [null]. *)
Definition creations_reject_objects (w : World) : bool :=
  forallb (fun p => negb (rejects_nullish (reply w (CreateEmail p)))) providerOrder.

(** What the providers throw at mailbox creation are error objects. *)
Definition error_objects (w : World) : bool :=
  probes_reject_objects w && creations_reject_objects w.

(** A provider's [createEmail] fails: it throws, or its result is not
    accepted. *)
Definition create_fails (r : Reply) : bool :=
  match r with
  | Raises _ => true
  | Returns result => negb (valid_result result)
  end.

(** Every provider of the list fails to create a mailbox. *)
Definition all_fail (w : World) (order : list ProviderKey) : bool :=
  forallb (fun p => create_fails (reply w (CreateEmail p))) order.

(** The manager after the success branch of [createEmail]. *)
Definition adopt (provider : ProviderKey) (result : JsVal) (st : Manager) : Manager :=
  bump_emailsCreated
    (set_messageCache ∅
      (set_messages []
        (set_domain (field result "domain")
          (set_login (field result "login")
            (set_email (field result "email")
              (set_currentProvider (Some provider) st)))))).

Definition synthetic_login (w : World) : string :=
  generateRandomString 12 true (random w).

(** The manager after the local fallback of [createEmail]. *)
Definition synthesize (w : World) (st : Manager) : Manager :=
  set_currentProvider (Some secmail)
    (set_email (JStr (synthetic_login w ++ "@1secmail.com"))
      (set_domain (JStr "1secmail.com")
        (set_login (JStr (synthetic_login w)) st))).

Definition prepend {A} (c : Call) (x : Res A * Manager * list Call)
    : Res A * Manager * list Call :=
  let '(r, st, calls) := x in (r, st, c :: calls).

Definition is_health_check (c : Call) : bool :=
  match c with CheckHealth _ => true | _ => false end.

(** The mailbox identity held by the manager. *)
Definition identity (st : Manager) : JsVal * JsVal * JsVal :=
  (login st, domain st, email st).

(** ** Message listing and reading *)

(** The listing call [getMessages] dispatches for a pinned provider:
    1secmail is passed login and domain, the other two nothing. *)
Definition listing_call (provider : ProviderKey) (st : Manager) : Call :=
  match provider with
  | secmail => GetMessages secmail [login st; domain st]
  | _ => GetMessages provider []
  end.

(** Likewise the fetch call of [getMessage]. *)
Definition fetch_call (provider : ProviderKey) (st : Manager) (messageId : string) : Call :=
  match provider with
  | secmail => GetMessage secmail [login st; domain st; JStr messageId]
  | _ => GetMessage provider [JStr messageId]
  end.

(** A provider is pinned and login and domain are set: the guard of
    [getMessages] lets the call through. *)
Definition provisioned (st : Manager) : bool :=
  is_provider st && truthy (login st) && truthy (domain st).

(** [undefined], [null] or a string: the values on which [?.substring]
    and [?.split] do not throw. *)
Definition stringish (v : JsVal) : bool :=
  match v with
  | JUndefined | JNull | JStr _ => true
  | _ => false
  end.

(** A provider-native message record: a JSON object whose [textBody] and
    [@id], when present, are strings. *)
Definition native_record (msg : JsVal) : bool :=
  match msg with
  | JObj fields => stringish (assoc "@id" fields) && stringish (assoc "textBody" fields)
  | _ => false
  end.

(** The value of [v?.method(...)] on a [stringish] value. *)
Definition opt_string (f : string -> string) (v : JsVal) : JsVal :=
  match v with
  | JStr s => JStr (f s)
  | _ => JUndefined
  end.

(** The detail [getMessage] builds from a truthy provider message. *)
Definition detail_of (message : JsVal) (messageId : string) : Detail :=
  mkDetail
    (js_or (field message "id") (JStr messageId))
    (js_or (field message "from")
       (js_or (field message "mail_from") (field message "fromAddress")))
    (js_or (field message "subject")
       (js_or (field message "mail_subject") (JStr NO_SUBJECT)))
    (js_or (field message "date")
       (js_or (field message "mail_timestamp") (field message "createdAt")))
    (js_or (field message "body")
       (js_or (field message "mail_body") (field message "text")))
    (js_or (field message "textBody")
       (js_or (field message "body") (field message "mail_body")))
    (js_or (field message "htmlBody") (js_or (field message "html") JNull))
    (js_or (field message "attachments") (JArr [])).

(** The summary the normalizer builds from a native record. *)
Definition summary_of (msg : JsVal) : Summary :=
  mkSummary
    (js_or (field msg "id")
       (js_or (field msg "mail_id") (opt_string last_segment (field msg "@id"))))
    (js_or (field msg "from")
       (js_or (field msg "mail_from") (field msg "fromAddress")))
    (js_or (field msg "subject")
       (js_or (field msg "mail_subject") (JStr NO_SUBJECT)))
    (js_or (field msg "date")
       (js_or (field msg "mail_timestamp") (field msg "createdAt")))
    (js_or (opt_string (take_string 100) (field msg "textBody"))
       (js_or (field msg "mail_excerpt") (JStr ""))).

(** The manager with [n] more provider switches counted. *)
Definition add_switches (n : Z) (st : Manager) : Manager :=
  set_stats (mkStats (emailsCreated (stats st)) (messagesReceived (stats st))
               (providerSwitches (stats st) + n)) st.

(** ** Concrete worlds and managers, for the examples *)

Definition down : JsVal := mkError "Error" "HTTP 503".

Definition mailbox (login domain : string) : JsVal :=
  JObj [("login", JStr login); ("domain", JStr domain);
        ("email", JStr (login ++ "@" ++ domain))].

Definition draws (i : nat) : nat := (7 * i + 3)%nat.

(** Every provider call throws. *)
Definition world_all_down (t : Z) : World :=
  mkWorld (fun _ => Raises down) t draws.

(** Only Guerrilla Mail creates a mailbox. *)
Definition world_guerrilla_only : World :=
  mkWorld (fun c => match c with
                    | CreateEmail guerrilla => Returns (mailbox "bob" "sharklasers.com")
                    | _ => Raises down
                    end) 5000 draws.

(** 1secmail answers with a malformed address, mail.tm with a good one. *)
Definition world_invalid_then_ok : World :=
  mkWorld (fun c => match c with
                    | CreateEmail secmail =>
                        Returns (JObj [("login", JStr "nobody"); ("email", JStr "nobody")])
                    | CreateEmail mailtm => Returns (mailbox "carol" "mail.tm")
                    | _ => Raises down
                    end) 5000 draws.

(** 1secmail creates the mailbox of alice and serves her message 42. *)
Definition world_alice (t : Z) : World :=
  mkWorld (fun c => match c with
                    | CreateEmail secmail => Returns (mailbox "alice" "1secmail.com")
                    | GetMessage secmail _ =>
                        Returns (JObj [("id", JNum 42); ("from", JStr "eve@example.org");
                                       ("subject", JStr "for alice only");
                                       ("textBody", JStr "the secret")])
                    | GetMessages secmail _ =>
                        Returns (JArr [JObj [("id", JNum 42); ("from", JStr "eve@example.org");
                                             ("date", JStr "2024-01-01 10:00:00")]])
                    | _ => Raises down
                    end) t draws.

(** 1secmail answers with an address that cannot be converted to a
    string, mail.tm with a good one. *)
Definition world_unconvertible_then_ok : World :=
  mkWorld (fun c => match c with
                    | CreateEmail secmail =>
                        Returns (JObj [("login", JStr "nobody");
                                       ("email", JObj [("toString", JNum 0)])])
                    | CreateEmail mailtm => Returns (mailbox "carol" "mail.tm")
                    | _ => Raises down
                    end) 5000 draws.

(** The health check of 1secmail fails, that of mail.tm succeeds. *)
Definition world_probes : World :=
  mkWorld (fun c => match c with
                    | CheckHealth secmail => Raises down
                    | CheckHealth _ => Returns (JBool true)
                    | CreateEmail mailtm => Returns (mailbox "carol" "mail.tm")
                    | _ => Raises down
                    end) 5000 draws.

Definition pinned_manager : Manager := set_currentProvider (Some secmail) newManager.

(** The manager after alice's mailbox was created. *)
Definition alice_manager : Manager := (createEmail (world_alice 5000) newManager).1.2.

(** ... and after her message 42 was opened. *)
Definition alice_read_manager : Manager :=
  (getMessage "42" (world_alice 6000) alice_manager).1.2.

(** ... and after a further [createEmail] met three failing providers. *)
Definition stale_manager : Manager :=
  (createEmail (world_all_down 7000) alice_read_manager).1.2.

Definition okResponse : Response := mkResponse true 200 (JObj []).

(** The first request runs into the timeout; the server would answer the
    following ones. *)
Definition net_timeout_then_ok (i : nat) : FetchOutcome :=
  match i with
  | O => TimesOut
  | _ => Responds okResponse
  end.

(** A connection failure, then a 503, then success. *)
Definition net_two_failures (i : nat) : FetchOutcome :=
  match i with
  | 0%nat => Rejects (typeError "Failed to fetch")
  | 1%nat => Responds (mkResponse false 503 JNull)
  | _ => Responds okResponse
  end.

(** The manager after alice's inbox was listed at time 10000. *)
Definition alice_listed_manager : Manager :=
  (getMessages (world_alice 10000) alice_manager).1.2.

(** The detail cached for alice's message 42. *)
Definition alice_detail : Detail :=
  mkDetail (JNum 42) (JStr "eve@example.org") (JStr "for alice only") JUndefined
    JUndefined (JStr "the secret") JNull (JArr []).

(** A Guerrilla Mail record without subject and a mail.tm record whose
    subject is empty. *)
Definition sample_listing : list JsVal :=
  [JObj [("mail_id", JNum 7); ("mail_from", JStr "eve@example.org")];
   JObj [("@id", JStr "/messages/abc"); ("subject", JStr "")]].

(** * The rest of the manager *)

(** ** Closed forms of the probing and of the priority walk *)

Definition is_lower (c : ascii) : bool := in_range "a" "z" c.

(** The health check of a provider returns a truthy value. *)
Definition healthy (w : World) (p : ProviderKey) : bool :=
  match reply w (CheckHealth p) with
  | Returns v => truthy v
  | Raises _ => false
  end.

(** The providers probed by [initialize]: up to the first healthy one. *)
Fixpoint probed (w : World) (order : list ProviderKey) : list ProviderKey :=
  match order with
  | [] => []
  | p :: rest => if healthy w p then [p] else p :: probed w rest
  end.

(** The provider pinned after [initialize]. *)
Definition pinned_after (w : World) (st : Manager) : ProviderKey :=
  match List.find (healthy w) providerOrder with
  | Some p => p
  | None =>
      match currentProvider st with
      | Some q => q
      | None => secmail
      end
  end.

(** The [createEmail] of a provider returns an accepted result. *)
Definition accepted (w : World) (p : ProviderKey) : bool :=
  negb (create_fails (reply w (CreateEmail p))).

(** The attempt at a provider ends in the [catch] block: its
    [createEmail] throws, or the acceptance test does. *)
Definition thrown (w : World) (p : ProviderKey) : bool :=
  match reply w (CreateEmail p) with
  | Raises _ => true
  | Returns result => test_throws result
  end.

Definition result_of (w : World) (p : ProviderKey) : JsVal :=
  match reply w (CreateEmail p) with
  | Returns result => result
  | Raises _ => JUndefined
  end.

(** The providers attempted by the walk: up to the first accepted one. *)
Fixpoint attempted (w : World) (order : list ProviderKey) : list ProviderKey :=
  match order with
  | [] => []
  | p :: rest => if accepted w p then [p] else p :: attempted w rest
  end.

(** The number of attempts of the walk that end in the [catch] block. *)
Definition thrown_count (w : World) (order : list ProviderKey) : Z :=
  Z.of_nat (length (List.filter (thrown w) (attempted w order))).

(** Value and final manager of the walk over [order], when what the
    providers throw are error objects. *)
Definition walk_outcome (w : World) (order : list ProviderKey) (st : Manager)
    : JsVal * Manager :=
  let st0 := add_switches (thrown_count w order) st in
  match List.find (accepted w) order with
  | Some p => (field (result_of w p) "email", adopt p (result_of w p) st0)
  | None => (JStr (synthetic_login w ++ "@1secmail.com"), synthesize w st0)
  end.

(** Each counter of [b] is at least the one of [a]. *)
Definition stats_le (a b : Stats) : Prop :=
  (emailsCreated a <= emailsCreated b)%Z /\
  (messagesReceived a <= messagesReceived b)%Z /\
  (providerSwitches a <= providerSwitches b)%Z.

(** ** Remaining methods of [TempMailManager] *)

(** [this.currentProvider?.name || 'unknown'] *)
Definition getProviderName (st : Manager) : string :=
  match currentProvider st with
  | Some p => if String.eqb (provider_name p) "" then "unknown" else provider_name p
  | None => "unknown"
  end.

(** [getStats]: a copy of the counters. *)
Definition getStats (st : Manager) : Stats :=
  mkStats (emailsCreated (stats st)) (messagesReceived (stats st))
    (providerSwitches (stats st)).

(** Calls to the timer functions of the platform. *)
Inductive TimerEvent : Type :=
| SetInterval (handle : Z) (ms : Z)
| ClearInterval (handle : Z).

(** [Math.max(MIN_REFRESH_INTERVAL, Math.min(interval, MAX_REFRESH_INTERVAL))] *)
Definition clamp_interval (interval : Z) : Z :=
  Z.max CONFIG.MIN_REFRESH_INTERVAL (Z.min interval CONFIG.MAX_REFRESH_INTERVAL).

(** [stopAutoRefresh], with the [clearInterval] it issues. *)
Definition stop_timer (st : Manager) : Manager * list TimerEvent :=
  match refreshInterval st with
  | Some handle => (set_refreshInterval None st, [ClearInterval handle])
  | None => (st, [])
  end.

(** [startAutoRefresh(callback, interval)]; [fresh] is the handle that
    [setInterval] returns (a positive integer, hence truthy), and
    [interval = None] stands for the omitted argument. *)
Definition startAutoRefresh (fresh : Z) (interval : option Z) (st : Manager)
    : Manager * list TimerEvent :=
  let '(st1, cleared) := stop_timer st in
  let ms := clamp_interval (default CONFIG.DEFAULT_REFRESH_INTERVAL interval) in
  (set_refreshInterval (Some fresh) st1, cleared ++ [SetInterval fresh ms]).

(** The function scheduled by [startAutoRefresh]: one polling round. *)
Definition autoRefresh_tick (callback : option (list Summary -> Res unit)) : Orch unit :=
  try_catch
    (listed ← getMessages;
     match callback with
     | Some cb => lift (cb listed)
     | None => mret tt
     end)
    (fun error => mret tt).

(** A caller's use of the two scheduling methods. *)
Inductive TimerOp : Type :=
| OpStart (fresh : Z) (interval : option Z)
| OpStop.

Fixpoint run_timer_ops (ops : list TimerOp) (st : Manager) : Manager * list TimerEvent :=
  match ops with
  | [] => (st, [])
  | op :: rest =>
      let '(st1, ev1) :=
        match op with
        | OpStart fresh interval => startAutoRefresh fresh interval st
        | OpStop => stop_timer st
        end in
      let '(st2, ev2) := run_timer_ops rest st1 in
      (st2, ev1 ++ ev2)
  end.

(** The interval timers still scheduled after a sequence of timer calls,
    starting from those in [live]. *)
Fixpoint live_timers (live : list Z) (events : list TimerEvent) : list Z :=
  match events with
  | [] => live
  | SetInterval handle _ :: rest => live_timers (live ++ [handle]) rest
  | ClearInterval handle :: rest =>
      live_timers (List.filter (fun h => negb (Z.eqb h handle)) live) rest
  end.

(** The timer handle the manager holds. *)
Definition held_timer (st : Manager) : list Z :=
  match refreshInterval st with
  | Some handle => [handle]
  | None => []
  end.

(** ** The legacy facade [SecMailAPI] *)

Record SecMailAPI : Type := mkSecMailAPI {
  manager : Manager;
  api_email : JsVal;
  api_login : JsVal;
  api_domain : JsVal;
  api_messages : list Summary;
  api_refreshInterval : option Z
}.

Definition newSecMailAPI : SecMailAPI :=
  mkSecMailAPI newManager JNull JNull JNull [] None.

Definition Facade (A : Type) : Type :=
  World -> SecMailAPI -> Res A * SecMailAPI * list Call.

(** Run a method of the owned manager. *)
Definition on_manager {A} (m : Orch A) : Facade A :=
  fun w api =>
    let '(r, st, calls) := m w (manager api) in
    (r, mkSecMailAPI st (api_email api) (api_login api) (api_domain api)
          (api_messages api) (api_refreshInterval api), calls).

Definition facade_bind {A B} (m : Facade A) (f : A -> Facade B) : Facade B :=
  fun w api =>
    let '(r, api1, c1) := m w api in
    match r with
    | Ret a => let '(r2, api2, c2) := f a w api1 in (r2, api2, c1 ++ c2)
    | Throw e => (Throw e, api1, c1)
    end.

(** [this.email = address; this.login = this.manager.login;
     this.domain = this.manager.domain; return this.email] *)
Definition mirror_identity (address : JsVal) : Facade JsVal :=
  fun _ api =>
    (Ret address,
     mkSecMailAPI (manager api) address (login (manager api)) (domain (manager api))
       (api_messages api) (api_refreshInterval api), []).

Definition api_createEmail : Facade JsVal :=
  facade_bind (on_manager initialize) (fun _ =>
  facade_bind (on_manager createEmail) mirror_identity).

Definition api_refreshEmail : Facade JsVal :=
  facade_bind (on_manager refreshEmail) mirror_identity.

Definition api_getMessages : Facade (list Summary) :=
  facade_bind (on_manager getMessages) (fun listed =>
    fun _ api =>
      (Ret listed,
       mkSecMailAPI (manager api) (api_email api) (api_login api) (api_domain api)
         listed (api_refreshInterval api), [])).

Definition api_getMessage (id : string) : Facade (option Detail) :=
  on_manager (getMessage id).

Definition api_getEmail (api : SecMailAPI) : JsVal := api_email api.

(** The identity cached by the facade. *)
Definition api_identity (api : SecMailAPI) : JsVal * JsVal * JsVal :=
  (api_login api, api_domain api, api_email api).

(** * The provider adapters *)

(** ** Platform and adapter monad *)

(** What an adapter method meets: the outcome of the i-th request issued,
    the i-th reading of [Date.now()] and the i-th draw of
    [Math.random()]. *)
Record Platform : Type := mkPlatform {
  net : nat -> FetchOutcome;
  clock : nat -> Z;
  entropy : nat -> nat
}.

(** How many requests, clock readings and draws have been consumed. *)
Record Cursor : Type := mkCursor {
  requests_made : nat;
  clock_reads : nat;
  draws_made : nat
}.

Definition start : Cursor := mkCursor 0 0 0.

(** Requests, with the options the caller passed, and backoff sleeps. *)
Inductive PEvent : Type :=
| Sent (url : string) (options : JsVal)
| Slept (ms : Q).

Definition Prov (St A : Type) : Type :=
  Platform -> St -> Cursor -> Res A * St * Cursor * list PEvent.

Definition prov_ret {St A} (a : A) : Prov St A := fun _ s cur => (Ret a, s, cur, []).

Definition prov_bind {St A B} (m : Prov St A) (f : A -> Prov St B) : Prov St B :=
  fun pf s cur =>
    let '(r, s1, cur1, t1) := m pf s cur in
    match r with
    | Ret a => let '(r2, s2, cur2, t2) := f a pf s1 cur1 in (r2, s2, cur2, t1 ++ t2)
    | Throw e => (Throw e, s1, cur1, t1)
    end.

#[global] Instance prov_mret St : MRet (Prov St) := @prov_ret St.
#[global] Instance prov_mbind St : MBind (Prov St) := fun A B f m => prov_bind m f.

Definition prov_try {St A} (body : Prov St A) (handler : JsVal -> Prov St A) : Prov St A :=
  fun pf s cur =>
    let '(r, s1, cur1, t1) := body pf s cur in
    match r with
    | Ret a => (Ret a, s1, cur1, t1)
    | Throw error =>
        let '(r2, s2, cur2, t2) := handler error pf s1 cur1 in (r2, s2, cur2, t1 ++ t2)
    end.

Definition self {St} : Prov St St := fun _ s cur => (Ret s, s, cur, []).

Definition assign {St} (f : St -> St) : Prov St unit := fun _ s cur => (Ret tt, f s, cur, []).

Definition settle {St A} (r : Res A) : Prov St A := fun _ s cur => (r, s, cur, []).

Definition sent_with (options : JsVal) (ev : Event) : PEvent :=
  match ev with
  | EvFetch url => Sent url options
  | EvSleep ms => Slept ms
  end.

(** [await fetchWithRetry(url, options, retries)] *)
Definition http {St} (url : string) (options : JsVal) (retries : nat) : Prov St Response :=
  fun pf s cur =>
    let '(r, trace) := fetchWithRetry (net pf) (requests_made cur) url retries in
    (r, s,
     mkCursor (requests_made cur + requests trace) (clock_reads cur) (draws_made cur),
     List.map (sent_with options) trace).

(** [Date.now()] *)
Definition date_now_p {St} : Prov St Z :=
  fun pf s cur =>
    (Ret (clock pf (clock_reads cur)), s,
     mkCursor (requests_made cur) (S (clock_reads cur)) (draws_made cur), []).

(** [Math.random()], as the natural number the draw stands for. *)
Definition draw {St} : Prov St nat :=
  fun pf s cur =>
    (Ret (entropy pf (draws_made cur)), s,
     mkCursor (requests_made cur) (clock_reads cur) (S (draws_made cur)), []).

(** [generateRandomString(length)], on the draws that follow. *)
Definition random_string {St} (length : nat) : Prov St string :=
  fun pf s cur =>
    (Ret (generateRandomString length true (fun i => entropy pf (draws_made cur + i))), s,
     mkCursor (requests_made cur) (clock_reads cur) (draws_made cur + Nat.max 1 length), []).

(** [await response.json()]. A body that is not JSON text is represented
    by [JUndefined], which no JSON text parses to. *)
Definition json (response : Response) : Res JsVal :=
  match body response with
  | JUndefined => Throw (mkError "SyntaxError" "Unexpected end of JSON input")
  | data => Ret data
  end.

Definition DEFAULT_RETRIES : nat := Z.to_nat CONFIG.MAX_RETRIES.

(** The default of the [options] parameter of [fetchWithRetry]. *)
Definition NO_OPTIONS : JsVal := JObj [].

(** ** More of the language *)

Definition is_array (v : JsVal) : bool :=
  match v with
  | JArr _ => true
  | _ => false
  end.

(** [v.length]: the number of elements of an array, the number of code
    units of a string, the own property of an object, [undefined] on a
    number or a boolean, and a [TypeError] on [undefined] and [null]. *)
Definition get_length (v : JsVal) : Res JsVal :=
  match v with
  | JArr items => Ret (JNum (Z.of_nat (length items)))
  | JStr text => Ret (JNum (Z.of_nat (code_units text)))
  | _ => get v "length"
  end.

(** [v.length] as an operand of [>] or [*]: it is read and converted to
    a number, and either step can throw. *)
Definition numeric_length (v : JsVal) : Res unit :=
  res_bind (get_length v) (fun len =>
    if stringifies len then Ret tt else Throw conversion_error).

(** [v.length === 0]: no conversion is made. *)
Definition length_is_zero (v : JsVal) : Res bool :=
  res_bind (get_length v) (fun len =>
    Ret (match len with
         | JNum 0 => true
         | _ => false
         end)).

(** [Array.isArray(v) && v.length > 0] *)
Definition nonempty_array (v : JsVal) : bool :=
  match v with
  | JArr (_ :: _) => true
  | _ => false
  end.

(** [items[Math.floor(Math.random() * items.length)]] on an array, for
    the draw [r]. *)
Definition array_element (items : list JsVal) (r : nat) : JsVal :=
  match items with
  | [] => JUndefined
  | _ => nth (r mod length items) items JUndefined
  end.

(** [s.split(sep)] for a one-character separator. *)
Fixpoint split_from (sep : ascii) (acc s : string) : list string :=
  match s with
  | EmptyString => [acc]
  | String c rest =>
      if Ascii.eqb c sep then acc :: split_from sep EmptyString rest
      else split_from sep (acc ++ String c EmptyString)%string rest
  end.

Definition js_split (sep : ascii) (s : string) : list string :=
  split_from sep EmptyString s.

(** [v.split('@')] *)
Definition split_at_sign (v : JsVal) : Res (list JsVal) :=
  match v with
  | JStr s => Ret (List.map JStr (js_split "@" s))
  | JUndefined | JNull =>
      Throw (typeError "Cannot read properties of undefined (reading 'split')")
  | _ => Throw (typeError "split is not a function")
  end.

Fixpoint res_filter {A} (f : A -> Res bool) (l : list A) : Res (list A) :=
  match l with
  | [] => Ret []
  | x :: rest =>
      keep ← f x; kept ← res_filter f rest;
      mret (if keep : bool then x :: kept else kept)
  end.

(** [member?.filter(d => d.isActive).map(d => d.domain) || []], an array,
    given by its elements. *)
Definition active_domains (member : JsVal) : Res (list JsVal) :=
  match member with
  | JUndefined | JNull => Ret []
  | JArr items =>
      active ← res_filter (fun d => a ← get d "isActive"; mret (truthy a)) items;
      res_map (fun d => get d "domain") active
  | _ => Throw (typeError "filter is not a function")
  end.

(** ** The three adapters *)

Section Adapters.

(** The values of two operations of the language are taken as given:
    the truth value of [v.length > 0], with its numeric reading of an
    arbitrary [length] property, and the element
    [v[Math.floor(Math.random() * v.length)]] for a draw; the statements
    below fix them on arrays, where they are [nonempty_array] and
    [array_element]. Whether the operations throw is not left open: they
    do when [v.length] cannot be read or cannot be converted to a
    number. *)
Variable length_positive : JsVal -> bool.
Variable random_element : JsVal -> nat -> JsVal.

(** [v.length > 0] *)
Definition length_gt_zero (v : JsVal) : Res bool :=
  res_bind (numeric_length v) (fun _ => Ret (length_positive v)).

(** [v[Math.floor(Math.random() * v.length)]], for the draw [r] already
    made. *)
Definition element_at_random (v : JsVal) (r : nat) : Res JsVal :=
  res_bind (numeric_length v) (fun _ => Ret (random_element v r)).

(** *** 1secmail *)

Record SecMailProvider : Type := mkSecMail {
  sm_domains : JsVal;
  sm_isHealthy : bool;
  sm_lastHealthCheck : Z
}.

Definition newSecMailProvider : SecMailProvider := mkSecMail (JArr []) true 0.

Definition sm_baseURL : string := "https://www.1secmail.com/api/v1/".

Definition BUILTIN_DOMAINS : list string :=
  ["1secmail.com"; "1secmail.org"; "1secmail.net";
   "kzccv.com"; "qiott.com"; "wuuvo.com"; "icznn.com"; "vjuum.com"].

Definition sm_checkHealth : Prov SecMailProvider bool :=
  prov_try
    (response ← http (sm_baseURL ++ "?action=getDomainList") NO_OPTIONS 1;
     domains ← settle (json response);
     assign (fun s => mkSecMail (sm_domains s) (nonempty_array domains)
                        (sm_lastHealthCheck s));;
     assign (fun s => mkSecMail (js_or domains (JArr [])) (sm_isHealthy s)
                        (sm_lastHealthCheck s));;
     t ← date_now_p;
     assign (fun s => mkSecMail (sm_domains s) (sm_isHealthy s) t);;
     s ← self;
     mret (sm_isHealthy s))
    (fun _ =>
       assign (fun s => mkSecMail (sm_domains s) false (sm_lastHealthCheck s));;
       mret false).

Definition sm_getDomains : Prov SecMailProvider JsVal :=
  s ← self;
  empty ← settle (length_is_zero (sm_domains s));
  (if empty : bool then sm_checkHealth;; mret tt
   else
     t ← date_now_p;
     if (60000 <? t - sm_lastHealthCheck s)%Z then sm_checkHealth;; mret tt
     else mret tt);;
  s ← self;
  positive ← settle (length_gt_zero (sm_domains s));
  mret (if positive : bool then sm_domains s
        else JArr (List.map JStr BUILTIN_DOMAINS)).

Definition sm_createEmail : Prov SecMailProvider JsVal :=
  domains ← sm_getDomains;
  login ← random_string 12;
  r ← draw;
  domain ← settle (element_at_random domains r);
  host ← settle (to_string domain);
  mret (JObj [("login", JStr login); ("domain", domain);
              ("email", JStr (login ++ "@" ++ host))]).

Definition sm_getMessages (login domain : JsVal) : Prov SecMailProvider JsVal :=
  l ← settle (to_string login);
  d ← settle (to_string domain);
  response ← http (sm_baseURL ++ "?action=getMessages&login=" ++ l
                     ++ "&domain=" ++ d) NO_OPTIONS DEFAULT_RETRIES;
  settle (json response).

Definition sm_getMessage (login domain id : JsVal) : Prov SecMailProvider JsVal :=
  l ← settle (to_string login);
  d ← settle (to_string domain);
  i ← settle (to_string id);
  response ← http (sm_baseURL ++ "?action=readMessage&login=" ++ l
                     ++ "&domain=" ++ d ++ "&id=" ++ i)
               NO_OPTIONS DEFAULT_RETRIES;
  settle (json response).

(** *** mail.tm *)

Record MailTmProvider : Type := mkMailTm {
  mt_token : JsVal;
  mt_accountId : JsVal;
  mt_isHealthy : bool
}.

Definition newMailTmProvider : MailTmProvider := mkMailTm JNull JNull true.

Definition mt_baseURL : string := "https://api.mail.tm".

Definition mt_checkHealth : Prov MailTmProvider bool :=
  prov_try
    (response ← http (mt_baseURL ++ "/domains") NO_OPTIONS 1;
     data ← settle (json response);
     member ← settle (get data "hydra:member");
     positive ← settle (if nullish member then Ret false else length_gt_zero member);
     assign (fun s => mkMailTm (mt_token s) (mt_accountId s) positive);;
     s ← self;
     mret (mt_isHealthy s))
    (fun _ =>
       assign (fun s => mkMailTm (mt_token s) (mt_accountId s) false);;
       mret false).

Definition mt_getDomains : Prov MailTmProvider (list JsVal) :=
  response ← http (mt_baseURL ++ "/domains") NO_OPTIONS DEFAULT_RETRIES;
  data ← settle (json response);
  member ← settle (get data "hydra:member");
  settle (active_domains member).

(** The options of the two POST requests; [body] holds the value whose
    [JSON.stringify] text is sent. *)
Definition mt_post (address password : string) : JsVal :=
  JObj [("method", JStr "POST");
        ("headers", JObj [("Content-Type", JStr "application/json")]);
        ("body", JObj [("address", JStr address); ("password", JStr password)])].

Definition mt_createEmail : Prov MailTmProvider JsVal :=
  domains ← mt_getDomains;
  match domains with
  | [] => settle (Throw (mkError "Error" "No domains available"))
  | _ :: _ =>
      login ← random_string 12;
      r ← draw;
      let domain := array_element domains r in
      generated ← random_string 16;
      let password := (generated ++ "!A1")%string in
      host ← settle (to_string domain);
      let email := (login ++ "@" ++ host)%string in
      createResponse ← http (mt_baseURL ++ "/accounts") (mt_post email password)
                         DEFAULT_RETRIES;
      accountData ← settle (json createResponse);
      id ← settle (get accountData "id");
      assign (fun s => mkMailTm (mt_token s) id (mt_isHealthy s));;
      tokenResponse ← http (mt_baseURL ++ "/token") (mt_post email password)
                        DEFAULT_RETRIES;
      tokenData ← settle (json tokenResponse);
      token ← settle (get tokenData "token");
      assign (fun s => mkMailTm token (mt_accountId s) (mt_isHealthy s));;
      s ← self;
      mret (JObj [("login", JStr login); ("domain", domain); ("email", JStr email);
                  ("password", JStr password); ("token", mt_token s)])
  end.

(** [{ headers: { 'Authorization': `Bearer ${this.token}` } }], for the
    text of the token. *)
Definition mt_authorization (token : string) : JsVal :=
  JObj [("headers", JObj [("Authorization", JStr ("Bearer " ++ token))])].

Definition mt_getMessages : Prov MailTmProvider JsVal :=
  s ← self;
  if negb (truthy (mt_token s)) then mret (JArr [])
  else
    token ← settle (to_string (mt_token s));
    response ← http (mt_baseURL ++ "/messages") (mt_authorization token)
                 DEFAULT_RETRIES;
    data ← settle (json response);
    member ← settle (get data "hydra:member");
    mret (js_or member (JArr [])).

Definition mt_getMessage (id : JsVal) : Prov MailTmProvider JsVal :=
  s ← self;
  if negb (truthy (mt_token s)) then mret JNull
  else
    i ← settle (to_string id);
    token ← settle (to_string (mt_token s));
    response ← http (mt_baseURL ++ "/messages/" ++ i)
                 (mt_authorization token) DEFAULT_RETRIES;
    settle (json response).

(** *** Guerrilla Mail *)

Record GuerrillaMailProvider : Type := mkGuerrilla {
  gm_sidToken : JsVal;
  gm_isHealthy : bool
}.

Definition newGuerrillaMailProvider : GuerrillaMailProvider := mkGuerrilla JNull true.

Definition gm_baseURL : string := "https://api.guerrillamail.com/ajax.php".

Definition gm_checkHealth : Prov GuerrillaMailProvider bool :=
  prov_try
    (response ← http (gm_baseURL ++ "?f=get_email_address&ip=127.0.0.1") NO_OPTIONS 1;
     data ← settle (json response);
     address ← settle (get data "email_addr");
     assign (fun s => mkGuerrilla (gm_sidToken s) (truthy address));;
     s ← self;
     mret (gm_isHealthy s))
    (fun _ =>
       assign (fun s => mkGuerrilla (gm_sidToken s) false);;
       mret false).

Definition gm_createEmail : Prov GuerrillaMailProvider JsVal :=
  response ← http (gm_baseURL ++ "?f=get_email_address&ip=127.0.0.1&agent=T3N_Mail")
               NO_OPTIONS DEFAULT_RETRIES;
  data ← settle (json response);
  sid ← settle (get data "sid_token");
  assign (fun s => mkGuerrilla sid (gm_isHealthy s));;
  address ← settle (get data "email_addr");
  parts ← settle (split_at_sign address);
  address' ← settle (get data "email_addr");
  s ← self;
  mret (JObj [("login", nth 0 parts JUndefined); ("domain", nth 1 parts JUndefined);
              ("email", address'); ("sidToken", gm_sidToken s)]).

Definition gm_getMessages : Prov GuerrillaMailProvider JsVal :=
  s ← self;
  if negb (truthy (gm_sidToken s)) then mret (JArr [])
  else
    sid ← settle (to_string (gm_sidToken s));
    response ← http (gm_baseURL ++ "?f=check_email&seq=0&sid_token=" ++ sid)
                 NO_OPTIONS DEFAULT_RETRIES;
    data ← settle (json response);
    listed ← settle (get data "list");
    mret (js_or listed (JArr [])).

Definition gm_getMessage (id : JsVal) : Prov GuerrillaMailProvider JsVal :=
  s ← self;
  if negb (truthy (gm_sidToken s)) then mret JNull
  else
    i ← settle (to_string id);
    sid ← settle (to_string (gm_sidToken s));
    response ← http (gm_baseURL ++ "?f=fetch_email&email_id=" ++ i
                       ++ "&sid_token=" ++ sid)
                 NO_OPTIONS DEFAULT_RETRIES;
    settle (json response).

End Adapters.

(** ** Vocabulary for the adapters *)

Definition sent_requests (trace : list PEvent) : nat :=
  length (List.filter (fun ev => match ev with Sent _ _ => true | Slept _ => false end) trace).

(** What an adapter's [createEmail] hands to the orchestrator. *)
Definition as_reply (r : Res JsVal) : Reply :=
  match r with
  | Ret v => Returns v
  | Throw e => Raises e
  end.

(** An instance of the two given operations that is exact on arrays. *)
Definition on_arrays_length_positive (v : JsVal) : bool := nonempty_array v.

Definition on_arrays_random_element (v : JsVal) (r : nat) : JsVal :=
  match v with
  | JArr items => array_element items r
  | _ => JUndefined
  end.

(** No request is ever answered. *)
Definition offline : Platform :=
  mkPlatform (fun _ => Rejects (typeError "Failed to fetch")) (fun i => 1000 * Z.of_nat i)%Z draws.

Definition json_response (data : JsVal) : Response := mkResponse true 200 data.

(** mail.tm lists one domain, which is not active. *)
Definition mailtm_no_active_domain : Platform :=
  mkPlatform
    (fun _ => Responds (json_response
       (JObj [("hydra:member",
               JArr [JObj [("domain", JStr "gone.example"); ("isActive", JBool false)]])])))
    (fun i => 1000 * Z.of_nat i)%Z draws.

(** mail.tm lists an active domain, registers the account and grants a
    token. *)
Definition mailtm_server : Platform :=
  mkPlatform
    (fun i =>
       match i with
       | 0%nat => Responds (json_response
           (JObj [("hydra:member",
                   JArr [JObj [("domain", JStr "mail.tm"); ("isActive", JBool true)]])]))
       | 1%nat => Responds (json_response (JObj [("id", JStr "acc-1")]))
       | _ => Responds (json_response (JObj [("token", JStr "jwt-1")]))
       end)
    (fun i => 1000 * Z.of_nat i)%Z draws.

(** mail.tm registers the account and then times out on the token. *)
Definition mailtm_token_timeout : Platform :=
  mkPlatform
    (fun i =>
       match i with
       | 0%nat => Responds (json_response
           (JObj [("hydra:member",
                   JArr [JObj [("domain", JStr "mail.tm"); ("isActive", JBool true)]])]))
       | 1%nat => Responds (json_response (JObj [("id", JStr "acc-1")]))
       | _ => TimesOut
       end)
    (fun i => 1000 * Z.of_nat i)%Z draws.

(** Guerrilla Mail hands out an address and a session token. *)
Definition guerrilla_server : Platform :=
  mkPlatform
    (fun _ => Responds (json_response
       (JObj [("email_addr", JStr "bob@sharklasers.com"); ("sid_token", JStr "sid-1")])))
    (fun i => 1000 * Z.of_nat i)%Z draws.

(** A 1secmail adapter whose domain list was checked at time 0. *)
Definition secmail_cached : SecMailProvider :=
  mkSecMail (JArr [JStr "1secmail.com"; JStr "kzccv.com"]) true 0.

Definition is_string (v : JsVal) : bool :=
  match v with
  | JStr _ => true
  | _ => false
  end.

(** An array of strings, as the domain endpoint of 1secmail answers. *)
Definition string_array (v : JsVal) : bool :=
  match v with
  | JArr items => forallb is_string items
  | _ => false
  end.

(** Every JSON body of a successful response is an array of strings;
    requests may fail, time out, or be answered by an HTTP error or by a
    body that is not JSON. *)
Definition answers_string_arrays (pf : Platform) : Prop :=
  forall i response data,
    net pf i = Responds response -> ok response = true ->
    json response = Ret data -> string_array data = true.

(** 1secmail is down for the first request and lists two domains
    afterwards. *)
Definition secmail_server : Platform :=
  mkPlatform
    (fun i =>
       match i with
       | 0%nat => Responds (mkResponse false 503 JNull)
       | _ => Responds (json_response (JArr [JStr "1secmail.com"; JStr "kzccv.com"]))
       end)
    (fun i => 1000 * Z.of_nat i)%Z draws.

(** 1secmail lists a domain that cannot be converted to a string. *)
Definition secmail_unconvertible : Platform :=
  mkPlatform
    (fun _ => Responds (json_response (JArr [JObj [("toString", JNum 0)]])))
    (fun i => 1000 * Z.of_nat i)%Z draws.

(** * Properties *)

(** ** The address predicate

    The derivative matcher decides the language of the expression, and
    the expression of [isValidEmail] denotes the intended shape. *)

Lemma append_empty_inv (u v : string) :
  (u ++ v)%string = EmptyString -> u = EmptyString /\ v = EmptyString.
Proof. destruct u; simpl; [auto|discriminate]. Qed.

Lemma append_cons_inv (u v : string) c s :
  (u ++ v)%string = String c s ->
  (u = EmptyString /\ v = String c s) \/
  (exists u', u = String c u' /\ s = (u' ++ v)%string).
Proof.
  destruct u as [|a u]; simpl; intros H; [left; auto|].
  injection H as -> <-. right. eauto.
Qed.

Ltac split_append :=
  match goal with
  | H : (_ ++ _)%string = String _ _ |- _ =>
      destruct (append_cons_inv _ _ _ _ H) as [[-> ->]|(? & -> & ->)]
  end.

Lemma nullable_spec r : nullable r = true <-> in_lang r EmptyString.
Proof.
  induction r as [| |p|r IHr s IHs|r IHr s IHs|r IHr]; simpl.
  - split; [discriminate|]. inversion 1.
  - split; [constructor|reflexivity].
  - split; [discriminate|]. inversion 1.
  - rewrite andb_true_iff, IHr, IHs. split.
    + intros [Hr Hs]. apply (in_seq r s EmptyString EmptyString); assumption.
    + inversion 1 as [| |r0 s0 u v Hu Hv| | | |]; subst.
      match goal with H : (_ ++ _)%string = EmptyString |- _ =>
        apply append_empty_inv in H as [-> ->] end. auto.
  - rewrite orb_true_iff, IHr, IHs. split.
    + intros [H|H]; [apply in_alt_l|apply in_alt_r]; exact H.
    + inversion 1; subst; auto.
  - split; [constructor|reflexivity].
Qed.

Lemma star_cons_inv r c s :
  in_lang (Star r) (String c s) ->
  exists u v, s = (u ++ v)%string /\ in_lang r (String c u) /\ in_lang (Star r) v.
Proof.
  remember (Star r) as sr eqn:Hsr. remember (String c s) as cs eqn:Hcs.
  intros H. revert r c s Hsr Hcs.
  induction H as [| | | | | |r0 u v Hu _ Hv IHv]; intros r1 c1 s1 Hsr Hcs;
    try discriminate.
  injection Hsr as ->.
  destruct (append_cons_inv _ _ _ _ Hcs) as [[-> ->]|(u' & -> & ->)].
  - apply (IHv r1 c1 s1 eq_refl eq_refl).
  - exists u', v. auto.
Qed.

Lemma deriv_spec c r : forall s, in_lang (deriv c r) s <-> in_lang r (String c s).
Proof.
  induction r as [| |p|r IHr t IHt|r IHr t IHt|r IHr]; intros s; simpl.
  - split; inversion 1.
  - split; inversion 1.
  - destruct (p c) eqn:Hp; split.
    + inversion 1; subst. constructor. exact Hp.
    + inversion 1; subst. constructor.
    + inversion 1.
    + inversion 1; subst. congruence.
  - destruct (nullable r) eqn:Hn; split.
    + inversion 1 as [| | |r0 s0 u Hu|r0 s0 u Hu| |]; subst.
      * inversion Hu as [| |r1 s1 u1 v1 Hu1 Hv1| | | |]; subst.
        apply (in_seq r t (String c u1) v1); [apply IHr; exact Hu1|exact Hv1].
      * apply (in_seq r t EmptyString (String c s));
          [apply nullable_spec; exact Hn|apply IHt; exact Hu].
    + inversion 1 as [| |r0 s0 u v Hu Hv| | | |]; subst.
      split_append.
      * apply in_alt_r. apply IHt. exact Hv.
      * apply in_alt_l. apply in_seq; [apply IHr; exact Hu|exact Hv].
    + inversion 1 as [| |r0 s0 u v Hu Hv| | | |]; subst.
      apply (in_seq r t (String c u) v); [apply IHr; exact Hu|exact Hv].
    + inversion 1 as [| |r0 s0 u v Hu Hv| | | |]; subst.
      split_append.
      * apply nullable_spec in Hu. congruence.
      * apply in_seq; [apply IHr; exact Hu|exact Hv].
  - split.
    + inversion 1; subst; [apply in_alt_l; apply IHr|apply in_alt_r; apply IHt]; assumption.
    + inversion 1; subst; [apply in_alt_l; apply IHr|apply in_alt_r; apply IHt]; assumption.
  - split.
    + inversion 1 as [| |r0 s0 u v Hu Hv| | | |]; subst.
      apply (in_star_more r (String c u) v); [apply IHr; exact Hu|exact Hv].
    + intros H. destruct (star_cons_inv _ _ _ H) as (u & v & -> & Hu & Hv).
      apply in_seq; [apply IHr; exact Hu|exact Hv].
Qed.

Theorem matches_spec r s : matches r s = true <-> in_lang r s.
Proof.
  revert r. induction s as [|c s IH]; intros r; simpl.
  - apply nullable_spec.
  - rewrite IH. apply deriv_spec.
Qed.

Lemma class_inv p u :
  in_lang (Class p) u <-> exists c, u = String c EmptyString /\ p c = true.
Proof.
  split.
  - inversion 1; subst. eauto.
  - intros (c & -> & Hc). constructor. exact Hc.
Qed.

Lemma seq_inv r s w :
  in_lang (Seq r s) w <-> exists u v, w = (u ++ v)%string /\ in_lang r u /\ in_lang s v.
Proof.
  split.
  - inversion 1; subst. eauto.
  - intros (u & v & -> & Hu & Hv). constructor; assumption.
Qed.

Lemma star_class p u : in_lang (Star (Class p)) u <-> all_chars p u = true.
Proof.
  split.
  - remember (Star (Class p)) as sr eqn:Hsr. intros H. revert Hsr.
    induction H as [| | | | | |r0 u v Hu _ Hv IHv]; intros Hsr; try discriminate.
    + reflexivity.
    + injection Hsr as ->. apply class_inv in Hu as (c & -> & Hc).
      simpl. rewrite Hc. apply IHv. reflexivity.
  - induction u as [|c u IH]; simpl; intros H; [constructor|].
    apply andb_prop in H as [Hc Hu].
    apply (in_star_more (Class p) (String c EmptyString) u); [constructor; exact Hc|auto].
Qed.

Lemma plus_class p u :
  in_lang (Plus (Class p)) u <-> u <> EmptyString /\ all_chars p u = true.
Proof.
  unfold Plus. rewrite seq_inv. split.
  - intros (a & b & -> & Ha & Hb). apply class_inv in Ha as (c & -> & Hc).
    apply star_class in Hb. simpl. rewrite Hc, Hb. split; [discriminate|reflexivity].
  - intros [Hne Hall]. destruct u as [|c u]; [congruence|].
    simpl in Hall. apply andb_prop in Hall as [Hc Hu].
    exists (String c EmptyString), u. split; [reflexivity|].
    split; [constructor; exact Hc|apply star_class; exact Hu].
Qed.

Lemma matches_emailRegex s : matches emailRegex s = true <-> email_shape s.
Proof.
  rewrite matches_spec. unfold emailRegex, email_shape. split.
  - intros H.
    apply seq_inv in H as (loc & r1 & -> & Hloc & H).
    apply seq_inv in H as (at_ & r2 & -> & Hat & H).
    apply seq_inv in H as (dom & r3 & -> & Hdom & H).
    apply seq_inv in H as (dot & r4 & -> & Hdot & H).
    apply seq_inv in H as (l1 & r5 & -> & Hl1 & H).
    apply seq_inv in H as (l2 & l3 & -> & Hl2 & Hl3).
    apply plus_class in Hloc as [Hloc1 Hloc2].
    apply plus_class in Hdom as [Hdom1 Hdom2].
    apply class_inv in Hat as (c1 & -> & Hc1). apply Ascii.eqb_eq in Hc1 as <-.
    apply class_inv in Hdot as (c2 & -> & Hc2). apply Ascii.eqb_eq in Hc2 as <-.
    apply class_inv in Hl1 as (a1 & -> & Ha1).
    apply class_inv in Hl2 as (a2 & -> & Ha2).
    apply star_class in Hl3.
    exists loc, dom, (String a1 (String a2 l3)).
    repeat split; auto.
    + simpl. lia.
    + simpl. rewrite Ha1, Ha2, Hl3. reflexivity.
  - intros (loc & dom & tld & -> & Hloc1 & Hloc2 & Hdom1 & Hdom2 & Hlen & Htld).
    destruct tld as [|a1 [|a2 l3]]; simpl in Hlen; try lia.
    simpl in Htld. apply andb_prop in Htld as [Ha1 Htld].
    apply andb_prop in Htld as [Ha2 Hl3].
    apply (in_seq _ _ loc); [apply plus_class; auto|].
    apply (in_seq _ _ "@"); [constructor; reflexivity|].
    apply (in_seq _ _ dom); [apply plus_class; auto|].
    apply (in_seq _ _ "."); [constructor; reflexivity|].
    apply (in_seq _ _ (String a1 EmptyString)); [constructor; exact Ha1|].
    apply (in_seq _ _ (String a2 EmptyString)); [constructor; exact Ha2|].
    apply star_class. exact Hl3.
Qed.

Lemma isValidEmail_cases email :
  isValidEmail email =
    if stringifies email then Ret (matches emailRegex (js_toString email))
    else Throw conversion_error.
Proof. unfold isValidEmail, to_string. destruct (stringifies email); reflexivity. Qed.

Lemma isValidEmail_shape s : isValidEmail (JStr s) = Ret true <-> email_shape s.
Proof.
  rewrite isValidEmail_cases, <- matches_emailRegex. cbn [stringifies js_toString].
  split; [intros [= H]; exact H|intros ->; reflexivity].
Qed.

(** ** HTTP retry client *)

Section RetryClient.

Variable net : nat -> FetchOutcome.
Variable url : string.

Lemma fetchWithRetry_success k retries response :
  attempt (net k) = Ret response ->
  fetchWithRetry net k url retries = (Ret response, [EvFetch url]).
Proof. intros H. destruct retries; simpl; rewrite H; reflexivity. Qed.


Lemma fetchWithRetry_abort k retries error :
  attempt (net k) = Throw error ->
  name_includes_Abort error = Ret true ->
  fetchWithRetry net k url retries = (Throw error, [EvFetch url]).
Proof.
  intros Ha Hn. destruct retries as [|r]; simpl; rewrite Ha; [reflexivity|].
  rewrite Hn. reflexivity.
Qed.

Lemma fetchWithRetry_retry k r error :
  attempt (net k) = Throw error ->
  name_includes_Abort error = Ret false ->
  fetchWithRetry net k url (S r) =
    (fst (fetchWithRetry net (S k) url r),
     EvFetch url :: EvSleep (retry_delay (S r)) :: snd (fetchWithRetry net (S k) url r)).
Proof.
  intros Ha Hn. cbn [fetchWithRetry]. rewrite Ha, Hn.
  destruct (fetchWithRetry net (S k) url r). reflexivity.
Qed.

Lemma retryable_throws o :
  retryable o = true ->
  exists error, attempt o = Throw error /\ name_includes_Abort error = Ret false.
Proof.
  destruct o as [response|e|]; simpl; intros H.
  - destruct (ok response); [discriminate|].
    eexists; split; [reflexivity|]. reflexivity.
  - exists e. split; [reflexivity|].
    destruct (name_includes_Abort e) as [[|]|]; try discriminate. reflexivity.
  - discriminate.
Qed.

Lemma timeout_is_abort : name_includes_Abort abortError = Ret true.
Proof. reflexivity. Qed.

(** C6, as the code has it. In [fetchWithRetry] a failure whose error
    name contains "Abort" is exempt from retry and propagates at once,
    whatever the number of attempts left; this holds for an explicit abort
    and equally for the [AbortError] the request rejects with when the
    [REQUEST_TIMEOUT] timer aborts it, so a timeout is not retried. A
    connection failure or a non-2xx response, whose error name does not
    contain "Abort", is retried after the backoff sleep while attempts
    remain. *)
Theorem fetchWithRetry_abort_policy k retries :
  (forall error,
      attempt (net k) = Throw error ->
      name_includes_Abort error = Ret true ->
      fetchWithRetry net k url retries = (Throw error, [EvFetch url])) /\
  (net k = TimesOut ->
      fetchWithRetry net k url retries = (Throw abortError, [EvFetch url])) /\
  (forall r,
      retryable (net k) = true ->
      retries = S r ->
      fetchWithRetry net k url retries =
        (fst (fetchWithRetry net (S k) url r),
         EvFetch url :: EvSleep (retry_delay retries)
           :: snd (fetchWithRetry net (S k) url r))).
Proof.
  split; [|split].
  - intros error Ha Hn. apply fetchWithRetry_abort; assumption.
  - intros Ht. apply fetchWithRetry_abort; [rewrite Ht; reflexivity|].
    apply timeout_is_abort.
  - intros r Hr ->.
    destruct (retryable_throws _ Hr) as (error & Ha & Hn).
    eapply fetchWithRetry_retry; eassumption.
Qed.

(** C7. With three retries allowed, a request whose first two attempts
    fail with retryable errors and whose third attempt succeeds returns
    the successful response after exactly two backoff sleeps: 1000 ms
    before the second attempt and 2000 ms before the third. *)
Theorem fetchWithRetry_third_attempt k response :
  retryable (net k) = true ->
  retryable (net (S k)) = true ->
  net (S (S k)) = Responds response ->
  ok response = true ->
  fetchWithRetry net k url (Z.to_nat CONFIG.MAX_RETRIES) =
    (Ret response,
     [EvFetch url; EvSleep 1000; EvFetch url; EvSleep 2000; EvFetch url]) /\
  sleeps (fetchWithRetry net k url (Z.to_nat CONFIG.MAX_RETRIES)).2 = [1000%Q; 2000%Q].
Proof.
  intros H1 H2 H3 Hok.
  destruct (retryable_throws _ H1) as (e1 & Ha1 & Hn1).
  destruct (retryable_throws _ H2) as (e2 & Ha2 & Hn2).
  assert (Hrun : fetchWithRetry net k url (Z.to_nat CONFIG.MAX_RETRIES) =
    (Ret response,
     [EvFetch url; EvSleep 1000; EvFetch url; EvSleep 2000; EvFetch url])).
  { change (Z.to_nat CONFIG.MAX_RETRIES) with 3%nat.
    rewrite (fetchWithRetry_retry k 2 e1 Ha1 Hn1).
    rewrite (fetchWithRetry_retry (S k) 1 e2 Ha2 Hn2).
    rewrite (fetchWithRetry_success (S (S k)) 1 response)
      by (rewrite H3; simpl; rewrite Hok; reflexivity).
    reflexivity. }
  split; [exact Hrun|]. rewrite Hrun. reflexivity.
Qed.

End RetryClient.

Lemma fetchWithRetry_abort_policy_witness :
  fetchWithRetry net_timeout_then_ok 0 "https://api.mail.tm/domains" 3 =
    (Throw abortError, [EvFetch "https://api.mail.tm/domains"]) /\
  fetchWithRetry net_two_failures 0 "https://api.mail.tm/domains" 3 =
    ((fetchWithRetry net_two_failures 1 "https://api.mail.tm/domains" 2).1,
     EvFetch "https://api.mail.tm/domains" :: EvSleep (retry_delay 3)
       :: (fetchWithRetry net_two_failures 1 "https://api.mail.tm/domains" 2).2).
Proof.
  split.
  - exact (proj1 (proj2 (fetchWithRetry_abort_policy net_timeout_then_ok
                           "https://api.mail.tm/domains" 0 3)) eq_refl).
  - exact (proj2 (proj2 (fetchWithRetry_abort_policy net_two_failures
                           "https://api.mail.tm/domains" 0 3)) 2%nat eq_refl eq_refl).
Defined.

(** C6 fails as stated: the first request runs into the timeout with
    three retries left and a server that would answer the next request;
    the abort error propagates at once, without a sleep or a second
    request. *)
Lemma timeout_is_not_retried :
  let run := fetchWithRetry net_timeout_then_ok 0 "https://api.mail.tm/domains" 3 in
  run.1 = Throw abortError /\ requests run.2 = 1%nat /\ sleeps run.2 = [].
Proof. vm_compute. repeat split. Qed.

Lemma fetchWithRetry_third_attempt_witness :
  fetchWithRetry net_two_failures 0 "https://api.mail.tm/domains" 3 =
    (Ret okResponse,
     [EvFetch "https://api.mail.tm/domains"; EvSleep 1000;
      EvFetch "https://api.mail.tm/domains"; EvSleep 2000;
      EvFetch "https://api.mail.tm/domains"]) /\
  sleeps (fetchWithRetry net_two_failures 0 "https://api.mail.tm/domains" 3).2 =
    [1000%Q; 2000%Q].
Proof.
  exact (fetchWithRetry_third_attempt net_two_failures "https://api.mail.tm/domains"
           0 okResponse eq_refl eq_refl eq_refl eq_refl).
Defined.


(** ** Mailbox creation *)

Ltac orch :=
  unfold mbind, mret, orch_mbind, orch_mret, orch_bind, orch_ret,
    res_mbind, res_mret, try_catch, this, update, lift, await,
    date_now, math_random in *.

Lemma get_truthy v k : truthy v = true -> get v k = Ret (field v k).
Proof. destruct v; simpl; intros H; try discriminate; reflexivity. Qed.

Lemma get_present v k : nullish v = false -> get v k = Ret (field v k).
Proof. destruct v; simpl; intros H; try discriminate; reflexivity. Qed.

(** The acceptance test throws or returns. *)
Lemma accepts_spec result :
  accepts result =
    if test_throws result then Throw conversion_error else Ret (valid_result result).
Proof.
  unfold accepts, valid_result, test_throws.
  destruct (truthy result) eqn:Ht; [|reflexivity].
  orch. rewrite (get_truthy _ _ Ht). cbn [res_bind andb].
  destruct (truthy (field result "email")); [|reflexivity].
  cbn [andb]. rewrite isValidEmail_cases.
  destruct (stringifies (field result "email")); reflexivity.
Qed.

Lemma valid_result_truthy result : valid_result result = true -> truthy result = true.
Proof.
  unfold valid_result. intros H.
  apply andb_prop in H as [H _]. apply andb_prop in H as [H _]. exact H.
Qed.

Lemma valid_result_stringifies result :
  valid_result result = true -> stringifies (field result "email") = true.
Proof.
  unfold valid_result. intros H. apply andb_prop in H as [_ H].
  rewrite isValidEmail_cases in H.
  destruct (stringifies (field result "email")); [reflexivity|discriminate].
Qed.

Lemma valid_result_test result : valid_result result = true -> test_throws result = false.
Proof.
  intros H. unfold test_throws. rewrite (valid_result_stringifies _ H).
  apply andb_false_r.
Qed.

Lemma probes_reject_objects_spec w :
  probes_reject_objects w = true ->
  forall p, rejects_nullish (reply w (CheckHealth p)) = false.
Proof.
  unfold probes_reject_objects, providerOrder. cbn [forallb].
  rewrite !andb_true_iff, !negb_true_iff. intros (H1 & H2 & H3 & _) [| |]; assumption.
Qed.

Lemma creations_reject_objects_spec w :
  creations_reject_objects w = true ->
  forall p, rejects_nullish (reply w (CreateEmail p)) = false.
Proof.
  unfold creations_reject_objects, providerOrder. cbn [forallb].
  rewrite !andb_true_iff, !negb_true_iff. intros (H1 & H2 & H3 & _) [| |]; assumption.
Qed.

Lemma error_objects_spec w :
  error_objects w = true ->
  probes_reject_objects w = true /\ creations_reject_objects w = true.
Proof. unfold error_objects. apply andb_prop. Qed.

Lemma createEmail_fallback_spec w st :
  createEmail_fallback w st =
    (Ret (JStr (synthetic_login w ++ "@1secmail.com")), synthesize w st, []).
Proof. reflexivity. Qed.

(** One round of the walk, in every world. A provider that rejects
    with [undefined] or [null] makes the [catch] block itself throw, at
    [error.message], and that [TypeError] leaves [createEmail]; any
    other thrown value, and a throw of the acceptance test, is counted
    and the walk goes on. *)
Lemma createEmail_loop_step provider rest w st :
  createEmail_loop (provider :: rest) w st =
    match reply w (CreateEmail provider) with
    | Raises e =>
        match get e "message" with
        | Throw error => (Throw error, st, [CreateEmail provider])
        | Ret _ =>
            prepend (CreateEmail provider)
              (createEmail_loop rest w (bump_providerSwitches st))
        end
    | Returns result =>
        if valid_result result
        then (Ret (field result "email"), adopt provider result st, [CreateEmail provider])
        else prepend (CreateEmail provider)
               (createEmail_loop rest w
                  (if test_throws result then bump_providerSwitches st else st))
    end.
Proof.
  cbn [createEmail_loop]. orch.
  destruct (reply w (CreateEmail provider)) as [result|e].
  - rewrite accepts_spec. destruct (valid_result result) eqn:Hv.
    + pose proof (valid_result_truthy _ Hv) as Ht.
      rewrite (valid_result_test _ Hv), !(get_truthy _ _ Ht).
      cbn [email set_email set_login set_domain set_messages set_messageCache
             bump_emailsCreated set_stats set_currentProvider].
      unfold to_string. rewrite (valid_result_stringifies _ Hv). reflexivity.
    + destruct (test_throws result); simpl.
      * destruct (createEmail_loop rest w (bump_providerSwitches st)) as [[r st'] cs].
        reflexivity.
      * destruct (createEmail_loop rest w st) as [[r st'] cs]. reflexivity.
  - simpl. destruct (get e "message") as [m|error]; [|reflexivity].
    destruct (createEmail_loop rest w (bump_providerSwitches st)) as [[r st'] cs].
    reflexivity.
Qed.

(** The same with providers that throw error objects. *)
Lemma createEmail_loop_step_objects provider rest w st :
  rejects_nullish (reply w (CreateEmail provider)) = false ->
  createEmail_loop (provider :: rest) w st =
    match reply w (CreateEmail provider) with
    | Raises _ =>
        prepend (CreateEmail provider)
          (createEmail_loop rest w (bump_providerSwitches st))
    | Returns result =>
        if valid_result result
        then (Ret (field result "email"), adopt provider result st, [CreateEmail provider])
        else prepend (CreateEmail provider)
               (createEmail_loop rest w
                  (if test_throws result then bump_providerSwitches st else st))
    end.
Proof.
  intros Hobj. rewrite createEmail_loop_step.
  destruct (reply w (CreateEmail provider)) as [result|e]; [reflexivity|].
  cbn [rejects_nullish] in Hobj. rewrite (get_present _ _ Hobj). reflexivity.
Qed.

(** A provider that rejects with [undefined] or [null] ends the walk:
    [createEmail] throws the [TypeError] of its own [catch] block, with
    no switch counted and the later providers not called. *)
Lemma createEmail_loop_nullish_rejection provider rest w st e :
  reply w (CreateEmail provider) = Raises e ->
  nullish e = true ->
  exists error,
    createEmail_loop (provider :: rest) w st = (Throw error, st, [CreateEmail provider]).
Proof.
  intros Hr He. rewrite createEmail_loop_step, Hr.
  destruct e; try discriminate; eexists; reflexivity.
Qed.

Lemma set_currentProvider_same st : set_currentProvider (currentProvider st) st = st.
Proof. destruct st; reflexivity. Qed.

(** One round of the probing, in every world: a health check that
    rejects with [undefined] or [null] makes the [catch] block throw at
    [error.message]. *)
Lemma initialize_loop_step provider rest w st :
  initialize_loop (provider :: rest) w st =
    match reply w (CheckHealth provider) with
    | Returns isHealthy =>
        if truthy isHealthy
        then (Ret tt, set_currentProvider (Some provider) st, [CheckHealth provider])
        else prepend (CheckHealth provider) (initialize_loop rest w st)
    | Raises e =>
        match get e "message" with
        | Throw error => (Throw error, st, [CheckHealth provider])
        | Ret _ => prepend (CheckHealth provider) (initialize_loop rest w st)
        end
    end.
Proof.
  cbn [initialize_loop]. orch.
  destruct (reply w (CheckHealth provider)) as [isHealthy|e].
  - destruct (truthy isHealthy); [reflexivity|]. simpl.
    destruct (initialize_loop rest w st) as [[r st'] cs]. destruct r; reflexivity.
  - simpl. destruct (get e "message") as [m|error]; [|reflexivity]. simpl.
    destruct (initialize_loop rest w st) as [[r st'] cs]. destruct r; reflexivity.
Qed.

(** In every world the probing touches nothing but the pinned provider
    and calls nothing but health checks. *)
Lemma initialize_loop_frame order w st :
  exists r q calls,
    initialize_loop order w st = (r, set_currentProvider q st, calls) /\
    forallb is_health_check calls = true.
Proof.
  induction order as [|provider rest IH].
  - exists (Ret tt), (currentProvider st), []. rewrite set_currentProvider_same. auto.
  - rewrite initialize_loop_step.
    destruct IH as (r & q & calls & Hloop & Hcalls).
    destruct (reply w (CheckHealth provider)) as [isHealthy|e].
    + destruct (truthy isHealthy).
      * exists (Ret tt), (Some provider), [CheckHealth provider]. auto.
      * rewrite Hloop. exists r, q, (CheckHealth provider :: calls). auto.
    + destruct (get e "message") as [m|error].
      * rewrite Hloop. exists r, q, (CheckHealth provider :: calls). auto.
      * exists (Throw error), (currentProvider st), [CheckHealth provider].
        rewrite set_currentProvider_same. auto.
Qed.

Lemma initialize_loop_spec order w st :
  probes_reject_objects w = true ->
  exists q calls,
    initialize_loop order w st = (Ret tt, set_currentProvider q st, calls) /\
    forallb is_health_check calls = true /\
    (is_provider st = true -> is_provider (set_currentProvider q st) = true).
Proof.
  intros Hobj. pose proof (probes_reject_objects_spec w Hobj) as Hp.
  induction order as [|provider rest IH].
  - exists (currentProvider st), []. rewrite set_currentProvider_same. auto.
  - rewrite initialize_loop_step. specialize (Hp provider).
    destruct IH as (q & calls & Hloop & Hcalls & Hprov).
    destruct (reply w (CheckHealth provider)) as [isHealthy|e].
    + destruct (truthy isHealthy).
      * exists (Some provider), [CheckHealth provider]. auto.
      * rewrite Hloop. exists q, (CheckHealth provider :: calls). auto.
    + cbn [rejects_nullish] in Hp. rewrite (get_present _ _ Hp), Hloop.
      exists q, (CheckHealth provider :: calls). auto.
Qed.

Lemma initialize_spec w st :
  probes_reject_objects w = true ->
  exists provider calls,
    initialize w st =
      (Ret (Some provider), set_currentProvider (Some provider) st, calls) /\
    forallb is_health_check calls = true.
Proof.
  intros Hobj.
  destruct (initialize_loop_spec providerOrder w st Hobj) as (q & calls & Hloop & Hcalls & _).
  unfold initialize. orch. rewrite Hloop.
  destruct q as [provider|]; simpl.
  - exists provider, (calls ++ []). rewrite app_nil_r. auto.
  - exists secmail, (calls ++ []). rewrite app_nil_r. auto.
Qed.

(** In every world [initialize] touches nothing but the pinned
    provider. *)
Lemma initialize_frame w st :
  exists r q calls, initialize w st = (r, set_currentProvider q st, calls).
Proof.
  destruct (initialize_loop_frame providerOrder w st) as (r & q & calls & Hloop & _).
  unfold initialize. orch. rewrite Hloop.
  destruct r as [[]|error]; [|eauto].
  destruct q as [provider|]; simpl; eauto.
Qed.

(** [createEmail] is the priority walk, run on the manager as it is or,
    when no provider was pinned, after the health probes of [initialize],
    which touch nothing but the pinned provider. *)
Lemma createEmail_spec w st :
  probes_reject_objects w = true ->
  exists q probes,
    createEmail w st =
      (let '(r, st', calls) :=
         createEmail_loop providerOrder w (set_currentProvider q st) in
       (r, st', probes ++ calls)) /\
    forallb is_health_check probes = true /\
    (is_provider st = true -> probes = []).
Proof.
  intros Hobj. unfold createEmail. orch. unfold is_provider.
  destruct (currentProvider st) as [p|] eqn:Hp.
  - exists (Some p), []. rewrite <- Hp, set_currentProvider_same.
    destruct (createEmail_loop providerOrder w st) as [[r st'] calls]. auto.
  - destruct (initialize_spec w st Hobj) as (provider & probes & Hinit & Hprobes).
    rewrite Hinit. exists (Some provider), probes.
    destruct (createEmail_loop providerOrder w _) as [[r st'] calls].
    split; [|split]; auto. discriminate.
Qed.

(** In every world, [createEmail] either throws out of [initialize],
    having touched nothing but the pinned provider, or runs the walk. *)
Lemma createEmail_frame w st :
  exists q,
    (exists error calls, createEmail w st = (Throw error, set_currentProvider q st, calls)) \/
    (exists probes,
        createEmail w st =
          (let '(r, st', calls) :=
             createEmail_loop providerOrder w (set_currentProvider q st) in
           (r, st', probes ++ calls))).
Proof.
  unfold createEmail. orch. unfold is_provider.
  destruct (currentProvider st) as [p|] eqn:Hp.
  - exists (Some p). right. exists []. rewrite <- Hp, set_currentProvider_same.
    destruct (createEmail_loop providerOrder w st) as [[r st'] calls]. reflexivity.
  - destruct (initialize_frame w st) as (r & q & calls & Hinit). rewrite Hinit.
    exists q. destruct r as [a|error]; [right|left; eauto].
    exists calls. destruct (createEmail_loop providerOrder w _) as [[r st'] cs]. reflexivity.
Qed.

(** *** The login generator *)

Lemma string_length_append (a b : string) :
  String.length (a ++ b) = (String.length a + String.length b)%nat.
Proof. induction a as [|c a IH]; simpl; [reflexivity|]. rewrite IH. reflexivity. Qed.

Lemma get_in_range (s : string) (n : nat) :
  (n < String.length s)%nat -> exists c, String.get n s = Some c.
Proof.
  revert n. induction s as [|c s IH]; simpl; intros n Hn; [lia|].
  destruct n as [|n]; [eauto|]. apply IH. lia.
Qed.

Lemma pick_one_char (s : string) (r : nat) :
  s <> EmptyString ->
  exists c, pick s r = String c EmptyString /\
            String.get (r mod String.length s) s = Some c.
Proof.
  intros Hs. unfold pick.
  destruct (get_in_range s (r mod String.length s)) as [c Hc].
  - apply Nat.mod_upper_bound. destruct s; [congruence|simpl; lia].
  - rewrite Hc. eauto.
Qed.

Lemma letters_are_alpha (i : nat) (c : ascii) :
  String.get i letters = Some c -> is_alpha c = true.
Proof.
  unfold letters.
  do 26 (destruct i as [|i]; [intros [= <-]; reflexivity|]).
  simpl. discriminate.
Qed.

Lemma generate_rest_spec chars rnd rounds :
  chars <> EmptyString ->
  forall i result,
  exists suffix,
    generate_rest chars rnd i rounds result = (result ++ suffix)%string /\
    String.length suffix = rounds.
Proof.
  intros Hc. induction rounds as [|rounds IH]; intros i result; simpl.
  - exists EmptyString. split; [|reflexivity].
    clear. induction result as [|c r IHr]; simpl; congruence.
  - destruct (IH (S i) (result ++ pick chars (rnd i))%string) as (suffix & Heq & Hlen).
    destruct (pick_one_char chars (rnd i) Hc) as (c & Hpick & _).
    exists (pick chars (rnd i) ++ suffix)%string. split.
    + rewrite Heq. clear. induction result as [|a r IHr]; simpl; congruence.
    + rewrite string_length_append, Hpick, Hlen. reflexivity.
Qed.

(** A generated string has [max 1 length] characters and starts with a
    letter. *)
Lemma generateRandomString_shape length includeNumbers rnd :
  exists c rest,
    generateRandomString length includeNumbers rnd = String c rest /\
    is_alpha c = true /\
    String.length (String c rest) = Nat.max 1 length.
Proof.
  unfold generateRandomString.
  destruct (pick_one_char letters (rnd 0%nat)) as (c & Hpick & Hget);
    [discriminate|].
  set (chars := if includeNumbers then (letters ++ numbers)%string else letters).
  assert (Hchars : chars <> EmptyString) by (subst chars; destruct includeNumbers; discriminate).
  destruct (generate_rest_spec chars rnd (length - 1) Hchars 1%nat
              (EmptyString ++ pick letters (rnd 0%nat))%string)
    as (suffix & Heq & Hlen).
  rewrite Heq, Hpick. simpl. exists c, suffix.
  split; [reflexivity|]. split; [eapply letters_are_alpha; eauto|].
  rewrite Hlen. lia.
Qed.

Lemma all_chars_append p (a b : string) :
  all_chars p (a ++ b) = all_chars p a && all_chars p b.
Proof.
  induction a as [|c a IH]; simpl; [reflexivity|].
  rewrite IH, andb_assoc. reflexivity.
Qed.

Lemma all_chars_weaken (p q : ascii -> bool) s :
  (forall c, p c = true -> q c = true) ->
  all_chars p s = true -> all_chars q s = true.
Proof.
  intros Hpq. induction s as [|c s IH]; simpl; [reflexivity|].
  intros H. apply andb_prop in H as [Hc Hs]. rewrite (Hpq _ Hc), (IH Hs). reflexivity.
Qed.

Lemma alphabet_is_alnum (i : nat) (c : ascii) :
  String.get i (letters ++ numbers) = Some c -> is_alpha c || is_digit c = true.
Proof.
  unfold letters, numbers.
  do 36 (destruct i as [|i]; [intros [= <-]; reflexivity|]).
  simpl. discriminate.
Qed.

Lemma pick_alnum chars r :
  chars = (letters ++ numbers)%string \/ chars = letters ->
  all_chars (fun c => is_alpha c || is_digit c) (pick chars r) = true.
Proof.
  intros Hchars.
  assert (Hne : chars <> EmptyString) by (destruct Hchars as [-> | ->]; discriminate).
  destruct (pick_one_char chars r Hne) as (c & -> & Hget). simpl.
  rewrite andb_true_r. destruct Hchars as [-> | ->].
  - eapply alphabet_is_alnum; eauto.
  - rewrite (letters_are_alpha _ _ Hget). reflexivity.
Qed.

Lemma generate_rest_chars p chars rnd rounds :
  (forall r, all_chars p (pick chars r) = true) ->
  forall i result,
    all_chars p result = true ->
    all_chars p (generate_rest chars rnd i rounds result) = true.
Proof.
  intros Hpick. induction rounds as [|rounds IH]; intros i result Hres; simpl; [exact Hres|].
  apply IH. rewrite all_chars_append, Hres, Hpick. reflexivity.
Qed.

(** A generated string consists of letters and digits. *)
Lemma generateRandomString_alnum length includeNumbers rnd :
  all_chars (fun c => is_alpha c || is_digit c)
    (generateRandomString length includeNumbers rnd) = true.
Proof.
  unfold generateRandomString. apply generate_rest_chars.
  - intros r. apply pick_alnum. destruct includeNumbers; auto.
  - apply (pick_alnum letters). auto.
Qed.

(** The local address of the fallback passes [isValidEmail]. *)
Lemma synthetic_address_valid w :
  isValidEmail (JStr (synthetic_login w ++ "@1secmail.com")) = Ret true.
Proof.
  apply isValidEmail_shape.
  destruct (generateRandomString_shape 12 true (random w)) as (c & rest & Hgen & _ & _).
  exists (synthetic_login w), "1secmail", "com".
  split; [reflexivity|].
  split; [unfold synthetic_login; rewrite Hgen; discriminate|].
  split; [|repeat split; try discriminate; simpl; lia].
  apply (all_chars_weaken (fun c => is_alpha c || is_digit c)).
  - intros a Ha. unfold local_class. rewrite Ha. reflexivity.
  - apply generateRandomString_alnum.
Qed.

(** *** The priority walk *)

Lemma add_switches_0 st : add_switches 0 st = st.
Proof.
  destruct st as [? ? ? ? ? ? ? ? [? ? ?]]. unfold add_switches, set_stats; simpl.
  rewrite Z.add_0_r. reflexivity.
Qed.

Lemma bump_add_switches n st :
  add_switches n (bump_providerSwitches st) = add_switches (1 + n) st.
Proof.
  unfold add_switches, bump_providerSwitches, set_stats; simpl.
  rewrite <- Z.add_assoc. reflexivity.
Qed.

(** When every provider of the walk fails, the walk ends in the local
    fallback, having called each provider once and nothing else. *)
Lemma createEmail_loop_all_fail w order :
  creations_reject_objects w = true ->
  (forall p, In p order -> create_fails (reply w (CreateEmail p)) = true) ->
  forall st,
  exists n,
    createEmail_loop order w st =
      (Ret (JStr (synthetic_login w ++ "@1secmail.com")),
       synthesize w (add_switches n st),
       List.map CreateEmail order).
Proof.
  intros Hobj. pose proof (creations_reject_objects_spec w Hobj) as Hall.
  induction order as [|p rest IH]; intros Hfail st.
  - exists 0%Z. rewrite add_switches_0. apply createEmail_fallback_spec.
  - rewrite (createEmail_loop_step_objects _ _ _ _ (Hall p)).
    pose proof (Hfail p (or_introl eq_refl)) as Hp.
    assert (Hrest : forall q, In q rest -> create_fails (reply w (CreateEmail q)) = true)
      by (intros q Hq; apply Hfail; right; exact Hq).
    destruct (reply w (CreateEmail p)) as [result|e]; simpl in Hp.
    + apply negb_true_iff in Hp. rewrite Hp.
      destruct (test_throws result).
      * destruct (IH Hrest (bump_providerSwitches st)) as [n Hn]. rewrite Hn.
        exists (1 + n)%Z. rewrite bump_add_switches. reflexivity.
      * destruct (IH Hrest st) as [n Hn]. rewrite Hn. exists n. reflexivity.
    + destruct (IH Hrest (bump_providerSwitches st)) as [n Hn]. rewrite Hn.
      exists (1 + n)%Z. rewrite bump_add_switches. reflexivity.
Qed.

(** C2. If 1secmail and then mail.tm fail by throwing and Guerrilla Mail
    returns a result with a valid address, [createEmail] returns that
    address, pins Guerrilla Mail and leaves [stats.providerSwitches]
    exactly 2 higher than before. What the providers throw are error
    objects: a rejection with [undefined] or [null] would make the
    [catch] block throw at [error.message]. *)
Theorem createEmail_pins_third_provider w st e1 e2 result :
  error_objects w = true ->
  reply w (CreateEmail secmail) = Raises e1 ->
  reply w (CreateEmail mailtm) = Raises e2 ->
  reply w (CreateEmail guerrilla) = Returns result ->
  valid_result result = true ->
  exists st' calls,
    createEmail w st = (Ret (field result "email"), st', calls) /\
    currentProvider st' = Some guerrilla /\
    email st' = field result "email" /\
    providerSwitches (stats st') = (providerSwitches (stats st) + 2)%Z.
Proof.
  intros Hobj H1 H2 H3 Hv.
  destruct (error_objects_spec w Hobj) as [Hprobes Hcreations].
  pose proof (creations_reject_objects_spec w Hcreations) as Hall.
  destruct (createEmail_spec w st Hprobes) as (q & probes & Hc & _ & _).
  rewrite Hc. unfold providerOrder.
  rewrite (createEmail_loop_step_objects _ _ _ _ (Hall secmail)), H1.
  rewrite (createEmail_loop_step_objects _ _ _ _ (Hall mailtm)), H2.
  rewrite (createEmail_loop_step_objects _ _ _ _ (Hall guerrilla)), H3, Hv.
  simpl. do 2 eexists. split; [reflexivity|]. simpl.
  repeat split. lia.
Qed.

Lemma createEmail_pins_third_provider_witness :
  exists st' calls,
    createEmail world_guerrilla_only newManager =
      (Ret (JStr "bob@sharklasers.com"), st', calls) /\
    currentProvider st' = Some guerrilla /\
    email st' = JStr "bob@sharklasers.com" /\
    providerSwitches (stats st') = 2%Z.
Proof.
  exact (createEmail_pins_third_provider world_guerrilla_only newManager
           down down (mailbox "bob" "sharklasers.com")
           eq_refl eq_refl eq_refl eq_refl eq_refl).
Defined.

(** C3, as the code has it. In the priority walk of [createEmail] every
    adapter failure makes the walk go on with the adapters that follow
    (the local fallback when none is left); a failure by a thrown error
    (the adapter rejects with an error object, or the acceptance test
    throws because the address cannot be converted to a string) adds one
    to [stats.providerSwitches], while a returned result that is not
    accepted (falsy, without address, or with an address rejected by
    [isValidEmail]) leaves the counter as it was. *)
Theorem createEmail_failure_falls_back provider rest w st :
  create_fails (reply w (CreateEmail provider)) = true ->
  rejects_nullish (reply w (CreateEmail provider)) = false ->
  let counted :=
    match reply w (CreateEmail provider) with
    | Raises _ => 1%Z
    | Returns result => if test_throws result then 1%Z else 0%Z
    end in
  createEmail_loop (provider :: rest) w st =
    prepend (CreateEmail provider)
      (createEmail_loop rest w (add_switches counted st)) /\
  providerSwitches (stats (add_switches counted st)) =
    (providerSwitches (stats st) + counted)%Z.
Proof.
  intros Hfail Hobj counted. subst counted. split; [|reflexivity].
  rewrite (createEmail_loop_step_objects _ _ _ _ Hobj).
  destruct (reply w (CreateEmail provider)) as [result|e]; simpl in Hfail.
  - apply negb_true_iff in Hfail. rewrite Hfail.
    destruct (test_throws result).
    + rewrite <- (add_switches_0 (bump_providerSwitches st)), bump_add_switches.
      reflexivity.
    + rewrite add_switches_0. reflexivity.
  - rewrite <- (add_switches_0 (bump_providerSwitches st)), bump_add_switches.
    reflexivity.
Qed.

Lemma createEmail_failure_falls_back_witness :
  createEmail_loop [secmail; mailtm] world_invalid_then_ok pinned_manager =
    prepend (CreateEmail secmail)
      (createEmail_loop [mailtm] world_invalid_then_ok (add_switches 0 pinned_manager)) /\
  providerSwitches (stats (add_switches 0 pinned_manager)) = 0%Z.
Proof.
  exact (createEmail_failure_falls_back secmail [mailtm] world_invalid_then_ok
           pinned_manager eq_refl eq_refl).
Defined.

(** C3 fails as stated: 1secmail returns the address "nobody", which
    [isValidEmail] rejects; the walk falls back to mail.tm, and the
    provider-switch counter is not incremented. *)
Lemma invalid_address_is_not_counted :
  isValidEmail (JStr "nobody") = Ret false /\
  let '(r, st', calls) := createEmail world_invalid_then_ok pinned_manager in
  r = Ret (JStr "carol@mail.tm") /\
  calls = [CreateEmail secmail; CreateEmail mailtm] /\
  providerSwitches (stats pinned_manager) = 0%Z /\
  providerSwitches (stats st') = 0%Z.
Proof. vm_compute. repeat split. Qed.

(** C4. If the [createEmail] attempts of all three providers fail,
    [createEmail] does not throw: it returns a local address
    [login@1secmail.com] whose login has 12 characters and starts with a
    letter; no provider is called after the three attempts; 1secmail is
    pinned and [isReady] holds afterwards. What the providers throw are
    error objects. *)
Theorem createEmail_all_providers_fail w st :
  error_objects w = true ->
  (forall p, create_fails (reply w (CreateEmail p)) = true) ->
  exists login st' probes,
    createEmail w st =
      (Ret (JStr (login ++ "@1secmail.com")), st',
       probes ++ [CreateEmail secmail; CreateEmail mailtm; CreateEmail guerrilla]) /\
    forallb is_health_check probes = true /\
    (is_provider st = true -> probes = []) /\
    String.length login = 12%nat /\
    (exists c rest, login = String c rest /\ is_alpha c = true) /\
    currentProvider st' = Some secmail /\
    email st' = JStr (login ++ "@1secmail.com") /\
    isReady st' = true.
Proof.
  intros Hobj Hfail.
  destruct (error_objects_spec w Hobj) as [Hchecks Hcreations].
  destruct (createEmail_spec w st Hchecks) as (q & probes & Hc & Hprobes & Hnone).
  destruct (createEmail_loop_all_fail w providerOrder Hcreations (fun p _ => Hfail p)
              (set_currentProvider q st)) as [n Hloop].
  rewrite Hloop in Hc.
  destruct (generateRandomString_shape 12 true (random w)) as (c & rest & Hgen & Halpha & Hlen).
  fold (synthetic_login w) in Hgen.
  exists (synthetic_login w), (synthesize w (add_switches n (set_currentProvider q st))), probes.
  split; [exact Hc|]. split; [exact Hprobes|]. split; [exact Hnone|].
  split; [rewrite Hgen; exact Hlen|].
  split; [exists c, rest; auto|].
  split; [reflexivity|]. split; [reflexivity|].
  unfold isReady, synthesize. simpl. rewrite Hgen. reflexivity.
Qed.

Lemma createEmail_all_providers_fail_witness :
  exists login st' probes,
    createEmail (world_all_down 5000) newManager =
      (Ret (JStr (login ++ "@1secmail.com")), st',
       probes ++ [CreateEmail secmail; CreateEmail mailtm; CreateEmail guerrilla]) /\
    forallb is_health_check probes = true /\
    (is_provider newManager = true -> probes = []) /\
    String.length login = 12%nat /\
    (exists c rest, login = String c rest /\ is_alpha c = true) /\
    currentProvider st' = Some secmail /\
    email st' = JStr (login ++ "@1secmail.com") /\
    isReady st' = true.
Proof.
  exact (createEmail_all_providers_fail (world_all_down 5000) newManager
           eq_refl (fun _ => eq_refl)).
Defined.

(** ** Message listing *)

Lemma by_name_spec st provider on_secmail on_other none :
  currentProvider st = Some provider ->
  by_name st on_secmail on_other none =
    match provider with
    | secmail => on_secmail secmail
    | _ => on_other provider
    end.
Proof. intros H. unfold by_name. rewrite H. destruct provider; reflexivity. Qed.

(** Within the window: the stored sequence, no call, no change. *)
Lemma getMessages_within_window w st :
  (now w - lastRefresh st < CONFIG.CACHE_DURATION)%Z ->
  getMessages w st = (Ret (messages st), st, []).
Proof.
  intros H. unfold getMessages. orch.
  destruct (Z.ltb_spec (now w - lastRefresh st) CONFIG.CACHE_DURATION); [reflexivity|lia].
Qed.

(** Past the window with a mailbox: one listing call, whose failure (or a
    failure of the normalizer) is answered with the stored sequence. *)
Lemma getMessages_past_window w st provider :
  (CONFIG.CACHE_DURATION <= now w - lastRefresh st)%Z ->
  currentProvider st = Some provider ->
  truthy (login st) = true ->
  truthy (domain st) = true ->
  getMessages w st =
    match reply w (listing_call provider st) with
    | Returns raw =>
        match normalizeMessages raw with
        | Ret normalized =>
            (Ret normalized,
             set_messages normalized (set_lastRefresh (now w) st),
             [listing_call provider st])
        | Throw _ =>
            (Ret (messages st), set_lastRefresh (now w) st, [listing_call provider st])
        end
    | Raises _ =>
        (Ret (messages st), set_lastRefresh (now w) st, [listing_call provider st])
    end.
Proof.
  intros Ht Hp Hl Hd. unfold getMessages. orch.
  destruct (Z.ltb_spec (now w - lastRefresh st) CONFIG.CACHE_DURATION); [lia|].
  unfold is_provider. simpl. rewrite Hp, Hl, Hd. simpl.
  rewrite (by_name_spec _ provider) by (simpl; exact Hp).
  destruct provider; simpl;
    match goal with
    | |- context [reply w ?c] => destruct (reply w c) as [raw|e]
    end;
    try reflexivity;
    destruct (normalizeMessages raw); reflexivity.
Qed.

(** Past the window without a mailbox: the empty sequence, no call. *)
Lemma getMessages_unprovisioned w st :
  (CONFIG.CACHE_DURATION <= now w - lastRefresh st)%Z ->
  provisioned st = false ->
  getMessages w st = (Ret [], set_lastRefresh (now w) st, []).
Proof.
  intros Ht Hp. unfold getMessages. orch.
  destruct (Z.ltb_spec (now w - lastRefresh st) CONFIG.CACHE_DURATION); [lia|].
  unfold provisioned, is_provider in *. simpl.
  destruct (currentProvider st), (truthy (login st)), (truthy (domain st));
    simpl in *; try discriminate; reflexivity.
Qed.

Lemma provisioned_inv st :
  provisioned st = true ->
  exists provider,
    currentProvider st = Some provider /\
    truthy (login st) = true /\ truthy (domain st) = true.
Proof.
  unfold provisioned, is_provider. intros H.
  apply andb_prop in H as [H Hd]. apply andb_prop in H as [H Hl].
  destruct (currentProvider st) as [provider|]; [|discriminate].
  exists provider. auto.
Qed.

(** C5. [getMessages] never throws; and whenever the listing call it
    dispatched to the pinned provider throws, it returns the stored
    summary sequence [this.messages], which it leaves unchanged. *)
Theorem getMessages_never_throws w st :
  (exists summaries, (getMessages w st).1.1 = Ret summaries) /\
  (forall c e,
      In c (getMessages w st).2 ->
      reply w c = Raises e ->
      (getMessages w st).1.1 = Ret (messages st) /\
      messages (getMessages w st).1.2 = messages st).
Proof.
  destruct (Z.lt_ge_cases (now w - lastRefresh st) CONFIG.CACHE_DURATION) as [Hin|Hout].
  - rewrite (getMessages_within_window _ _ Hin). simpl.
    split; [eauto|]. intros c e [].
  - destruct (provisioned st) eqn:Hp.
    + destruct (provisioned_inv _ Hp) as (provider & Hprov & Hl & Hd).
      rewrite (getMessages_past_window _ _ provider Hout Hprov Hl Hd).
      destruct (reply w (listing_call provider st)) as [raw|e0] eqn:Hr.
      * destruct (normalizeMessages raw) as [normalized|e1]; simpl.
        -- split; [eauto|]. intros c e [<-|[]] He. congruence.
        -- split; [eauto|]. auto.
      * simpl. split; [eauto|]. auto.
    + rewrite (getMessages_unprovisioned _ _ Hout Hp). simpl.
      split; [eauto|]. intros c e [].
Qed.

Lemma getMessages_never_throws_witness :
  (getMessages (world_all_down 13000) alice_listed_manager).1.1 =
    Ret (messages alice_listed_manager) /\
  messages (getMessages (world_all_down 13000) alice_listed_manager).1.2 =
    messages alice_listed_manager.
Proof.
  exact (proj2 (getMessages_never_throws (world_all_down 13000) alice_listed_manager)
           (GetMessages secmail [JStr "alice"; JStr "1secmail.com"]) down
           (or_introl eq_refl) eq_refl).
Defined.

Lemma getMessages_lastRefresh w st :
  (CONFIG.CACHE_DURATION <= now w - lastRefresh st)%Z ->
  lastRefresh (getMessages w st).1.2 = now w.
Proof.
  intros Hout. destruct (provisioned st) eqn:Hp.
  - destruct (provisioned_inv _ Hp) as (provider & Hprov & Hl & Hd).
    rewrite (getMessages_past_window _ _ provider Hout Hprov Hl Hd).
    destruct (reply w (listing_call provider st)) as [raw|e0];
      [destruct (normalizeMessages raw)|]; reflexivity.
  - rewrite (getMessages_unprovisioned _ _ Hout Hp). reflexivity.
Qed.

(** C8, as the code has it. The window of [CACHE_DURATION] = 2000 ms
    runs from the last [getMessages] call that got past the rate limit
    (the one that set [lastRefresh]); calls served from the stored
    sequence do not restart it. After such a call, a call made strictly
    less than 2000 ms later returns the stored summary sequence without
    any provider call and without changing the manager; a call made
    2000 ms or more later, with a provider pinned and login and domain
    set, dispatches exactly one listing call to the pinned provider. *)
Theorem getMessages_rate_limit w1 w2 st :
  (CONFIG.CACHE_DURATION <= now w1 - lastRefresh st)%Z ->
  let st1 := (getMessages w1 st).1.2 in
  ((now w2 - now w1 < CONFIG.CACHE_DURATION)%Z ->
     getMessages w2 st1 = (Ret (messages st1), st1, [])) /\
  ((CONFIG.CACHE_DURATION <= now w2 - now w1)%Z ->
     forall provider,
       currentProvider st1 = Some provider ->
       truthy (login st1) = true ->
       truthy (domain st1) = true ->
       (getMessages w2 st1).2 = [listing_call provider st1]).
Proof.
  intros Hfirst st1.
  pose proof (getMessages_lastRefresh w1 st Hfirst) as Hlast. fold st1 in Hlast.
  split.
  - intros Hin. apply getMessages_within_window. rewrite Hlast. exact Hin.
  - intros Hout provider Hprov Hl Hd.
    rewrite (getMessages_past_window w2 st1 provider) by (rewrite ?Hlast; assumption).
    destruct (reply w2 (listing_call provider st1)) as [raw|e0];
      [destruct (normalizeMessages raw)|]; reflexivity.
Qed.

Lemma getMessages_rate_limit_witness :
  getMessages (world_alice 11500) alice_listed_manager =
    (Ret (messages alice_listed_manager), alice_listed_manager, []) /\
  (getMessages (world_alice 12000) alice_listed_manager).2 =
    [GetMessages secmail [JStr "alice"; JStr "1secmail.com"]].
Proof.
  pose proof (getMessages_rate_limit (world_alice 10000) (world_alice 11500)
                alice_manager) as Hnear.
  pose proof (getMessages_rate_limit (world_alice 10000) (world_alice 12000)
                alice_manager) as Hfar.
  split.
  - apply Hnear; vm_compute; congruence.
  - apply (proj2 (Hfar ltac:(vm_compute; congruence)) ltac:(vm_compute; congruence) secmail);
      reflexivity.
Defined.

(** C8 fails as stated: after a listing at time 10000, the call at 11500
    is served from the stored sequence; the call at 12500 comes 1000 ms
    after that previous call and still dispatches a provider call. And a
    call past the window on a manager with a pinned provider but no
    mailbox dispatches nothing. *)
Lemma cached_call_does_not_restart_window :
  let second := getMessages (world_alice 11500) alice_listed_manager in
  let third := getMessages (world_alice 12500) second.1.2 in
  second.2 = [] /\
  (12500 - 11500 < CONFIG.CACHE_DURATION)%Z /\
  third.2 = [GetMessages secmail [JStr "alice"; JStr "1secmail.com"]] /\
  (CONFIG.CACHE_DURATION <= 10000 - lastRefresh pinned_manager)%Z /\
  currentProvider pinned_manager = Some secmail /\
  (getMessages (world_alice 10000) pinned_manager).2 = [].
Proof. repeat split; vm_compute; congruence. Qed.

(** ** Message reading *)

Lemma or_else_ret a b : or_else (Ret a) (Ret b) = Ret (js_or a b).
Proof. unfold or_else, js_or. orch. simpl. destruct (truthy a); reflexivity. Qed.

Lemma normalize_detail_spec message messageId :
  truthy message = true ->
  normalize_detail message messageId = Ret (detail_of message messageId).
Proof.
  intros Ht. unfold normalize_detail.
  rewrite !(get_truthy _ _ Ht), !or_else_ret. reflexivity.
Qed.

Lemma getMessage_hit messageId w st cached :
  messageCache st !! messageId = Some cached ->
  getMessage messageId w st = (Ret (Some cached), st, []).
Proof. intros H. unfold getMessage. orch. simpl. rewrite H. reflexivity. Qed.

Lemma getMessage_unpinned messageId w st :
  messageCache st !! messageId = None ->
  currentProvider st = None ->
  getMessage messageId w st = (Ret None, st, []).
Proof.
  intros H Hp. unfold getMessage. orch. simpl. rewrite H.
  unfold is_provider. rewrite Hp. reflexivity.
Qed.

(** On a miss: one fetch call; a truthy message is normalized, cached
    under the id and counted; anything else yields [null]. *)
Lemma getMessage_miss messageId w st provider :
  messageCache st !! messageId = None ->
  currentProvider st = Some provider ->
  getMessage messageId w st =
    match reply w (fetch_call provider st messageId) with
    | Returns message =>
        if truthy message
        then (Ret (Some (detail_of message messageId)),
              bump_messagesReceived
                (set_messageCache
                   (<[messageId := detail_of message messageId]> (messageCache st)) st),
              [fetch_call provider st messageId])
        else (Ret None, st, [fetch_call provider st messageId])
    | Raises _ => (Ret None, st, [fetch_call provider st messageId])
    end.
Proof.
  intros H Hp. unfold getMessage. orch. simpl. rewrite H.
  unfold is_provider. rewrite Hp. simpl.
  rewrite (by_name_spec _ provider) by exact Hp.
  destruct provider; simpl;
    match goal with
    | |- context [reply w ?c] => destruct (reply w c) as [message|e]
    end;
    try reflexivity;
    (destruct (truthy message) eqn:Ht;
     [rewrite (normalize_detail_spec _ _ Ht); reflexivity | reflexivity]).
Qed.

(** C9. Two [getMessage] calls for the same id perform at most one
    provider fetch: when the first call returns a detail, the detail is
    held in [messageCache] under that id, and the second call returns it
    without any provider call. *)
Theorem getMessage_twice messageId w1 w2 st detail :
  (getMessage messageId w1 st).1.1 = Ret (Some detail) ->
  let st1 := (getMessage messageId w1 st).1.2 in
  messageCache st1 !! messageId = Some detail /\
  getMessage messageId w2 st1 = (Ret (Some detail), st1, []) /\
  (length (getMessage messageId w1 st).2 +
   length (getMessage messageId w2 st1).2 <= 1)%nat.
Proof.
  intros Hfirst st1.
  assert (Hcache : messageCache st1 !! messageId = Some detail /\
                   (length (getMessage messageId w1 st).2 <= 1)%nat).
  { subst st1. revert Hfirst.
    destruct (messageCache st !! messageId) as [cached|] eqn:Hlook.
    - rewrite (getMessage_hit _ _ _ _ Hlook). simpl. intros [= <-]. auto.
    - destruct (currentProvider st) as [provider|] eqn:Hp.
      + rewrite (getMessage_miss _ _ _ _ Hlook Hp).
        destruct (reply w1 (fetch_call provider st messageId)) as [message|e];
          [destruct (truthy message)|]; simpl; try discriminate.
        intros [= <-]. split; [apply lookup_insert_eq|lia].
      + rewrite (getMessage_unpinned _ _ _ Hlook Hp). simpl. discriminate. }
  destruct Hcache as [Hcache Hlen].
  rewrite (getMessage_hit _ w2 _ _ Hcache). simpl.
  repeat split; [exact Hcache|lia].
Qed.

Lemma getMessage_twice_witness :
  messageCache alice_read_manager !! "42" =
    Some (detail_of (JObj [("id", JNum 42); ("from", JStr "eve@example.org");
                           ("subject", JStr "for alice only");
                           ("textBody", JStr "the secret")]) "42") /\
  getMessage "42" (world_all_down 7000) alice_read_manager =
    (Ret (Some (detail_of (JObj [("id", JNum 42); ("from", JStr "eve@example.org");
                                 ("subject", JStr "for alice only");
                                 ("textBody", JStr "the secret")]) "42")),
     alice_read_manager, []) /\
  (length (getMessage "42" (world_alice 6000) alice_manager).2 +
   length (getMessage "42" (world_all_down 7000) alice_read_manager).2 <= 1)%nat.
Proof.
  exact (getMessage_twice "42" (world_alice 6000) (world_all_down 7000) alice_manager
           _ eq_refl).
Defined.

(** ** Message normalizer *)

Lemma opt_string_method_stringish f v :
  stringish v = true -> opt_string_method f v = Ret (opt_string f v).
Proof. destruct v; simpl; intros H; try discriminate; reflexivity. Qed.

Lemma normalize_summary_spec msg :
  native_record msg = true -> normalize_summary msg = Ret (summary_of msg).
Proof.
  destruct msg as [| | | | | |fields]; simpl; try discriminate.
  intros H. apply andb_prop in H as [Hid Hbody].
  unfold normalize_summary, summary_of. cbn [get field].
  change (v ← Ret (assoc "@id" fields); opt_string_method last_segment v)
    with (opt_string_method last_segment (assoc "@id" fields)).
  change (v ← Ret (assoc "textBody" fields); opt_string_method (take_string 100) v)
    with (opt_string_method (take_string 100) (assoc "textBody" fields)).
  rewrite (opt_string_method_stringish _ _ Hid), (opt_string_method_stringish _ _ Hbody).
  rewrite !or_else_ret. reflexivity.
Qed.

Lemma truthy_not_nullish v : truthy v = true -> nullish v = false.
Proof. destruct v; simpl; intros H; try discriminate; reflexivity. Qed.

Lemma subject_never_nullish a b : nullish (js_or a (js_or b (JStr NO_SUBJECT))) = false.
Proof.
  apply truthy_not_nullish. unfold js_or.
  destruct (truthy a) eqn:Ha; [exact Ha|].
  destruct (truthy b) eqn:Hb; [exact Hb|]. reflexivity.
Qed.

(** C10. For native records, [normalizeMessages] produces one summary per
    record and never fails; the subject of a summary is never null or
    absent; a record with neither [subject] nor [mail_subject] gets the
    placeholder subject, and one with neither [textBody] nor
    [mail_excerpt] gets the empty preview. *)
Theorem normalizeMessages_placeholder items :
  Forall (fun msg => native_record msg = true) items ->
  exists summaries,
    normalizeMessages (JArr items) = Ret summaries /\
    Forall2 (fun msg summary =>
               nullish (s_subject summary) = false /\
               (field msg "subject" = JUndefined ->
                field msg "mail_subject" = JUndefined ->
                s_subject summary = JStr NO_SUBJECT) /\
               (field msg "textBody" = JUndefined ->
                field msg "mail_excerpt" = JUndefined ->
                s_preview summary = JStr ""))
            items summaries.
Proof.
  unfold normalizeMessages.
  induction 1 as [|msg rest Hmsg Hrest (summaries & Hmap & Hall)].
  - exists []. split; [reflexivity|constructor].
  - exists (summary_of msg :: summaries). split.
    + cbn [res_map]. rewrite (normalize_summary_spec _ Hmsg), Hmap. reflexivity.
    + constructor; [|exact Hall]. unfold summary_of; simpl.
      split; [apply subject_never_nullish|]. split.
      * intros -> ->. reflexivity.
      * intros -> ->. reflexivity.
Qed.

Lemma normalizeMessages_placeholder_witness :
  exists summaries,
    normalizeMessages (JArr sample_listing) = Ret summaries /\
    Forall2 (fun msg summary =>
               nullish (s_subject summary) = false /\
               (field msg "subject" = JUndefined ->
                field msg "mail_subject" = JUndefined ->
                s_subject summary = JStr NO_SUBJECT) /\
               (field msg "textBody" = JUndefined ->
                field msg "mail_excerpt" = JUndefined ->
                s_preview summary = JStr ""))
            sample_listing summaries.
Proof.
  apply (normalizeMessages_placeholder sample_listing).
  repeat constructor.
Defined.

Example sample_listing_subjects :
  normalizeMessages (JArr sample_listing) =
    Ret [mkSummary (JNum 7) (JStr "eve@example.org") (JStr NO_SUBJECT) JUndefined (JStr "");
         mkSummary (JStr "abc") JUndefined (JStr NO_SUBJECT) JUndefined (JStr "")].
Proof. reflexivity. Qed.

(** Outside the native records the normalizer can throw: a [null] entry,
    or a [textBody] that is not a string. *)
Example normalizeMessages_malformed :
  (exists e, normalizeMessages (JArr [JNull]) = Throw e) /\
  (exists e, normalizeMessages (JArr [JObj [("textBody", JNum 5)]]) = Throw e).
Proof. split; eexists; reflexivity. Qed.

(** ** The read cache across identity changes *)

(** The walk empties the cache when a provider is accepted, and leaves it
    as it was when it ends in the local fallback. *)
Lemma createEmail_loop_cache order w :
  creations_reject_objects w = true ->
  forall st,
    messageCache (createEmail_loop order w st).1.2 =
      if all_fail w order then messageCache st else ∅.
Proof.
  intros Hobj. pose proof (creations_reject_objects_spec w Hobj) as Hall.
  induction order as [|p rest IH]; intros st; [reflexivity|].
  rewrite (createEmail_loop_step_objects _ _ _ _ (Hall p)).
  unfold all_fail in *. cbn [forallb].
  destruct (reply w (CreateEmail p)) as [result|e]; simpl.
  - destruct (valid_result result); simpl; [reflexivity|].
    destruct (test_throws result).
    + specialize (IH (bump_providerSwitches st)).
      destruct (createEmail_loop rest w (bump_providerSwitches st)) as [[r st'] cs].
      exact IH.
    + specialize (IH st). destruct (createEmail_loop rest w st) as [[r st'] cs].
      exact IH.
  - specialize (IH (bump_providerSwitches st)).
    destruct (createEmail_loop rest w (bump_providerSwitches st)) as [[r st'] cs].
    exact IH.
Qed.

Lemma createEmail_cache w st :
  error_objects w = true ->
  messageCache (createEmail w st).1.2 =
    if all_fail w providerOrder then messageCache st else ∅.
Proof.
  intros Hobj. destruct (error_objects_spec w Hobj) as [Hchecks Hcreations].
  destruct (createEmail_spec w st Hchecks) as (q & probes & Hc & _ & _). rewrite Hc.
  pose proof (createEmail_loop_cache providerOrder w Hcreations (set_currentProvider q st))
    as H.
  destruct (createEmail_loop providerOrder w (set_currentProvider q st)) as [[r st'] cs].
  exact H.
Qed.

(** In every world, also when it throws, the walk leaves the cache as it
    was or empties it. *)
Lemma createEmail_loop_cache_frame order w :
  forall st,
    messageCache (createEmail_loop order w st).1.2 = messageCache st \/
    messageCache (createEmail_loop order w st).1.2 = ∅.
Proof.
  induction order as [|p rest IH]; intros st; [left; reflexivity|].
  rewrite createEmail_loop_step.
  destruct (reply w (CreateEmail p)) as [result|e].
  - destruct (valid_result result); [right; reflexivity|].
    destruct (test_throws result).
    + specialize (IH (bump_providerSwitches st)).
      destruct (createEmail_loop rest w (bump_providerSwitches st)) as [[r st'] cs].
      exact IH.
    + specialize (IH st). destruct (createEmail_loop rest w st) as [[r st'] cs].
      exact IH.
  - destruct (get e "message") as [m|error]; [|left; reflexivity].
    specialize (IH (bump_providerSwitches st)).
    destruct (createEmail_loop rest w (bump_providerSwitches st)) as [[r st'] cs].
    exact IH.
Qed.

Lemma createEmail_cache_frame w st :
  messageCache (createEmail w st).1.2 = messageCache st \/
  messageCache (createEmail w st).1.2 = ∅.
Proof.
  destruct (createEmail_frame w st) as [q [(error & calls & ->)|(probes & ->)]];
    [left; reflexivity|].
  pose proof (createEmail_loop_cache_frame providerOrder w (set_currentProvider q st)) as H.
  destruct (createEmail_loop providerOrder w (set_currentProvider q st)) as [[r st'] cs].
  exact H.
Qed.

(** [refreshEmail] always ends with an empty cache: it clears the cache
    itself before creating the mailbox. *)
Lemma refreshEmail_clears_cache w st : messageCache (refreshEmail w st).1.2 = ∅.
Proof.
  unfold refreshEmail, stopAutoRefresh. orch. simpl.
  destruct (refreshInterval st); simpl;
    match goal with
    | |- context [createEmail w ?s] =>
        pose proof (createEmail_cache_frame w s) as H;
        destruct (createEmail w s) as [[r st'] cs]
    end;
    cbn [fst snd] in *; destruct r; destruct H as [H|H]; exact H.
Qed.

(** C1, at the failing input. Alice's mailbox is created, her message 42
    is opened and cached; a further [createEmail] then meets three
    failing providers and replaces the identity by a local one without
    clearing [messageCache]: [getMessage("42")] under the new identity is
    a cache hit that returns the detail cached for alice's mailbox. *)
Theorem fallback_keeps_stale_cache :
  identity alice_read_manager =
    (JStr "alice", JStr "1secmail.com", JStr "alice@1secmail.com") /\
  messageCache alice_read_manager !! "42" = Some alice_detail /\
  identity stale_manager =
    (JStr "dkry5cjqx4bi", JStr "1secmail.com", JStr "dkry5cjqx4bi@1secmail.com") /\
  getMessage "42" (world_all_down 8000) stale_manager =
    (Ret (Some alice_detail), stale_manager, []).
Proof. vm_compute. repeat split. Qed.

(** ** Sanity checks of the embedding *)

Example isValidEmail_samples :
  isValidEmail (JStr "dkry5cjqx4bi@1secmail.com") = Ret true /\
  isValidEmail (JStr "first.last+tag@mail-host.example.org") = Ret true /\
  isValidEmail (JStr "nobody") = Ret false /\
  isValidEmail (JStr "a@b.c") = Ret false /\
  isValidEmail (JStr "a b@example.org") = Ret false /\
  isValidEmail (JStr "a@@example.org") = Ret false /\
  isValidEmail (JStr "@example.org") = Ret false /\
  isValidEmail JNull = Ret false /\
  isValidEmail (JArr [JStr "a@example.org"]) = Ret true /\
  isValidEmail (JObj [("address", JStr "a@example.org")]) = Ret false /\
  isValidEmail (JObj [("toString", JNum 0)]) = Throw conversion_error /\
  isValidEmail (JArr [JObj [("toString", JNull)]]) = Throw conversion_error.
Proof. vm_compute. repeat split. Qed.

(** [substring] counts code units, not bytes: an Arabic letter is two
    bytes and one unit, and an emoji is four bytes and two units, of
    which the first alone is kept when the cut falls between them. *)
Example take_string_samples :
  take_string 4 "the secret" = "the " /\
  String.length NO_SUBJECT = 21%nat /\
  code_units NO_SUBJECT = 12%nat /\
  take_string 12 NO_SUBJECT = NO_SUBJECT /\
  take_string 5 NO_SUBJECT = "(بدون" /\
  code_units "a😀" = 3%nat /\
  take_string 3 "a😀b" = "a😀" /\
  code_units (take_string 2 "a😀b") = 2%nat /\
  String.length (take_string 2 "a😀b") = 4%nat.
Proof. vm_compute. repeat split. Qed.

(** A provider that rejects with [null] makes [createEmail] throw: the
    [catch] block fails at [error.message], no switch is counted and the
    providers that follow are not tried. *)
Example createEmail_null_rejection :
  let w := mkWorld (fun c => match c with
                             | CreateEmail secmail => Raises JNull
                             | CreateEmail _ => Returns (mailbox "bob" "sharklasers.com")
                             | _ => Raises down
                             end) 5000 draws in
  exists error,
    createEmail w pinned_manager = (Throw error, pinned_manager, [CreateEmail secmail]) /\
    error_objects w = false.
Proof. eexists. split; reflexivity. Qed.

(** An address that cannot be converted to a string makes the
    acceptance test throw inside the [try] block, which counts a
    switch. *)
Example createEmail_unconvertible_address :
  let w := mkWorld (fun c => match c with
                             | CreateEmail secmail =>
                                 Returns (JObj [("email", JObj [("toString", JNum 0)])])
                             | CreateEmail _ => Returns (mailbox "bob" "sharklasers.com")
                             | _ => Raises down
                             end) 5000 draws in
  (createEmail w pinned_manager).1.1 = Ret (JStr "bob@sharklasers.com") /\
  providerSwitches (stats (createEmail w pinned_manager).1.2) = 1%Z.
Proof. vm_compute. split; reflexivity. Qed.

Example generateRandomString_sample :
  generateRandomString 12 true draws = "dkry5cjqx4bi" /\
  generateRandomString 0 true draws = "d" /\
  generateRandomString 4 false draws = "dkry".
Proof. vm_compute. repeat split. Qed.

(** With every request failing, the default of three retries gives four
    requests and the sleeps 1000, 2000 and 4000 before the last error is
    thrown. *)
Example fetchWithRetry_exhausts :
  let run := fetchWithRetry (fun _ => Responds (mkResponse false 503 JNull)) 0
               "https://api.mail.tm/domains" 3 in
  run.1 = Throw (mkError "Error" "HTTP 503") /\
  requests run.2 = 4%nat /\
  sleeps run.2 = [1000%Q; 2000%Q; 4000%Q].
Proof. vm_compute. repeat split. Qed.

Example initialize_picks_first_healthy :
  (initialize (mkWorld (fun c => match c with
                                 | CheckHealth secmail => Returns (JBool false)
                                 | CheckHealth mailtm => Returns (JBool true)
                                 | _ => Raises down
                                 end) 0 draws) newManager).1.1 = Ret (Some mailtm) /\
  (initialize (world_all_down 0) newManager).1.1 = Ret (Some secmail).
Proof. vm_compute. repeat split. Qed.

(** * Further properties of the module *)

(** ** The retry client in general *)

Lemma requests_step url ms trace :
  requests (EvFetch url :: EvSleep ms :: trace) = S (requests trace).
Proof. reflexivity. Qed.

Lemma sleeps_step url ms trace :
  sleeps (EvFetch url :: EvSleep ms :: trace) = ms :: sleeps trace.
Proof. reflexivity. Qed.

Lemma requests_single url : requests [EvFetch url] = 1%nat.
Proof. reflexivity. Qed.

Lemma sleeps_single url : sleeps [EvFetch url] = [].
Proof. reflexivity. Qed.

Lemma fetchWithRetry_trace_shape net url retries :
  forall k,
    let trace := (fetchWithRetry net k url retries).2 in
    (1 <= requests trace <= retries + 1)%nat /\
    (length (sleeps trace) + 1 = requests trace)%nat.
Proof.
  induction retries as [|r IH]; intros k; cbn [fetchWithRetry].
  - destruct (attempt (net k)); cbn [snd]; rewrite requests_single, sleeps_single;
      simpl; lia.
  - destruct (attempt (net k)) as [response|error];
      [cbn [snd]; rewrite requests_single, sleeps_single; simpl; lia|].
    destruct (name_includes_Abort error) as [[|]|e];
      try (cbn [snd]; rewrite requests_single, sleeps_single; simpl; lia).
    specialize (IH (S k)). destruct (fetchWithRetry net (S k) url r) as [res trace].
    cbn [snd] in *. rewrite requests_step, sleeps_step. simpl length. lia.
Qed.


(** X2. A response returned by [fetchWithRetry] is always an [ok]
    response, and it is the answer to the last request issued. *)
Theorem fetchWithRetry_returns_ok_only net url retries :
  forall k response,
    (fetchWithRetry net k url retries).1 = Ret response ->
    ok response = true /\
    net (k + requests (fetchWithRetry net k url retries).2 - 1)%nat = Responds response.
Proof.
  assert (Hok : forall o response, attempt o = Ret response ->
                                   ok response = true /\ o = Responds response).
  { intros [r|e|] response; simpl; try discriminate.
    destruct (ok r) eqn:Hr; [|discriminate]. intros [= <-]. auto. }
  induction retries as [|r IH]; intros k response; cbn [fetchWithRetry].
  - destruct (attempt (net k)) as [resp|error] eqn:Ha; cbn [fst snd]; [|discriminate].
    intros [= <-]. rewrite requests_single.
    replace (k + 1 - 1)%nat with k by lia. apply Hok. exact Ha.
  - destruct (attempt (net k)) as [resp|error] eqn:Ha.
    + cbn [fst snd]. intros [= <-]. rewrite requests_single.
      replace (k + 1 - 1)%nat with k by lia. apply Hok. exact Ha.
    + destruct (name_includes_Abort error) as [[|]|e]; try (cbn [fst]; discriminate).
      specialize (IH (S k) response).
      pose proof (fetchWithRetry_trace_shape net url r (S k)) as [[Hge _] _].
      destruct (fetchWithRetry net (S k) url r) as [res trace].
      cbn [fst snd] in *. intros Hres. destruct (IH Hres) as [H1 H2]. split; [exact H1|].
      rewrite requests_step.
      replace (k + S (requests trace) - 1)%nat with (S k + requests trace - 1)%nat by lia.
      exact H2.
Qed.

Lemma fetchWithRetry_returns_ok_only_witness :
  ok okResponse = true /\
  net_two_failures
    (0 + requests (fetchWithRetry net_two_failures 0 "https://api.mail.tm/domains" 3).2 - 1)%nat
    = Responds okResponse.
Proof.
  exact (fetchWithRetry_returns_ok_only net_two_failures "https://api.mail.tm/domains"
           3 0 okResponse eq_refl).
Defined.



Lemma retry_delay_value retries :
  (retry_delay retries ==
   inject_Z CONFIG.RETRY_DELAY *
   Qpower (inject_Z CONFIG.RETRY_MULTIPLIER) (CONFIG.MAX_RETRIES - Z.of_nat retries))%Q.
Proof. unfold retry_delay. apply Qred_correct. Qed.

(** X4. The backoff is exponential: the delay before a retry is twice
    the delay before the previous one, starting from [RETRY_DELAY] =
    1000 ms when [retries] is [MAX_RETRIES]; and a caller that passes
    [retries = 1], as the health checks do, waits 4000 ms before its only
    retry. *)
Theorem retry_delay_doubles retries :
  (retry_delay retries == 2 * retry_delay (S retries))%Q /\
  retry_delay (Z.to_nat CONFIG.MAX_RETRIES) = 1000%Q /\
  retry_delay 1 = 4000%Q.
Proof.
  split; [|split; reflexivity].
  rewrite !retry_delay_value.
  replace (CONFIG.MAX_RETRIES - Z.of_nat retries)%Z
    with ((CONFIG.MAX_RETRIES - Z.of_nat (S retries)) + 1)%Z by lia.
  rewrite Qpower_plus by discriminate.
  change (inject_Z CONFIG.RETRY_MULTIPLIER ^ 1)%Q with 2%Q.
  ring.
Qed.

(** ** The address predicate and the login generator *)

(** X5. [isValidEmail] accepts a string exactly when it consists of a
    non-empty local part of letters, digits and [._%+-], an at sign, a
    non-empty domain of letters, digits, dots and hyphens, a dot, and a
    final label of two or more letters. *)
Theorem isValidEmail_iff_shape s : isValidEmail (JStr s) = Ret true <-> email_shape s.
Proof. apply isValidEmail_shape. Qed.

Lemma letters_are_lower (i : nat) (c : ascii) :
  String.get i letters = Some c -> is_lower c = true.
Proof.
  unfold letters.
  do 26 (destruct i as [|i]; [intros [= <-]; reflexivity|]).
  simpl. discriminate.
Qed.

Lemma alphabet_lower_or_digit (i : nat) (c : ascii) :
  String.get i (letters ++ numbers) = Some c -> is_lower c || is_digit c = true.
Proof.
  unfold letters, numbers.
  do 36 (destruct i as [|i]; [intros [= <-]; reflexivity|]).
  simpl. discriminate.
Qed.

Lemma pick_charset includeNumbers r :
  all_chars (fun c => is_lower c || (includeNumbers && is_digit c))
    (pick (if includeNumbers then (letters ++ numbers)%string else letters) r) = true.
Proof.
  set (chars := if includeNumbers then (letters ++ numbers)%string else letters).
  assert (Hne : chars <> EmptyString) by (subst chars; destruct includeNumbers; discriminate).
  destruct (pick_one_char chars r Hne) as (c & -> & Hget). simpl.
  rewrite andb_true_r. subst chars. destruct includeNumbers; simpl.
  - eapply alphabet_lower_or_digit; eauto.
  - rewrite (letters_are_lower _ _ Hget). reflexivity.
Qed.

(** X6. [generateRandomString(length, includeNumbers)] returns a string
    of [max(1, length)] characters (one character even for length 0)
    whose first character is a lower-case letter and whose other
    characters are lower-case letters or, if [includeNumbers], digits. *)
Theorem generateRandomString_charset length includeNumbers rnd :
  String.length (generateRandomString length includeNumbers rnd) = Nat.max 1 length /\
  (exists c rest,
      generateRandomString length includeNumbers rnd = String c rest /\
      is_lower c = true) /\
  all_chars (fun c => is_lower c || (includeNumbers && is_digit c))
    (generateRandomString length includeNumbers rnd) = true.
Proof.
  destruct (generateRandomString_shape length includeNumbers rnd)
    as (c & rest & Hgen & _ & Hlen).
  assert (Hall : all_chars (fun c => is_lower c || (includeNumbers && is_digit c))
                   (generateRandomString length includeNumbers rnd) = true).
  { unfold generateRandomString. apply generate_rest_chars.
    - intros r. apply pick_charset.
    - destruct (pick_one_char letters (rnd 0%nat)) as (a & Hpick & Hget); [discriminate|].
      rewrite Hpick. simpl. rewrite (letters_are_lower _ _ Hget). reflexivity. }
  split; [rewrite Hgen; exact Hlen|]. split; [|exact Hall].
  exists c, rest. split; [exact Hgen|].
  rewrite Hgen in Hall. simpl in Hall. apply andb_prop in Hall as [Hc _].
  unfold letters in *.
  destruct (pick_one_char letters (rnd 0%nat)) as (a & Hpick & Hget); [discriminate|].
  unfold generateRandomString in Hgen. rewrite Hpick in Hgen.
  destruct (generate_rest_spec
              (if includeNumbers then (letters ++ numbers)%string else letters) rnd
              (length - 1)
              ltac:(destruct includeNumbers; discriminate) 1%nat
              (EmptyString ++ String a EmptyString)%string) as (suffix & Heq & _).
  rewrite Heq in Hgen. simpl in Hgen. injection Hgen as <- _.
  eapply letters_are_lower; eauto.
Qed.

(** ** Provider selection and mailbox creation, in general *)

Lemma initialize_loop_closed order w st :
  probes_reject_objects w = true ->
  initialize_loop order w st =
    (Ret tt,
     match List.find (healthy w) order with
     | Some p => set_currentProvider (Some p) st
     | None => st
     end,
     List.map CheckHealth (probed w order)).
Proof.
  intros Hobj. pose proof (probes_reject_objects_spec w Hobj) as Hall.
  induction order as [|p rest IH]; [reflexivity|].
  rewrite initialize_loop_step. cbn [List.find probed List.map]. unfold healthy at 1 3.
  pose proof (Hall p) as Hp.
  destruct (reply w (CheckHealth p)) as [v|e]; simpl.
  - destruct (truthy v); simpl; [reflexivity|]. rewrite IH. reflexivity.
  - cbn [rejects_nullish] in Hp. rewrite (get_present _ _ Hp), IH. reflexivity.
Qed.

Lemma initialize_closed w st :
  probes_reject_objects w = true ->
  initialize w st =
    (Ret (Some (pinned_after w st)),
     set_currentProvider (Some (pinned_after w st)) st,
     List.map CheckHealth (probed w providerOrder)).
Proof.
  intros Hobj.
  unfold initialize, pinned_after. orch. rewrite (initialize_loop_closed _ _ _ Hobj).
  destruct (List.find (healthy w) providerOrder) as [p|]; simpl.
  - rewrite app_nil_r. reflexivity.
  - unfold is_provider. destruct (currentProvider st) as [q|] eqn:Hq; simpl.
    + rewrite app_nil_r, <- Hq, set_currentProvider_same. reflexivity.
    + rewrite app_nil_r. reflexivity.
Qed.

(** X7. As long as no health check rejects with [undefined] or [null]
    (the [catch] block reads [error.message]), [initialize] does not
    throw. It probes the providers in the order 1secmail, mail.tm,
    Guerrilla Mail and stops at the first whose health check returns a
    truthy value, which it pins; a check that throws or returns a falsy
    value is skipped. When no provider is healthy it keeps the provider
    pinned before, or pins 1secmail if there was none. Nothing but the
    pinned provider changes. *)
Theorem initialize_pins_first_healthy w st :
  probes_reject_objects w = true ->
  initialize w st =
    (Ret (Some (pinned_after w st)),
     set_currentProvider (Some (pinned_after w st)) st,
     List.map CheckHealth (probed w providerOrder)).
Proof. apply initialize_closed. Qed.

Lemma initialize_pins_first_healthy_witness :
  initialize world_probes newManager =
    (Ret (Some mailtm), set_currentProvider (Some mailtm) newManager,
     [CheckHealth secmail; CheckHealth mailtm]).
Proof. exact (initialize_pins_first_healthy world_probes newManager eq_refl). Defined.

(** A health check that rejects with [null] makes [initialize] throw,
    with the later providers not probed and no provider pinned. *)
Example initialize_null_rejection :
  let w := mkWorld (fun c => match c with
                             | CheckHealth secmail => Raises JNull
                             | CheckHealth _ => Returns (JBool true)
                             | _ => Raises down
                             end) 0 draws in
  exists error, initialize w newManager = (Throw error, newManager, [CheckHealth secmail]).
Proof. eexists. reflexivity. Qed.

Lemma thrown_count_cons_thrown w p rest :
  accepted w p = false -> thrown w p = true ->
  thrown_count w (p :: rest) = (1 + thrown_count w rest)%Z.
Proof.
  intros Ha Ht. unfold thrown_count. cbn [attempted]. rewrite Ha.
  cbn [List.filter]. rewrite Ht. cbn [length]. lia.
Qed.

Lemma thrown_count_cons_invalid w p rest :
  accepted w p = false -> thrown w p = false ->
  thrown_count w (p :: rest) = thrown_count w rest.
Proof.
  intros Ha Ht. unfold thrown_count. cbn [attempted]. rewrite Ha.
  cbn [List.filter]. rewrite Ht. reflexivity.
Qed.

Lemma thrown_count_cons_accepted w p rest :
  accepted w p = true -> thrown_count w (p :: rest) = 0%Z.
Proof.
  intros Ha. unfold thrown_count. cbn [attempted]. rewrite Ha.
  cbn [List.filter]. unfold accepted, thrown in *.
  destruct (reply w (CreateEmail p)) as [result|e]; [|discriminate].
  cbn [create_fails] in Ha. apply negb_true_iff, negb_false_iff in Ha.
  rewrite (valid_result_test _ Ha). reflexivity.
Qed.

(** The walk in closed form. *)
Lemma createEmail_loop_closed order w :
  creations_reject_objects w = true ->
  forall st,
    createEmail_loop order w st =
      (Ret (walk_outcome w order st).1, (walk_outcome w order st).2,
       List.map CreateEmail (attempted w order)).
Proof.
  intros Hobj. pose proof (creations_reject_objects_spec w Hobj) as Hall.
  induction order as [|p rest IH]; intros st.
  - cbn [createEmail_loop]. rewrite createEmail_fallback_spec.
    unfold walk_outcome, thrown_count. simpl. rewrite add_switches_0. reflexivity.
  - rewrite (createEmail_loop_step_objects _ _ _ _ (Hall p)).
    destruct (reply w (CreateEmail p)) as [result|e] eqn:Hr.
    + destruct (valid_result result) eqn:Hv.
      * assert (Ha : accepted w p = true) by (unfold accepted; rewrite Hr; simpl; rewrite Hv; reflexivity).
        unfold walk_outcome. rewrite (thrown_count_cons_accepted _ _ _ Ha).
        cbn [List.find attempted]. rewrite Ha. unfold result_of. rewrite Hr.
        rewrite add_switches_0. reflexivity.
      * assert (Ha : accepted w p = false) by (unfold accepted; rewrite Hr; simpl; rewrite Hv; reflexivity).
        destruct (test_throws result) eqn:Htest.
        -- assert (Ht : thrown w p = true) by (unfold thrown; rewrite Hr; exact Htest).
           rewrite IH. unfold walk_outcome.
           rewrite (thrown_count_cons_thrown _ _ _ Ha Ht), bump_add_switches.
           cbn [List.find attempted]. rewrite Ha. reflexivity.
        -- assert (Ht : thrown w p = false) by (unfold thrown; rewrite Hr; exact Htest).
           rewrite IH. unfold walk_outcome.
           rewrite (thrown_count_cons_invalid _ _ _ Ha Ht).
           cbn [List.find attempted]. rewrite Ha. reflexivity.
    + assert (Ha : accepted w p = false) by (unfold accepted; rewrite Hr; reflexivity).
      assert (Ht : thrown w p = true) by (unfold thrown; rewrite Hr; reflexivity).
      rewrite IH. unfold walk_outcome.
      rewrite (thrown_count_cons_thrown _ _ _ Ha Ht), bump_add_switches.
      cbn [List.find attempted]. rewrite Ha. reflexivity.
Qed.

Lemma createEmail_closed w st :
  error_objects w = true ->
  exists q probes,
    createEmail w st =
      (Ret (walk_outcome w providerOrder (set_currentProvider q st)).1,
       (walk_outcome w providerOrder (set_currentProvider q st)).2,
       probes ++ List.map CreateEmail (attempted w providerOrder)) /\
    forallb is_health_check probes = true /\
    (is_provider st = true -> probes = []).
Proof.
  intros Hobj. destruct (error_objects_spec w Hobj) as [Hchecks Hcreations].
  destruct (createEmail_spec w st Hchecks) as (q & probes & Hc & Hp & Hn).
  exists q, probes. rewrite Hc, (createEmail_loop_closed _ _ Hcreations). auto.
Qed.

Lemma accepted_valid w p :
  accepted w p = true -> valid_result (result_of w p) = true.
Proof.
  unfold accepted, result_of. destruct (reply w (CreateEmail p)); simpl; [|discriminate].
  intros H. apply negb_true_iff, negb_false_iff in H. exact H.
Qed.

Lemma valid_result_email result :
  valid_result result = true ->
  truthy (field result "email") = true /\ isValidEmail (field result "email") = Ret true.
Proof.
  unfold valid_result. intros H.
  apply andb_prop in H as [H Hv]. apply andb_prop in H as [_ Ht].
  destruct (isValidEmail (field result "email")) as [[|]|e]; try discriminate. auto.
Qed.

Lemma walk_outcome_valid w order st :
  isValidEmail (walk_outcome w order st).1 = Ret true /\
  email (walk_outcome w order st).2 = (walk_outcome w order st).1 /\
  isReady (walk_outcome w order st).2 = true /\
  getProviderName (walk_outcome w order st).2 <> "unknown".
Proof.
  unfold walk_outcome.
  destruct (List.find (accepted w) order) as [p|] eqn:Hfind; cbn [fst snd].
  - apply find_some in Hfind as [_ Ha].
    destruct (valid_result_email _ (accepted_valid _ _ Ha)) as [Ht Hv].
    split; [exact Hv|]. split; [reflexivity|]. split.
    + unfold isReady. simpl. rewrite Ht. reflexivity.
    + destruct p; discriminate.
  - split; [apply synthetic_address_valid|]. split; [reflexivity|]. split.
    + unfold isReady. simpl.
      destruct (generateRandomString_shape 12 true (random w)) as (c & rest & Hgen & _).
      unfold synthetic_login. rewrite Hgen. reflexivity.
    + discriminate.
Qed.

(** X8. As long as what the providers throw are error objects,
    [createEmail] does not throw: it returns an address that passes
    [isValidEmail] (a provider's accepted address or the local
    fallback), stores it as [this.email], and leaves the manager ready
    with a named provider pinned. *)
Theorem createEmail_returns_valid_address w st :
  error_objects w = true ->
  exists address st' calls,
    createEmail w st = (Ret address, st', calls) /\
    isValidEmail address = Ret true /\
    email st' = address /\
    isReady st' = true /\
    getProviderName st' <> "unknown".
Proof.
  intros Hobj.
  destruct (createEmail_closed w st Hobj) as (q & probes & Hc & _ & _).
  rewrite Hc. do 3 eexists. split; [reflexivity|].
  apply walk_outcome_valid.
Qed.

Lemma createEmail_returns_valid_address_witness :
  exists address st' calls,
    createEmail world_guerrilla_only newManager = (Ret address, st', calls) /\
    isValidEmail address = Ret true /\
    email st' = address /\
    isReady st' = true /\
    getProviderName st' <> "unknown".
Proof.
  exact (createEmail_returns_valid_address world_guerrilla_only newManager eq_refl).
Defined.

Lemma attempted_last w order p d :
  List.find (accepted w) order = Some p -> List.last (attempted w order) d = p.
Proof.
  induction order as [|a rest IH]; cbn [List.find attempted]; [discriminate|].
  destruct (accepted w a) eqn:Ha.
  - intros [= <-]. reflexivity.
  - intros Hfind. specialize (IH Hfind).
    destruct (attempted w rest) as [|b more] eqn:Hatt.
    + destruct rest as [|r0 rest0]; [discriminate|].
      cbn [attempted] in Hatt. destruct (accepted w r0); discriminate.
    + exact IH.
Qed.

(** X9. When some provider's result is accepted and what the providers
    throw are error objects, [createEmail] adopts the first accepted
    provider in priority order: it returns that result's address, pins
    the provider, takes login, domain and address from the result,
    empties the message list and the read cache, counts one more created
    mailbox and one provider switch per earlier provider whose attempt
    ended in the [catch] block (its [createEmail] threw, or the
    acceptance test threw on an address that cannot be converted to a
    string); providers after the accepted one are not called. *)
Theorem createEmail_adopts_first_accepted w st p :
  error_objects w = true ->
  List.find (accepted w) providerOrder = Some p ->
  exists st' probes,
    createEmail w st =
      (Ret (field (result_of w p) "email"), st',
       probes ++ List.map CreateEmail (attempted w providerOrder)) /\
    forallb is_health_check probes = true /\
    List.last (attempted w providerOrder) secmail = p /\
    currentProvider st' = Some p /\
    identity st' = (field (result_of w p) "login", field (result_of w p) "domain",
                    field (result_of w p) "email") /\
    messages st' = [] /\
    messageCache st' = ∅ /\
    emailsCreated (stats st') = (emailsCreated (stats st) + 1)%Z /\
    messagesReceived (stats st') = messagesReceived (stats st) /\
    providerSwitches (stats st') =
      (providerSwitches (stats st) + thrown_count w providerOrder)%Z.
Proof.
  intros Hobj Hfind.
  destruct (createEmail_closed w st Hobj) as (q & probes & Hc & Hp & _).
  rewrite Hc. unfold walk_outcome. rewrite Hfind. cbn [fst snd].
  do 2 eexists. split; [reflexivity|]. split; [exact Hp|].
  split; [apply attempted_last; exact Hfind|].
  repeat split.
Qed.

Lemma createEmail_adopts_first_accepted_witness :
  exists st' probes,
    createEmail world_unconvertible_then_ok pinned_manager =
      (Ret (JStr "carol@mail.tm"), st',
       probes ++ [CreateEmail secmail; CreateEmail mailtm]) /\
    forallb is_health_check probes = true /\
    mailtm = mailtm /\
    currentProvider st' = Some mailtm /\
    identity st' = (JStr "carol", JStr "mail.tm", JStr "carol@mail.tm") /\
    messages st' = [] /\
    messageCache st' = ∅ /\
    emailsCreated (stats st') = 1%Z /\
    messagesReceived (stats st') = 0%Z /\
    providerSwitches (stats st') = 1%Z.
Proof.
  exact (createEmail_adopts_first_accepted world_unconvertible_then_ok pinned_manager mailtm
           eq_refl eq_refl).
Defined.

(** X10. When no provider's result is accepted and what the providers
    throw are error objects, the local fallback of [createEmail] changes
    only the identity, the pinned provider (to 1secmail) and the
    provider-switch counter: the message list, the read cache,
    [lastRefresh], the timer handle and the other two counters are left
    as they were. *)
Theorem createEmail_fallback_frame w st :
  error_objects w = true ->
  List.find (accepted w) providerOrder = None ->
  let st' := (createEmail w st).1.2 in
  currentProvider st' = Some secmail /\
  domain st' = JStr "1secmail.com" /\
  messages st' = messages st /\
  messageCache st' = messageCache st /\
  lastRefresh st' = lastRefresh st /\
  refreshInterval st' = refreshInterval st /\
  emailsCreated (stats st') = emailsCreated (stats st) /\
  messagesReceived (stats st') = messagesReceived (stats st) /\
  providerSwitches (stats st') =
    (providerSwitches (stats st) + thrown_count w providerOrder)%Z.
Proof.
  intros Hobj Hfind.
  destruct (createEmail_closed w st Hobj) as (q & probes & Hc & _ & _).
  rewrite Hc. unfold walk_outcome. rewrite Hfind. cbn [fst snd].
  repeat split.
Qed.

Lemma createEmail_fallback_frame_witness :
  let st' := (createEmail (world_all_down 7000) alice_read_manager).1.2 in
  currentProvider st' = Some secmail /\
  domain st' = JStr "1secmail.com" /\
  messages st' = messages alice_read_manager /\
  messageCache st' = messageCache alice_read_manager /\
  lastRefresh st' = lastRefresh alice_read_manager /\
  refreshInterval st' = refreshInterval alice_read_manager /\
  emailsCreated (stats st') = emailsCreated (stats alice_read_manager) /\
  messagesReceived (stats st') = messagesReceived (stats alice_read_manager) /\
  providerSwitches (stats st') =
    (providerSwitches (stats alice_read_manager)
     + thrown_count (world_all_down 7000) providerOrder)%Z.
Proof.
  exact (createEmail_fallback_frame (world_all_down 7000) alice_read_manager
           eq_refl eq_refl).
Defined.

(** [refreshEmail] is [createEmail] on the manager with the timer handle
    dropped and the message list and read cache emptied. *)
Lemma refreshEmail_closed w st :
  refreshEmail w st =
    createEmail w (set_messageCache ∅ (set_messages [] (set_refreshInterval None st))).
Proof.
  unfold refreshEmail, stopAutoRefresh. orch. simpl.
  destruct (refreshInterval st) eqn:Hr; simpl.
  - destruct (createEmail w _) as [[r st'] calls]. destruct r; reflexivity.
  - replace (set_messageCache ∅ (set_messages [] (set_refreshInterval None st)))
      with (set_messageCache ∅ (set_messages [] st))
      by (destruct st; simpl in *; subst; reflexivity).
    destruct (createEmail w _) as [[r st'] calls]. destruct r; reflexivity.
Qed.

(** X11. As long as what the providers throw are error objects,
    [refreshEmail] does not throw: it returns a valid address, and
    afterwards the message list and the read cache are empty and no
    polling timer is held, whichever path [createEmail] took;
    [lastRefresh] is not reset. *)
Theorem refreshEmail_rotates w st :
  error_objects w = true ->
  exists address st' calls,
    refreshEmail w st = (Ret address, st', calls) /\
    isValidEmail address = Ret true /\
    email st' = address /\
    isReady st' = true /\
    messages st' = [] /\
    messageCache st' = ∅ /\
    refreshInterval st' = None /\
    lastRefresh st' = lastRefresh st.
Proof.
  intros Hobj. rewrite refreshEmail_closed.
  destruct (createEmail_closed w
              (set_messageCache ∅ (set_messages [] (set_refreshInterval None st))) Hobj)
    as (q & probes & Hc & _ & _).
  rewrite Hc. do 3 eexists. split; [reflexivity|].
  destruct (walk_outcome_valid w providerOrder
              (set_currentProvider q
                 (set_messageCache ∅ (set_messages [] (set_refreshInterval None st)))))
    as (Hv & He & Hr & _).
  split; [exact Hv|]. split; [exact He|]. split; [exact Hr|].
  unfold walk_outcome.
  destruct (List.find (accepted w) providerOrder); cbn [fst snd]; repeat split.
Qed.

Lemma refreshEmail_rotates_witness :
  exists address st' calls,
    refreshEmail (world_all_down 7000) alice_read_manager = (Ret address, st', calls) /\
    isValidEmail address = Ret true /\
    email st' = address /\
    isReady st' = true /\
    messages st' = [] /\
    messageCache st' = ∅ /\
    refreshInterval st' = None /\
    lastRefresh st' = lastRefresh alice_read_manager.
Proof.
  exact (refreshEmail_rotates (world_all_down 7000) alice_read_manager eq_refl).
Defined.

(** ** Counters *)

Lemma stats_le_refl s : stats_le s s.
Proof. unfold stats_le. lia. Qed.

(** In every world, also when it throws, the walk moves no counter
    down and leaves [messagesReceived] alone. *)
Lemma createEmail_loop_stats order w :
  forall st,
    stats_le (stats st) (stats (createEmail_loop order w st).1.2) /\
    messagesReceived (stats (createEmail_loop order w st).1.2) = messagesReceived (stats st).
Proof.
  assert (Hbump : forall st rest,
            stats_le (stats (bump_providerSwitches st))
              (stats (createEmail_loop rest w (bump_providerSwitches st)).1.2) /\
            messagesReceived (stats (createEmail_loop rest w (bump_providerSwitches st)).1.2)
              = messagesReceived (stats (bump_providerSwitches st)) ->
            stats_le (stats st)
              (stats (prepend (CreateEmail secmail)
                        (createEmail_loop rest w (bump_providerSwitches st))).1.2) /\
            messagesReceived
              (stats (prepend (CreateEmail secmail)
                        (createEmail_loop rest w (bump_providerSwitches st))).1.2)
              = messagesReceived (stats st)).
  { intros st rest.
    destruct (createEmail_loop rest w (bump_providerSwitches st)) as [[r s'] cs].
    unfold stats_le. simpl. lia. }
  induction order as [|p rest IH]; intros st.
  - split; [apply stats_le_refl|reflexivity].
  - rewrite createEmail_loop_step.
    assert (Hprepend : forall c c' (x : Res JsVal * Manager * list Call),
              (prepend c x).1.2 = (prepend c' x).1.2)
      by (intros c c' [[r s'] cs]; reflexivity).
    destruct (reply w (CreateEmail p)) as [result|e].
    + destruct (valid_result result); [unfold stats_le; simpl; lia|].
      destruct (test_throws result).
      * rewrite (Hprepend _ (CreateEmail secmail)). apply Hbump, IH.
      * specialize (IH st). destruct (createEmail_loop rest w st) as [[r s'] cs].
        exact IH.
    + destruct (get e "message") as [m|error].
      * rewrite (Hprepend _ (CreateEmail secmail)). apply Hbump, IH.
      * split; [apply stats_le_refl|reflexivity].
Qed.

Lemma getMessages_stats w st : stats (getMessages w st).1.2 = stats st.
Proof.
  destruct (Z.lt_ge_cases (now w - lastRefresh st) CONFIG.CACHE_DURATION) as [Hin|Hout].
  - rewrite (getMessages_within_window _ _ Hin). reflexivity.
  - destruct (provisioned st) eqn:Hp.
    + destruct (provisioned_inv _ Hp) as (provider & Hprov & Hl & Hd).
      rewrite (getMessages_past_window _ _ provider Hout Hprov Hl Hd).
      destruct (reply w (listing_call provider st)) as [raw|e0];
        [destruct (normalizeMessages raw)|]; reflexivity.
    + rewrite (getMessages_unprovisioned _ _ Hout Hp). reflexivity.
Qed.

Lemma getMessage_cases messageId w st :
  (getMessage messageId w st).1.2 = st \/
  exists provider message,
    messageCache st !! messageId = None /\
    currentProvider st = Some provider /\
    reply w (fetch_call provider st messageId) = Returns message /\
    truthy message = true /\
    getMessage messageId w st =
      (Ret (Some (detail_of message messageId)),
       bump_messagesReceived
         (set_messageCache
            (<[messageId := detail_of message messageId]> (messageCache st)) st),
       [fetch_call provider st messageId]).
Proof.
  destruct (messageCache st !! messageId) as [cached|] eqn:Hlook.
  - left. rewrite (getMessage_hit _ _ _ _ Hlook). reflexivity.
  - destruct (currentProvider st) as [provider|] eqn:Hp.
    + rewrite (getMessage_miss _ _ _ _ Hlook Hp).
      destruct (reply w (fetch_call provider st messageId)) as [message|e] eqn:Hr;
        [destruct (truthy message) eqn:Ht|]; auto.
      right. exists provider, message. auto.
    + left. rewrite (getMessage_unpinned _ _ _ Hlook Hp). reflexivity.
Qed.

(** X12. The three counters never decrease: [initialize] and
    [getMessages] leave them unchanged, [createEmail] and [refreshEmail]
    can only raise [emailsCreated] and [providerSwitches], and
    [getMessage] can only raise [messagesReceived]. *)
Theorem stats_never_decrease w st messageId :
  stats (initialize w st).1.2 = stats st /\
  stats (getMessages w st).1.2 = stats st /\
  stats_le (stats st) (stats (createEmail w st).1.2) /\
  messagesReceived (stats (createEmail w st).1.2) = messagesReceived (stats st) /\
  stats_le (stats st) (stats (refreshEmail w st).1.2) /\
  messagesReceived (stats (refreshEmail w st).1.2) = messagesReceived (stats st) /\
  stats_le (stats st) (stats (getMessage messageId w st).1.2) /\
  emailsCreated (stats (getMessage messageId w st).1.2) = emailsCreated (stats st) /\
  providerSwitches (stats (getMessage messageId w st).1.2) = providerSwitches (stats st).
Proof.
  assert (Hcreate : forall s,
            stats_le (stats s) (stats (createEmail w s).1.2) /\
            messagesReceived (stats (createEmail w s).1.2) = messagesReceived (stats s)).
  { intros s.
    destruct (createEmail_frame w s) as [q [(error & calls & ->)|(probes & ->)]].
    - split; [apply stats_le_refl|reflexivity].
    - pose proof (createEmail_loop_stats providerOrder w (set_currentProvider q s)) as H.
      destruct (createEmail_loop providerOrder w (set_currentProvider q s)) as [[r s'] cs].
      exact H. }
  split.
  { destruct (initialize_frame w st) as (r & q & calls & ->). reflexivity. }
  split; [apply getMessages_stats|].
  split; [apply Hcreate|]. split; [apply Hcreate|].
  rewrite refreshEmail_closed.
  destruct (Hcreate (set_messageCache ∅ (set_messages [] (set_refreshInterval None st))))
    as [Hle Hmr].
  split; [exact Hle|]. split; [exact Hmr|].
  destruct (getMessage_cases messageId w st)
    as [->|(provider & message & _ & _ & _ & _ & ->)].
  - split; [apply stats_le_refl|]. auto.
  - unfold stats_le. simpl. repeat split; lia.
Qed.

(** ** Message reading, further *)

(** X13. [getMessage] never throws; and whenever it returns [null] (no
    provider pinned, a fetch that throws, or a falsy provider answer) it
    leaves the manager exactly as it was: the failure is not cached. *)
Theorem getMessage_failure_changes_nothing messageId w st :
  (exists r, (getMessage messageId w st).1.1 = Ret r) /\
  ((getMessage messageId w st).1.1 = Ret None ->
     (getMessage messageId w st).1.2 = st).
Proof.
  destruct (getMessage_cases messageId w st)
    as [Hsame|(provider & message & _ & _ & _ & _ & Hrun)].
  - split; [|auto].
    destruct (messageCache st !! messageId) as [cached|] eqn:Hlook.
    + rewrite (getMessage_hit _ _ _ _ Hlook). eauto.
    + destruct (currentProvider st) as [provider|] eqn:Hp.
      * rewrite (getMessage_miss _ _ _ _ Hlook Hp).
        destruct (reply w (fetch_call provider st messageId)) as [message|e];
          [destruct (truthy message)|]; eauto.
      * rewrite (getMessage_unpinned _ _ _ Hlook Hp). eauto.
  - rewrite Hrun. split; [eauto|]. discriminate.
Qed.

Lemma getMessage_failure_changes_nothing_witness :
  (getMessage "43" (world_all_down 7000) alice_read_manager).1.2 = alice_read_manager.
Proof.
  exact (proj2 (getMessage_failure_changes_nothing "43" (world_all_down 7000)
                  alice_read_manager) eq_refl).
Defined.

(** X14. [getMessage(id)] touches the read cache at [id] only, and
    [messagesReceived] grows by one exactly when a detail was fetched
    from the provider; a cache hit is not counted. *)
Theorem getMessage_caches_only_requested messageId w st :
  let run := getMessage messageId w st in
  (forall other, other <> messageId ->
     messageCache run.1.2 !! other = messageCache st !! other) /\
  messagesReceived (stats run.1.2) =
    (messagesReceived (stats st) +
     match run.1.1, run.2 with
     | Ret (Some _), _ :: _ => 1
     | _, _ => 0
     end)%Z.
Proof.
  destruct (getMessage_cases messageId w st)
    as [Hsame|(provider & message & _ & _ & _ & _ & Hrun)]; cbv zeta.
  - rewrite Hsame. split; [auto|].
    destruct (messageCache st !! messageId) as [cached|] eqn:Hlook.
    + rewrite (getMessage_hit _ _ _ _ Hlook). simpl. lia.
    + destruct (currentProvider st) as [provider|] eqn:Hp.
      * revert Hsame. rewrite (getMessage_miss _ _ _ _ Hlook Hp).
        destruct (reply w (fetch_call provider st messageId)) as [message|e];
          [destruct (truthy message)|]; simpl; intros Hsame; try lia.
        apply (f_equal (fun s => messagesReceived (stats s))) in Hsame.
        simpl in Hsame. lia.
      * rewrite (getMessage_unpinned _ _ _ Hlook Hp). simpl. lia.
  - rewrite Hrun. simpl. split; [|lia].
    intros other Hne. apply lookup_insert_ne. congruence.
Qed.

Lemma getMessage_caches_only_requested_witness :
  messageCache (getMessage "42" (world_alice 6000) alice_manager).1.2 !! "7" =
    messageCache alice_manager !! "7".
Proof.
  exact (proj1 (getMessage_caches_only_requested "42" (world_alice 6000) alice_manager)
           "7" ltac:(discriminate)).
Defined.

(** ** Message listing, further *)

(** X15. Past the rate-limit window and with a mailbox, a provider
    answer that is not an array does not make [getMessages] fail and is
    not treated as an error either: the call returns the empty list and
    the stored list is replaced by the empty list (a thrown error, by
    contrast, keeps the stored list). *)
Theorem getMessages_non_array_reply w st provider raw :
  (CONFIG.CACHE_DURATION <= now w - lastRefresh st)%Z ->
  currentProvider st = Some provider ->
  truthy (login st) = true ->
  truthy (domain st) = true ->
  reply w (listing_call provider st) = Returns raw ->
  (forall items, raw <> JArr items) ->
  getMessages w st =
    (Ret [], set_messages [] (set_lastRefresh (now w) st), [listing_call provider st]).
Proof.
  intros Hout Hp Hl Hd Hr Hraw.
  rewrite (getMessages_past_window _ _ provider Hout Hp Hl Hd), Hr.
  destruct raw; try reflexivity. exfalso. eapply Hraw. reflexivity.
Qed.

Lemma getMessages_non_array_reply_witness :
  getMessages (mkWorld (fun _ => Returns (JObj [("error", JStr "rate limited")]))
                 13000 draws) alice_listed_manager =
    (Ret [],
     set_messages [] (set_lastRefresh 13000 alice_listed_manager),
     [GetMessages secmail [JStr "alice"; JStr "1secmail.com"]]).
Proof.
  apply (getMessages_non_array_reply
           (mkWorld (fun _ => Returns (JObj [("error", JStr "rate limited")])) 13000 draws)
           alice_listed_manager secmail (JObj [("error", JStr "rate limited")]));
    try reflexivity.
  - vm_compute. congruence.
  - discriminate.
Defined.

(** X16. Without a mailbox (no provider pinned, or login or domain not
    set) a [getMessages] call past the window returns the empty list
    without any provider call and without touching the stored list, but
    it stamps [lastRefresh]: a call within the next 2000 ms is then
    answered with the stored list. *)
Theorem getMessages_without_mailbox w1 w2 st :
  (CONFIG.CACHE_DURATION <= now w1 - lastRefresh st)%Z ->
  provisioned st = false ->
  (now w2 - now w1 < CONFIG.CACHE_DURATION)%Z ->
  getMessages w1 st = (Ret [], set_lastRefresh (now w1) st, []) /\
  getMessages w2 (getMessages w1 st).1.2 =
    (Ret (messages st), set_lastRefresh (now w1) st, []).
Proof.
  intros Hout Hp Hin.
  rewrite (getMessages_unprovisioned _ _ Hout Hp). split; [reflexivity|].
  cbn [fst snd]. apply (getMessages_within_window w2 (set_lastRefresh (now w1) st)).
  exact Hin.
Qed.

Lemma getMessages_without_mailbox_witness :
  getMessages (world_alice 10000) pinned_manager =
    (Ret [], set_lastRefresh 10000 pinned_manager, []) /\
  getMessages (world_alice 11000) (getMessages (world_alice 10000) pinned_manager).1.2 =
    (Ret (messages pinned_manager), set_lastRefresh 10000 pinned_manager, []).
Proof.
  apply (getMessages_without_mailbox (world_alice 10000) (world_alice 11000)
           pinned_manager); [vm_compute; congruence|reflexivity|reflexivity].
Defined.

(** ** The normalizer, further *)

Lemma last_segment_from_no_slash s :
  forall acc,
    all_chars (fun c => negb (Ascii.eqb c "/")) acc = true ->
    all_chars (fun c => negb (Ascii.eqb c "/")) (last_segment_from acc s) = true.
Proof.
  induction s as [|c s IH]; intros acc Hacc; simpl; [exact Hacc|].
  destruct (Ascii.eqb c "/") eqn:Hc.
  - apply IH. reflexivity.
  - apply IH. rewrite all_chars_append, Hacc. simpl. rewrite Hc. reflexivity.
Qed.

Lemma string_append_nil_r (a : string) : (a ++ EmptyString)%string = a.
Proof. induction a as [|x a IH]; simpl; [reflexivity|]. rewrite IH. reflexivity. Qed.

Lemma string_append_assoc (a b c : string) : ((a ++ b) ++ c)%string = (a ++ b ++ c)%string.
Proof. induction a as [|x a IH]; simpl; [reflexivity|]. rewrite IH. reflexivity. Qed.

Lemma last_segment_from_suffix s :
  forall acc, exists prefix,
    (acc ++ s)%string = (prefix ++ last_segment_from acc s)%string.
Proof.
  induction s as [|c s IH]; intros acc; simpl.
  - exists EmptyString. simpl. apply string_append_nil_r.
  - destruct (Ascii.eqb c "/").
    + destruct (IH EmptyString) as [prefix Hp]. simpl in Hp.
      exists (acc ++ String c prefix)%string.
      rewrite string_append_assoc. simpl. rewrite <- Hp. reflexivity.
    + destruct (IH (acc ++ String c EmptyString)%string) as [prefix Hp].
      exists prefix. rewrite <- Hp, string_append_assoc. reflexivity.
Qed.

Lemma last_segment_from_plain s :
  forall acc,
    all_chars (fun c => negb (Ascii.eqb c "/")) s = true ->
    last_segment_from acc s = (acc ++ s)%string.
Proof.
  induction s as [|c s IH]; intros acc Hs; simpl.
  - symmetry. apply string_append_nil_r.
  - simpl in Hs. apply andb_prop in Hs as [Hc Hs]. apply negb_true_iff in Hc.
    rewrite Hc, (IH _ Hs), string_append_assoc. reflexivity.
Qed.

(** X17. For a record without a truthy [id] or [mail_id] whose [@id] is
    a string, the summary's id is the text after the last slash of that
    string: it contains no slash, the [@id] ends with it, and it is the
    whole [@id] when that contains no slash. *)
Theorem normalize_id_from_resource_uri fields uri :
  truthy (assoc "id" fields) = false ->
  truthy (assoc "mail_id" fields) = false ->
  assoc "@id" fields = JStr uri ->
  stringish (assoc "textBody" fields) = true ->
  exists summary,
    normalizeMessages (JArr [JObj fields]) = Ret [summary] /\
    s_id summary = JStr (last_segment uri) /\
    all_chars (fun c => negb (Ascii.eqb c "/")) (last_segment uri) = true /\
    (exists prefix, uri = (prefix ++ last_segment uri)%string) /\
    (all_chars (fun c => negb (Ascii.eqb c "/")) uri = true -> last_segment uri = uri).
Proof.
  intros Hid Hmail Huri Hbody.
  assert (Hnative : native_record (JObj fields) = true)
    by (simpl; rewrite Huri, Hbody; reflexivity).
  exists (summary_of (JObj fields)). split; [|split; [|split; [|split]]].
  - unfold normalizeMessages. cbn [res_map].
    rewrite (normalize_summary_spec _ Hnative). reflexivity.
  - unfold summary_of, js_or. simpl. rewrite Hid, Hmail, Huri. reflexivity.
  - apply last_segment_from_no_slash. reflexivity.
  - destruct (last_segment_from_suffix uri EmptyString) as [prefix Hp].
    exists prefix. exact Hp.
  - intros Hplain. apply (last_segment_from_plain uri EmptyString Hplain).
Qed.

Lemma normalize_id_from_resource_uri_witness :
  exists summary,
    normalizeMessages (JArr [JObj [("@id", JStr "/messages/abc"); ("subject", JStr "")]])
      = Ret [summary] /\
    s_id summary = JStr (last_segment "/messages/abc") /\
    all_chars (fun c => negb (Ascii.eqb c "/")) (last_segment "/messages/abc") = true /\
    (exists prefix, "/messages/abc" = (prefix ++ last_segment "/messages/abc")%string) /\
    (all_chars (fun c => negb (Ascii.eqb c "/")) "/messages/abc" = true ->
     last_segment "/messages/abc" = "/messages/abc").
Proof.
  exact (normalize_id_from_resource_uri
           [("@id", JStr "/messages/abc"); ("subject", JStr "")] "/messages/abc"
           eq_refl eq_refl eq_refl eq_refl).
Defined.

Lemma continuation_byte k :
  (128 <= k < 192)%N -> is_continuation (ascii_of_N k) = true.
Proof.
  intros Hk. unfold is_continuation. rewrite N_ascii_embedding by lia.
  apply andb_true_intro. split; [apply N.leb_le|apply N.ltb_lt]; lia.
Qed.

(** A high surrogate standing alone is one code unit. *)
Lemma high_surrogate_units c b1 b2 : code_units (high_surrogate c b1 b2) = 1%nat.
Proof.
  unfold high_surrogate. cbn [code_units].
  change (is_continuation (ascii_of_N 237)) with false.
  change (is_astral (ascii_of_N 237)) with false.
  rewrite !continuation_byte.
  - reflexivity.
  - match goal with |- context [(?x mod ?m)%N] =>
      generalize (N.mod_lt x m ltac:(discriminate)); generalize (x mod m)%N end.
    intros k Hk. lia.
  - match goal with |- context [(?x mod ?m)%N] =>
      generalize (N.mod_lt x m ltac:(discriminate)); generalize (x mod m)%N end.
    intros k Hk. lia.
Qed.

Lemma take_string_units s : forall n, (code_units (take_string n s) <= n)%nat.
Proof.
  induction s as [|c rest IH]; intros n; cbn [take_string]; [simpl; lia|].
  destruct (is_continuation c) eqn:Hc.
  - cbn [code_units]. rewrite Hc. apply IH.
  - destruct n as [|n']; [simpl; lia|].
    destruct (is_astral c) eqn:Ha.
    + destruct n' as [|n''].
      * destruct rest as [|b1 [|b2 rest']]; try (simpl; lia).
        rewrite high_surrogate_units. lia.
      * cbn [code_units]. rewrite Hc, Ha. specialize (IH n''). lia.
    + cbn [code_units]. rewrite Hc, Ha. specialize (IH n'). lia.
Qed.

Lemma take_string_all s : forall n, (code_units s <= n)%nat -> take_string n s = s.
Proof.
  induction s as [|c rest IH]; intros n; cbn [take_string code_units]; [reflexivity|].
  destruct (is_continuation c) eqn:Hc.
  - intros H. rewrite IH by exact H. reflexivity.
  - destruct (is_astral c) eqn:Ha; intros H.
    + destruct n as [|[|n'']]; try lia. rewrite IH by lia. reflexivity.
    + destruct n as [|n']; try lia. rewrite IH by lia. reflexivity.
Qed.

Lemma take_string_prefix s :
  all_chars (fun c => negb (is_astral c)) s = true ->
  forall n, exists rest, s = (take_string n s ++ rest)%string.
Proof.
  induction s as [|c s IH]; cbn [all_chars take_string]; intros Hs n.
  - exists EmptyString. reflexivity.
  - apply andb_prop in Hs as [Hc Hs]. apply negb_true_iff in Hc. rewrite Hc.
    destruct (is_continuation c).
    + destruct (IH Hs n) as [rest Hr]. exists rest. simpl. congruence.
    + destruct n as [|n']; [exists (String c s); reflexivity|].
      destruct (IH Hs n') as [rest Hr]. exists rest. simpl. congruence.
Qed.

(** X18. For a record whose [textBody] is a non-empty string the preview
    is [textBody.substring(0, 100)], counted in UTF-16 code units as the
    language does: it has at most 100 code units, it is the whole text
    when that has at most 100 code units (whatever its number of bytes),
    and it is a prefix of the text when the text has no character
    outside the basic plane, where the cut cannot fall inside a
    surrogate pair; [mail_excerpt] is then ignored. *)
Theorem normalize_preview_is_prefix fields text :
  assoc "textBody" fields = JStr text ->
  text <> EmptyString ->
  stringish (assoc "@id" fields) = true ->
  exists summary,
    normalizeMessages (JArr [JObj fields]) = Ret [summary] /\
    s_preview summary = JStr (take_string 100 text) /\
    (code_units (take_string 100 text) <= 100)%nat /\
    ((code_units text <= 100)%nat -> s_preview summary = JStr text) /\
    (all_chars (fun c => negb (is_astral c)) text = true ->
     exists rest, text = (take_string 100 text ++ rest)%string).
Proof.
  intros Hbody Hne Hid.
  assert (Hnative : native_record (JObj fields) = true)
    by (simpl; rewrite Hbody, Hid; reflexivity).
  assert (Hprev : s_preview (summary_of (JObj fields)) =
                  js_or (JStr (take_string 100 text))
                    (js_or (assoc "mail_excerpt" fields) (JStr ""))).
  { unfold summary_of. cbn [s_preview field opt_string]. rewrite Hbody. reflexivity. }
  assert (Htaken : take_string 100 text <> EmptyString).
  { destruct text as [|c text]; [congruence|]. cbn [take_string].
    destruct (is_continuation c); [discriminate|].
    destruct (is_astral c); discriminate. }
  assert (Hpreview : s_preview (summary_of (JObj fields)) = JStr (take_string 100 text)).
  { rewrite Hprev. unfold js_or. cbn [truthy].
    destruct (String.eqb_spec (take_string 100 text) ""); [congruence|reflexivity]. }
  exists (summary_of (JObj fields)). split; [|split; [|split; [|split]]].
  - unfold normalizeMessages. cbn [res_map].
    rewrite (normalize_summary_spec _ Hnative). reflexivity.
  - exact Hpreview.
  - apply take_string_units.
  - intros Hlen. rewrite Hpreview, (take_string_all _ _ Hlen). reflexivity.
  - intros Hbmp. apply take_string_prefix. exact Hbmp.
Qed.

Lemma normalize_preview_is_prefix_witness :
  exists summary,
    normalizeMessages
      (JArr [JObj [("id", JNum 42); ("textBody", JStr NO_SUBJECT);
                   ("mail_excerpt", JStr "ignored")]]) = Ret [summary] /\
    s_preview summary = JStr (take_string 100 NO_SUBJECT) /\
    (code_units (take_string 100 NO_SUBJECT) <= 100)%nat /\
    ((code_units NO_SUBJECT <= 100)%nat -> s_preview summary = JStr NO_SUBJECT) /\
    (all_chars (fun c => negb (is_astral c)) NO_SUBJECT = true ->
     exists rest, NO_SUBJECT = (take_string 100 NO_SUBJECT ++ rest)%string).
Proof.
  exact (normalize_preview_is_prefix
           [("id", JNum 42); ("textBody", JStr NO_SUBJECT);
            ("mail_excerpt", JStr "ignored")] NO_SUBJECT
           eq_refl ltac:(discriminate) eq_refl).
Defined.

(** ** Polling timers *)

(** X19. [startAutoRefresh] schedules the polling with a period clamped
    into [2000, 10000] ms: a requested period inside the range is used as
    it is, a smaller one becomes 2000, a larger one 10000, and an omitted
    one is 3000; the manager then holds the new timer handle. *)
Theorem startAutoRefresh_clamps fresh interval st :
  exists ms,
    (startAutoRefresh fresh interval st).2 = (stop_timer st).2 ++ [SetInterval fresh ms] /\
    refreshInterval (startAutoRefresh fresh interval st).1 = Some fresh /\
    (CONFIG.MIN_REFRESH_INTERVAL <= ms <= CONFIG.MAX_REFRESH_INTERVAL)%Z /\
    (interval = None -> ms = CONFIG.DEFAULT_REFRESH_INTERVAL) /\
    (forall i, interval = Some i ->
       ((CONFIG.MIN_REFRESH_INTERVAL <= i <= CONFIG.MAX_REFRESH_INTERVAL)%Z -> ms = i) /\
       ((i < CONFIG.MIN_REFRESH_INTERVAL)%Z -> ms = CONFIG.MIN_REFRESH_INTERVAL) /\
       ((CONFIG.MAX_REFRESH_INTERVAL < i)%Z -> ms = CONFIG.MAX_REFRESH_INTERVAL)).
Proof.
  exists (clamp_interval (default CONFIG.DEFAULT_REFRESH_INTERVAL interval)).
  unfold startAutoRefresh. destruct (stop_timer st) as [st1 cleared]. cbn [fst snd].
  split; [reflexivity|]. split; [reflexivity|].
  unfold clamp_interval, CONFIG.MIN_REFRESH_INTERVAL, CONFIG.MAX_REFRESH_INTERVAL,
    CONFIG.DEFAULT_REFRESH_INTERVAL.
  split; [lia|]. split.
  - intros ->. reflexivity.
  - intros i ->. simpl. repeat split; lia.
Qed.

Lemma startAutoRefresh_clamps_witness :
  (startAutoRefresh 7%Z (Some 500%Z) pinned_manager).2 = [SetInterval 7%Z 2000%Z] /\
  (startAutoRefresh 8%Z (Some 999999%Z)
     (startAutoRefresh 7%Z (Some 500%Z) pinned_manager).1).2 =
    [ClearInterval 7%Z; SetInterval 8%Z 10000%Z].
Proof.
  split.
  - destruct (startAutoRefresh_clamps 7%Z (Some 500%Z) pinned_manager)
      as (ms & Hev & _ & _ & _ & Hcl).
    destruct (Hcl 500%Z eq_refl) as (_ & Hlow & _).
    rewrite Hev, (Hlow ltac:(reflexivity)). reflexivity.
  - destruct (startAutoRefresh_clamps 8%Z (Some 999999%Z)
                (startAutoRefresh 7%Z (Some 500%Z) pinned_manager).1)
      as (ms & Hev & _ & _ & _ & Hcl).
    destruct (Hcl 999999%Z eq_refl) as (_ & _ & Hhigh).
    rewrite Hev, (Hhigh ltac:(reflexivity)). reflexivity.
Defined.

Lemma live_timers_app live ev1 ev2 :
  live_timers live (ev1 ++ ev2) = live_timers (live_timers live ev1) ev2.
Proof.
  revert live. induction ev1 as [|[h ms|h] ev1 IH]; intros live; simpl; auto.
Qed.

Lemma stop_timer_live st :
  live_timers (held_timer st) (stop_timer st).2 = held_timer (stop_timer st).1 /\
  held_timer (stop_timer st).1 = [].
Proof.
  unfold stop_timer, held_timer.
  destruct (refreshInterval st) as [h|] eqn:Hr; simpl.
  - rewrite Z.eqb_refl. auto.
  - rewrite Hr. auto.
Qed.

(** [stop_timer] changes the manager as [stopAutoRefresh] does. *)
Lemma stop_timer_state w st : (stop_timer st).1 = (stopAutoRefresh w st).1.2.
Proof.
  unfold stop_timer, stopAutoRefresh. orch. simpl.
  destruct (refreshInterval st); reflexivity.
Qed.

(** X20. Interval timers never leak: if the timers scheduled are exactly
    the handle the manager holds, this still is so after any sequence of
    [startAutoRefresh] and [stopAutoRefresh] calls; so at most one
    polling timer is scheduled at any time, a restart clears the previous
    timer first, and stopping with nothing scheduled does nothing. *)
Theorem timers_never_leak ops :
  forall st,
    live_timers (held_timer st) (run_timer_ops ops st).2 =
      held_timer (run_timer_ops ops st).1 /\
    (length (held_timer (run_timer_ops ops st).1) <= 1)%nat.
Proof.
  induction ops as [|op rest IH]; intros st.
  - simpl. split; [reflexivity|]. unfold held_timer. destruct (refreshInterval st); simpl; lia.
  - cbn [run_timer_ops].
    assert (Hop : forall st1 ev1,
               (match op with
                | OpStart fresh interval => startAutoRefresh fresh interval st
                | OpStop => stop_timer st
                end) = (st1, ev1) ->
               live_timers (held_timer st) ev1 = held_timer st1).
    { intros st1 ev1. destruct op as [fresh interval|].
      - unfold startAutoRefresh.
        destruct (stop_timer_live st) as [Hlive Hnone].
        destruct (stop_timer st) as [st0 cleared]. cbn [fst snd] in *.
        intros [= <- <-]. rewrite live_timers_app, Hlive, Hnone. reflexivity.
      - destruct (stop_timer_live st) as [Hlive _].
        destruct (stop_timer st) as [st0 cleared]. cbn [fst snd] in *.
        intros [= <- <-]. exact Hlive. }
    destruct (match op with
              | OpStart fresh interval => startAutoRefresh fresh interval st
              | OpStop => stop_timer st
              end) as [st1 ev1].
    specialize (Hop st1 ev1 eq_refl). specialize (IH st1).
    destruct (run_timer_ops rest st1) as [st2 ev2]. cbn [fst snd] in *.
    rewrite live_timers_app, Hop. exact IH.
Qed.

(** ** The legacy facade *)

Lemma api_createEmail_closed w api :
  error_objects w = true ->
  exists q,
    api_createEmail w api =
      (Ret (walk_outcome w providerOrder (set_currentProvider q (manager api))).1,
       mkSecMailAPI
         (walk_outcome w providerOrder (set_currentProvider q (manager api))).2
         (walk_outcome w providerOrder (set_currentProvider q (manager api))).1
         (login (walk_outcome w providerOrder (set_currentProvider q (manager api))).2)
         (domain (walk_outcome w providerOrder (set_currentProvider q (manager api))).2)
         (api_messages api) (api_refreshInterval api),
       List.map CheckHealth (probed w providerOrder)
         ++ List.map CreateEmail (attempted w providerOrder)).
Proof.
  intros Hobj. destruct (error_objects_spec w Hobj) as [Hchecks _].
  unfold api_createEmail, facade_bind, on_manager, mirror_identity.
  rewrite (initialize_closed _ _ Hchecks). cbn [manager].
  destruct (createEmail_closed w
              (set_currentProvider (Some (pinned_after w (manager api))) (manager api)) Hobj)
    as (q & probes & Hc & _ & Hnone).
  rewrite (Hnone eq_refl) in Hc. rewrite Hc. simpl.
  destruct q as [q|].
  - exists (Some q). rewrite !app_nil_r. reflexivity.
  - exists None. rewrite !app_nil_r. reflexivity.
Qed.

(** X21. As long as what the providers throw are error objects, the
    facade's [createEmail] and [refreshEmail] do not throw; they return
    a valid address, and afterwards the address, login and domain cached
    by the facade are those of its manager, so that [getEmail] on the
    facade and on the manager agree. *)
Theorem facade_mirrors_identity w api :
  error_objects w = true ->
  (exists address api' calls,
      api_createEmail w api = (Ret address, api', calls) /\
      isValidEmail address = Ret true /\
      api_getEmail api' = address /\
      api_identity api' = identity (manager api') /\
      api_getEmail api' = getEmail (manager api')) /\
  (exists address api' calls,
      api_refreshEmail w api = (Ret address, api', calls) /\
      isValidEmail address = Ret true /\
      api_getEmail api' = address /\
      api_identity api' = identity (manager api') /\
      api_getEmail api' = getEmail (manager api')).
Proof.
  intros Hobj. split.
  - destruct (api_createEmail_closed w api Hobj) as (q & Hc). rewrite Hc.
    destruct (walk_outcome_valid w providerOrder (set_currentProvider q (manager api)))
      as (Hv & He & _).
    do 3 eexists. split; [reflexivity|]. split; [exact Hv|]. split; [reflexivity|].
    unfold api_identity, identity, api_getEmail, getEmail. cbn [api_login api_domain
      api_email manager]. rewrite He. auto.
  - unfold api_refreshEmail, facade_bind, on_manager, mirror_identity.
    rewrite refreshEmail_closed.
    destruct (createEmail_closed w
                (set_messageCache ∅
                   (set_messages [] (set_refreshInterval None (manager api)))) Hobj)
      as (q & probes & Hc & _ & _).
    rewrite Hc. cbn [manager].
    destruct (walk_outcome_valid w providerOrder
                (set_currentProvider q
                   (set_messageCache ∅
                      (set_messages [] (set_refreshInterval None (manager api))))))
      as (Hv & He & _).
    do 3 eexists. split; [reflexivity|]. split; [exact Hv|]. split; [reflexivity|].
    unfold api_identity, identity, api_getEmail, getEmail. cbn [api_login api_domain
      api_email manager]. rewrite He. auto.
Qed.

Lemma facade_mirrors_identity_witness :
  (exists address api' calls,
      api_createEmail world_probes newSecMailAPI = (Ret address, api', calls) /\
      isValidEmail address = Ret true /\
      api_getEmail api' = address /\
      api_identity api' = identity (manager api') /\
      api_getEmail api' = getEmail (manager api')) /\
  (exists address api' calls,
      api_refreshEmail world_probes newSecMailAPI = (Ret address, api', calls) /\
      isValidEmail address = Ret true /\
      api_getEmail api' = address /\
      api_identity api' = identity (manager api') /\
      api_getEmail api' = getEmail (manager api')).
Proof. exact (facade_mirrors_identity world_probes newSecMailAPI eq_refl). Defined.

(** X22. As long as what the providers throw are error objects, the
    facade's [createEmail] runs the health probes of [initialize] on
    every call, before the priority walk, even when a provider is
    already pinned; the manager's own [createEmail] probes only when
    none is pinned. *)
Theorem facade_createEmail_always_probes w api :
  error_objects w = true ->
  (api_createEmail w api).2 =
    List.map CheckHealth (probed w providerOrder)
      ++ List.map CreateEmail (attempted w providerOrder) /\
  (is_provider (manager api) = true ->
   (createEmail w (manager api)).2 = List.map CreateEmail (attempted w providerOrder)).
Proof.
  intros Hobj. split.
  - destruct (api_createEmail_closed w api Hobj) as (q & Hc). rewrite Hc. reflexivity.
  - intros Hp.
    destruct (createEmail_closed w (manager api) Hobj) as (q & probes & Hc & _ & Hnone).
    rewrite Hc, (Hnone Hp). reflexivity.
Qed.

Lemma facade_createEmail_always_probes_witness :
  (api_createEmail world_probes (mkSecMailAPI pinned_manager JNull JNull JNull [] None)).2 =
    [CheckHealth secmail; CheckHealth mailtm; CreateEmail secmail; CreateEmail mailtm] /\
  (createEmail world_probes
     (manager (mkSecMailAPI pinned_manager JNull JNull JNull [] None))).2 =
    [CreateEmail secmail; CreateEmail mailtm].
Proof.
  split.
  - exact (proj1 (facade_createEmail_always_probes world_probes
                    (mkSecMailAPI pinned_manager JNull JNull JNull [] None) eq_refl)).
  - exact (proj2 (facade_createEmail_always_probes world_probes
                    (mkSecMailAPI pinned_manager JNull JNull JNull [] None) eq_refl)
             eq_refl).
Defined.

(** * Properties of the provider adapters *)

Ltac prov :=
  unfold mbind, mret, prov_mbind, prov_mret, prov_bind, prov_ret, prov_try,
    self, assign, settle, date_now_p, draw, random_string, http in *.

Lemma sent_requests_map options trace :
  sent_requests (List.map (sent_with options) trace) = requests trace.
Proof.
  unfold sent_requests, requests.
  induction trace as [|[url|ms] trace IH]; simpl; auto.
Qed.

Lemma health_request_bound (pf : Platform) k url :
  (requests (fetchWithRetry (net pf) k url 1).2 <= 2)%nat.
Proof. pose proof (fetchWithRetry_trace_shape (net pf) url 1 k) as [[_ H] _]. exact H. Qed.

(** A response returned by the retry client is a successful one the
    network gave. *)
Lemma fetchWithRetry_answered net url retries :
  forall k response,
    (fetchWithRetry net k url retries).1 = Ret response ->
    exists i, net i = Responds response /\ ok response = true.
Proof.
  assert (Hok : forall o response, attempt o = Ret response ->
                                   o = Responds response /\ ok response = true).
  { intros [r|e|] response; simpl; try discriminate.
    destruct (ok r) eqn:Hr; [|discriminate]. intros [= <-]. auto. }
  induction retries as [|r IH]; intros k response; cbn [fetchWithRetry].
  - destruct (attempt (net k)) as [resp|error] eqn:Ha; cbn [fst snd]; [|discriminate].
    intros [= <-]. exists k. apply Hok. exact Ha.
  - destruct (attempt (net k)) as [resp|error] eqn:Ha.
    + cbn [fst snd]. intros [= <-]. exists k. apply Hok. exact Ha.
    + destruct (name_includes_Abort error) as [[|]|e]; try (cbn [fst]; discriminate).
      specialize (IH (S k) response).
      destruct (fetchWithRetry net (S k) url r) as [res trace].
      cbn [fst snd] in *. exact IH.
Qed.

Lemma string_array_inv v :
  string_array v = true -> exists items, v = JArr items /\ forallb is_string items = true.
Proof. destruct v; simpl; try discriminate. eauto. Qed.

Lemma string_array_kept v : string_array v = true -> string_array (js_or v (JArr [])) = true.
Proof. intros H. destruct (string_array_inv v H) as (items & -> & _). exact H. Qed.

(** An element drawn from a non-empty array of strings is a string. *)
Lemma array_element_string first others r :
  string_array (JArr (first :: others)) = true ->
  exists host, array_element (first :: others) r = JStr host.
Proof.
  cbn [string_array]. intros H. unfold array_element.
  assert (Hin : In (nth (r mod length (first :: others)) (first :: others) JUndefined)
                  (first :: others)).
  { apply nth_In. apply Nat.mod_upper_bound. discriminate. }
  pose proof (proj1 (forallb_forall _ _) H _ Hin) as Hs.
  destruct (nth (r mod length (first :: others)) (first :: others) JUndefined);
    try discriminate. eauto.
Qed.

Section AdapterProperties.

Variable length_positive : JsVal -> bool.
Variable random_element : JsVal -> nat -> JsVal.

(** X23. The health checks of the three adapters never throw: each
    returns the flag it has just stored in [isHealthy], issues at most
    two requests (one retry), and returns [false] whenever its request
    fails. *)
Theorem checkHealth_never_throws pf cur :
  (forall s, exists b s' cur' trace,
      sm_checkHealth pf s cur = (Ret b, s', cur', trace) /\
      sm_isHealthy s' = b /\
      (sent_requests trace <= 2)%nat /\
      (forall e, (fetchWithRetry (net pf) (requests_made cur)
                    (sm_baseURL ++ "?action=getDomainList") 1).1 = Throw e ->
                 sm_isHealthy s' = false)) /\
  (forall s, exists b s' cur' trace,
      mt_checkHealth length_positive pf s cur = (Ret b, s', cur', trace) /\
      mt_isHealthy s' = b /\
      (sent_requests trace <= 2)%nat /\
      (forall e, (fetchWithRetry (net pf) (requests_made cur)
                    (mt_baseURL ++ "/domains") 1).1 = Throw e ->
                 mt_isHealthy s' = false)) /\
  (forall s, exists b s' cur' trace,
      gm_checkHealth pf s cur = (Ret b, s', cur', trace) /\
      gm_isHealthy s' = b /\
      (sent_requests trace <= 2)%nat /\
      (forall e, (fetchWithRetry (net pf) (requests_made cur)
                    (gm_baseURL ++ "?f=get_email_address&ip=127.0.0.1") 1).1 = Throw e ->
                 gm_isHealthy s' = false)).
Proof.
  split; [|split]; intros s.
  - unfold sm_checkHealth. prov.
    pose proof (health_request_bound pf (requests_made cur)
                  (sm_baseURL ++ "?action=getDomainList")) as Hb.
    destruct (fetchWithRetry (net pf) (requests_made cur)
                (sm_baseURL ++ "?action=getDomainList") 1) as [[response|e] trace];
      cbn [fst snd] in *.
    + destruct (json response) as [domains|e]; simpl;
        do 4 eexists; (split; [reflexivity|]); (split; [reflexivity|]);
        rewrite ?app_nil_r, sent_requests_map; (split; [exact Hb|]); discriminate.
    + simpl. do 4 eexists. split; [reflexivity|]. split; [reflexivity|].
      rewrite ?app_nil_r, sent_requests_map. split; [exact Hb|]. reflexivity.
  - unfold mt_checkHealth. prov.
    pose proof (health_request_bound pf (requests_made cur) (mt_baseURL ++ "/domains")) as Hb.
    destruct (fetchWithRetry (net pf) (requests_made cur) (mt_baseURL ++ "/domains") 1)
      as [[response|e] trace]; cbn [fst snd] in *.
    + destruct (json response) as [data|e]; simpl;
        [destruct (get data "hydra:member") as [member|e]; simpl;
           [destruct (if nullish member then Ret false
                      else length_gt_zero length_positive member) as [positive|e]; simpl|]|];
        do 4 eexists; (split; [reflexivity|]); (split; [reflexivity|]);
        rewrite ?app_nil_r, sent_requests_map; (split; [exact Hb|]); discriminate.
    + simpl. do 4 eexists. split; [reflexivity|]. split; [reflexivity|].
      rewrite ?app_nil_r, sent_requests_map. split; [exact Hb|]. reflexivity.
  - unfold gm_checkHealth. prov.
    pose proof (health_request_bound pf (requests_made cur)
                  (gm_baseURL ++ "?f=get_email_address&ip=127.0.0.1")) as Hb.
    destruct (fetchWithRetry (net pf) (requests_made cur)
                (gm_baseURL ++ "?f=get_email_address&ip=127.0.0.1") 1)
      as [[response|e] trace]; cbn [fst snd] in *.
    + destruct (json response) as [data|e]; simpl;
        [destruct (get data "email_addr") as [address|e]; simpl|];
        do 4 eexists; (split; [reflexivity|]); (split; [reflexivity|]);
        rewrite ?app_nil_r, sent_requests_map; (split; [exact Hb|]); discriminate.
    + simpl. do 4 eexists. split; [reflexivity|]. split; [reflexivity|].
      rewrite ?app_nil_r, sent_requests_map. split; [exact Hb|]. reflexivity.
Qed.

(** X24. Without a credential the token-based adapters do not touch the
    network: mail.tm's and Guerrilla Mail's [getMessages] return the
    empty array and their [getMessage] returns [null], with no request
    and no change of state; this is the case for a fresh adapter. *)
Theorem reads_without_credential pf cur id :
  (forall s, truthy (mt_token s) = false ->
     mt_getMessages pf s cur = (Ret (JArr []), s, cur, []) /\
     mt_getMessage id pf s cur = (Ret JNull, s, cur, [])) /\
  (forall s, truthy (gm_sidToken s) = false ->
     gm_getMessages pf s cur = (Ret (JArr []), s, cur, []) /\
     gm_getMessage id pf s cur = (Ret JNull, s, cur, [])) /\
  truthy (mt_token newMailTmProvider) = false /\
  truthy (gm_sidToken newGuerrillaMailProvider) = false.
Proof.
  split; [|split; [|split; reflexivity]]; intros s Ht.
  - unfold mt_getMessages, mt_getMessage. prov. rewrite Ht. auto.
  - unfold gm_getMessages, gm_getMessage. prov. rewrite Ht. auto.
Qed.

Lemma res_filter_none {A} (f : A -> Res bool) (l : list A) :
  Forall (fun x => f x = Ret false) l -> res_filter f l = Ret [].
Proof.
  induction 1 as [|x l Hx _ IH]; simpl; [reflexivity|].
  rewrite Hx. unfold mbind, res_mbind. simpl. rewrite IH. reflexivity.
Qed.

(** X25. When the domain list of mail.tm holds no active domain (the
    [hydra:member] property is missing, or none of its entries has a
    truthy [isActive]), [createEmail] throws "No domains available"
    after the single domain request: no account is registered, no random
    draw is made and the adapter's state is unchanged. *)
Theorem mt_createEmail_no_domains pf s cur response data fields :
  net pf (requests_made cur) = Responds response ->
  ok response = true ->
  json response = Ret data ->
  data = JObj fields ->
  (nullish (assoc "hydra:member" fields) = true \/
   exists items,
     assoc "hydra:member" fields = JArr items /\
     Forall (fun d => nullish d = false /\ truthy (field d "isActive") = false) items) ->
  mt_createEmail pf s cur =
    (Throw (mkError "Error" "No domains available"), s,
     mkCursor (requests_made cur + 1) (clock_reads cur) (draws_made cur),
     [Sent (mt_baseURL ++ "/domains") NO_OPTIONS]).
Proof.
  intros Hn Hok Hj -> Hmember.
  assert (Hnone : active_domains (assoc "hydra:member" fields) = Ret []).
  { destruct Hmember as [Hnull|(items & -> & Hall)].
    - destruct (assoc "hydra:member" fields); try discriminate; reflexivity.
    - unfold active_domains.
      rewrite res_filter_none; [reflexivity|].
      eapply Forall_impl; [exact Hall|]. intros d [Hd Ha]. simpl in *.
      destruct d; try discriminate; simpl in *; unfold mbind, res_mbind; simpl;
        rewrite ?Ha; reflexivity. }
  unfold mt_createEmail, mt_getDomains. prov.
  rewrite (fetchWithRetry_success (net pf) _ (requests_made cur) _ response)
    by (rewrite Hn; simpl; rewrite Hok; reflexivity).
  rewrite Hj. simpl. rewrite Hnone. reflexivity.
Qed.

#[local] Arguments generateRandomString : simpl never.
#[local] Arguments js_toString : simpl never.
#[local] Arguments array_element : simpl never.
#[local] Arguments String.append : simpl never.

(** X26. mail.tm's [createEmail] is a three-request transaction: the
    domain list, the account registration and the token request. With an
    active domain and a successful registration it draws a 12-character
    login, a domain of the list and a 16-character password followed by
    "!A1", and, the drawn domain being a string, registers
    [login@domain]. If the token request succeeds, the token and the
    account id are stored and returned with the address; if the token
    request fails, the error propagates with the account id already
    overwritten and the token left as it was. *)
Theorem mt_createEmail_transaction pf s cur r1 fields first others host r2 account :
  let k := requests_made cur in
  let login := generateRandomString 12 true (fun i => entropy pf (draws_made cur + i)%nat) in
  let password :=
    (generateRandomString 16 true (fun i => entropy pf (S (draws_made cur + 12) + i)%nat)
       ++ "!A1")%string in
  let email := (login ++ "@" ++ host)%string in
  net pf k = Responds r1 -> ok r1 = true -> json r1 = Ret (JObj fields) ->
  active_domains (assoc "hydra:member" fields) = Ret (first :: others) ->
  array_element (first :: others) (entropy pf (draws_made cur + 12)%nat) = JStr host ->
  net pf (k + 1)%nat = Responds r2 -> ok r2 = true -> json r2 = Ret account ->
  nullish account = false ->
  (forall r3 granted,
      net pf (k + 1 + 1)%nat = Responds r3 -> ok r3 = true -> json r3 = Ret granted ->
      nullish granted = false ->
      exists cur',
        mt_createEmail pf s cur =
          (Ret (JObj [("login", JStr login); ("domain", JStr host); ("email", JStr email);
                      ("password", JStr password); ("token", field granted "token")]),
           mkMailTm (field granted "token") (field account "id") (mt_isHealthy s),
           cur',
           [Sent (mt_baseURL ++ "/domains") NO_OPTIONS;
            Sent (mt_baseURL ++ "/accounts") (mt_post email password);
            Sent (mt_baseURL ++ "/token") (mt_post email password)]) /\
        requests_made cur' = (k + 3)%nat /\
        draws_made cur' = (draws_made cur + 29)%nat) /\
  (forall e,
      (fetchWithRetry (net pf) (k + 1 + 1) (mt_baseURL ++ "/token") DEFAULT_RETRIES).1
        = Throw e ->
      exists cur' trace,
        mt_createEmail pf s cur =
          (Throw e, mkMailTm (mt_token s) (field account "id") (mt_isHealthy s),
           cur', trace)).
Proof.
  intros k login password email Hn1 Hok1 Hj1 Hdom Hhost Hn2 Hok2 Hj2 Hacc.
  subst k login password email.
  split.
  - intros r3 granted Hn3 Hok3 Hj3 Hgr.
    unfold mt_createEmail, mt_getDomains. prov.
    rewrite (fetchWithRetry_success (net pf) _ (requests_made cur) _ r1)
      by (rewrite Hn1; simpl; rewrite Hok1; reflexivity).
    rewrite Hj1. cbn [get fst snd]. rewrite Hdom.
    cbn [requests List.filter length Nat.add requests_made clock_reads draws_made].
    unfold requests. cbn [List.filter length requests_made clock_reads draws_made Nat.max].
    rewrite Hhost. cbn [to_string stringifies].
    change (js_toString (JStr host)) with host.
    rewrite (fetchWithRetry_success (net pf) _ (requests_made cur + 1) _ r2)
      by (rewrite Hn2; simpl; rewrite Hok2; reflexivity).
    rewrite Hj2, (get_present _ _ Hacc).
    cbn [List.filter length requests_made clock_reads draws_made].
    rewrite (fetchWithRetry_success (net pf) _ (requests_made cur + 1 + 1) _ r3)
      by (rewrite Hn3; simpl; rewrite Hok3; reflexivity).
    rewrite Hj3, (get_present _ _ Hgr).
    eexists. split; [reflexivity|]. simpl. lia.
  - intros e Hthrow.
    unfold mt_createEmail, mt_getDomains. prov.
    rewrite (fetchWithRetry_success (net pf) _ (requests_made cur) _ r1)
      by (rewrite Hn1; simpl; rewrite Hok1; reflexivity).
    rewrite Hj1. cbn [get fst snd]. rewrite Hdom.
    unfold requests. cbn [List.filter length requests_made clock_reads draws_made Nat.max].
    rewrite Hhost. cbn [to_string stringifies].
    change (js_toString (JStr host)) with host.
    rewrite (fetchWithRetry_success (net pf) _ (requests_made cur + 1) _ r2)
      by (rewrite Hn2; simpl; rewrite Hok2; reflexivity).
    rewrite Hj2, (get_present _ _ Hacc).
    cbn [List.filter length requests_made clock_reads draws_made].
    destruct (fetchWithRetry (net pf) (requests_made cur + 1 + 1) (mt_baseURL ++ "/token")
                DEFAULT_RETRIES) as [res trace].
    cbn [fst] in Hthrow. subst res. do 2 eexists. reflexivity.
Qed.

(** A drawn domain that cannot be converted to a string makes mail.tm's
    [createEmail] throw after the domain request and the draws, before
    any account is registered. *)
Example mt_createEmail_unconvertible_domain :
  let pf := mkPlatform
              (fun _ => Responds (json_response
                 (JObj [("hydra:member",
                         JArr [JObj [("domain", JObj [("toString", JNum 0)]);
                                     ("isActive", JBool true)]])])))
              (fun i => 1000 * Z.of_nat i)%Z draws in
  mt_createEmail pf newMailTmProvider start =
    (Throw conversion_error, newMailTmProvider, mkCursor 1 0 29,
     [Sent (mt_baseURL ++ "/domains") NO_OPTIONS]).
Proof. vm_compute. reflexivity. Qed.

Lemma split_from_plain sep s :
  forall acc,
    all_chars (fun c => negb (Ascii.eqb c sep)) s = true ->
    split_from sep acc s = [(acc ++ s)%string].
Proof.
  induction s as [|c s IH]; intros acc Hs; cbn [split_from].
  - rewrite string_append_nil_r. reflexivity.
  - cbn [all_chars] in Hs. apply andb_prop in Hs as [Hc Hs]. apply negb_true_iff in Hc.
    rewrite Hc, (IH _ Hs), string_append_assoc. reflexivity.
Qed.

Lemma split_from_once sep l d :
  forall acc,
    all_chars (fun c => negb (Ascii.eqb c sep)) l = true ->
    split_from sep acc (l ++ String sep d) =
      (acc ++ l)%string :: split_from sep EmptyString d.
Proof.
  induction l as [|c l IH]; intros acc Hl.
  - change (EmptyString ++ String sep d)%string with (String sep d).
    cbn [split_from]. rewrite Ascii.eqb_refl, string_append_nil_r. reflexivity.
  - cbn [all_chars] in Hl. apply andb_prop in Hl as [Hc Hl]. apply negb_true_iff in Hc.
    change (String c l ++ String sep d)%string with (String c (l ++ String sep d)).
    cbn [split_from]. rewrite Hc, (IH _ Hl), string_append_assoc. reflexivity.
Qed.

Lemma js_split_address local host :
  all_chars (fun c => negb (Ascii.eqb c "@")) local = true ->
  all_chars (fun c => negb (Ascii.eqb c "@")) host = true ->
  js_split "@" (local ++ String "@" host) = [local; host].
Proof.
  intros Hl Hh. unfold js_split.
  rewrite (split_from_once "@" local host EmptyString Hl).
  rewrite (split_from_plain "@" host EmptyString Hh). reflexivity.
Qed.

(** X27. Guerrilla Mail's [createEmail] stores the session token of the
    answer before it looks at the address. For an address [local@host]
    with a single at sign it returns login [local], domain [host], the
    address and the session token, and the orchestrator accepts that
    result exactly when the address passes [isValidEmail]; when the
    answer carries no address it throws a [TypeError], with the new
    session token already stored. *)
Theorem gm_createEmail_splits pf s cur response data :
  net pf (requests_made cur) = Responds response ->
  ok response = true ->
  json response = Ret data ->
  nullish data = false ->
  let cur' := mkCursor (requests_made cur + 1) (clock_reads cur) (draws_made cur) in
  let sent := [Sent (gm_baseURL ++ "?f=get_email_address&ip=127.0.0.1&agent=T3N_Mail")
                 NO_OPTIONS] in
  let s' := mkGuerrilla (field data "sid_token") (gm_isHealthy s) in
  (forall local host,
      field data "email_addr" = JStr (local ++ String "@" host) ->
      all_chars (fun c => negb (Ascii.eqb c "@")) local = true ->
      all_chars (fun c => negb (Ascii.eqb c "@")) host = true ->
      let result :=
        JObj [("login", JStr local); ("domain", JStr host);
              ("email", JStr (local ++ String "@" host));
              ("sidToken", field data "sid_token")] in
      gm_createEmail pf s cur = (Ret result, s', cur', sent) /\
      isValidEmail (JStr (local ++ String "@" host)) = Ret (valid_result result)) /\
  (nullish (field data "email_addr") = true ->
   exists e, gm_createEmail pf s cur = (Throw e, s', cur', sent)).
Proof.
  intros Hn Hok Hj Hdata cur' sent s'. subst cur' sent s'.
  split.
  - intros local host Haddr Hl Hh result. subst result. split.
    + unfold gm_createEmail. prov.
      rewrite (fetchWithRetry_success (net pf) _ (requests_made cur) _ response)
        by (rewrite Hn; simpl; rewrite Hok; reflexivity).
      rewrite Hj, !(get_present _ _ Hdata), Haddr.
      cbn [split_at_sign]. rewrite (js_split_address _ _ Hl Hh). reflexivity.
    + unfold valid_result. cbn [truthy field assoc String.eqb Ascii.eqb Bool.eqb].
      rewrite isValidEmail_cases. cbn [stringifies js_toString andb].
      replace (negb (String.eqb (local ++ String "@" host) ""))%string with true
        by (destruct local; reflexivity).
      reflexivity.
  - intros Hnull. unfold gm_createEmail. prov.
    rewrite (fetchWithRetry_success (net pf) _ (requests_made cur) _ response)
      by (rewrite Hn; simpl; rewrite Hok; reflexivity).
    rewrite Hj, !(get_present _ _ Hdata).
    destruct (field data "email_addr"); try discriminate; eexists; reflexivity.
Qed.

Lemma sm_checkHealth_total pf s cur :
  exists b s' cur' trace,
    sm_checkHealth pf s cur = (Ret b, s', cur', trace) /\
    (sent_requests trace <= 2)%nat /\
    draws_made cur' = draws_made cur /\
    (answers_string_arrays pf -> string_array (sm_domains s) = true ->
     string_array (sm_domains s') = true) /\
    (forall e,
        (fetchWithRetry (net pf) (requests_made cur)
           (sm_baseURL ++ "?action=getDomainList") 1).1 = Throw e ->
        s' = mkSecMail (sm_domains s) false (sm_lastHealthCheck s)).
Proof.
  unfold sm_checkHealth. prov.
  pose proof (health_request_bound pf (requests_made cur)
                (sm_baseURL ++ "?action=getDomainList")) as Hb.
  pose proof (fetchWithRetry_answered (net pf) (sm_baseURL ++ "?action=getDomainList") 1
                (requests_made cur)) as Hfrom.
  destruct (fetchWithRetry (net pf) (requests_made cur)
              (sm_baseURL ++ "?action=getDomainList") 1) as [[response|e] trace];
    cbn [fst snd] in *.
  - destruct (Hfrom response eq_refl) as (i & Hi & Hok).
    destruct (json response) as [domains|e] eqn:Hj; cbn -[sent_requests js_or];
      do 4 eexists; (split; [reflexivity|]);
      rewrite ?app_nil_r, sent_requests_map; (split; [exact Hb|]);
      (split; [reflexivity|]); (split; [|discriminate]).
    + intros Hans _. cbn [sm_domains]. apply string_array_kept.
      exact (Hans i _ _ Hi Hok Hj).
    + intros _ Hs. exact Hs.
  - cbn -[sent_requests]. do 4 eexists. split; [reflexivity|].
    rewrite ?app_nil_r, sent_requests_map. auto.
Qed.

(** On arrays the two given operations are the exact ones. *)
Hypothesis length_positive_array :
  forall items, length_positive (JArr items) = nonempty_array (JArr items).
Hypothesis random_element_array :
  forall items r, random_element (JArr items) r = array_element items r.

Lemma length_gt_zero_array items :
  length_gt_zero length_positive (JArr items) = Ret (nonempty_array (JArr items)).
Proof. unfold length_gt_zero. cbn [numeric_length get_length res_bind stringifies].
  rewrite length_positive_array. reflexivity. Qed.

Lemma element_at_random_array items r :
  element_at_random random_element (JArr items) r = Ret (array_element items r).
Proof. unfold element_at_random. cbn [numeric_length get_length res_bind stringifies].
  rewrite random_element_array. reflexivity. Qed.

Lemma length_is_zero_array items :
  length_is_zero (JArr items) = Ret (match items with [] => true | _ => false end).
Proof. destruct items; reflexivity. Qed.

(** The list [getDomains] hands over once the adapter holds an array of
    strings: that array, or the built-in list when it is empty. *)
Lemma chosen_domains items :
  forallb is_string items = true ->
  exists first others,
    (if nonempty_array (JArr items) then JArr items
     else JArr (List.map JStr BUILTIN_DOMAINS)) = JArr (first :: others) /\
    string_array (JArr (first :: others)) = true.
Proof.
  intros H. destruct items as [|x rest]; cbn [nonempty_array].
  - do 2 eexists. split; reflexivity.
  - exists x, rest. split; [reflexivity|exact H].
Qed.

Lemma sm_getDomains_strings pf s cur :
  answers_string_arrays pf ->
  string_array (sm_domains s) = true ->
  exists first others s' cur' trace,
    sm_getDomains length_positive pf s cur =
      (Ret (JArr (first :: others)), s', cur', trace) /\
    string_array (JArr (first :: others)) = true /\
    (sent_requests trace <= 2)%nat /\
    draws_made cur' = draws_made cur /\
    string_array (sm_domains s') = true.
Proof.
  intros Hans Hs.
  destruct (string_array_inv _ Hs) as (items & Hitems & Hall).
  unfold sm_getDomains. prov. rewrite Hitems, length_is_zero_array.
  destruct items as [|x rest].
  - cbn -[sent_requests sm_checkHealth length_gt_zero BUILTIN_DOMAINS].
    destruct (sm_checkHealth_total pf s cur)
      as (b & s' & cur' & trace & Hrun & Hb & Hd & Hinv & _).
    rewrite Hrun. pose proof (Hinv Hans Hs) as Hs'.
    destruct (string_array_inv _ Hs') as (items' & Hitems' & Hall').
    rewrite Hitems', length_gt_zero_array.
    destruct items' as [|y more]; cbn -[sent_requests];
      do 5 eexists; (split; [reflexivity|]); rewrite ?app_nil_r;
      (split; [first [reflexivity|exact Hall']|]); auto.
  - cbn -[sent_requests sm_checkHealth length_gt_zero BUILTIN_DOMAINS Z.ltb].
    destruct (60000 <? clock pf (clock_reads cur) - sm_lastHealthCheck s)%Z.
    + destruct (sm_checkHealth_total pf s
                  (mkCursor (requests_made cur) (S (clock_reads cur)) (draws_made cur)))
        as (b & s' & cur' & trace & Hrun & Hb & Hd & Hinv & _).
      rewrite Hrun. pose proof (Hinv Hans Hs) as Hs'.
      destruct (string_array_inv _ Hs') as (items' & Hitems' & Hall').
      rewrite Hitems', length_gt_zero_array.
      destruct items' as [|y more]; cbn -[sent_requests];
        do 5 eexists; (split; [reflexivity|]); rewrite ?app_nil_r;
        (split; [first [reflexivity|exact Hall']|]); auto.
    + rewrite Hitems, length_gt_zero_array. cbn -[sent_requests].
      do 5 eexists. split; [reflexivity|]. split; [exact Hall|].
      split; [unfold sent_requests; simpl; lia|]. split; [reflexivity|exact Hs].
Qed.

Lemma random_string_length (pf : Platform) base :
  String.length (generateRandomString 12 true (fun i => entropy pf (base + i)%nat)) = 12%nat.
Proof.
  destruct (generateRandomString_shape 12 true (fun i => entropy pf (base + i)%nat))
    as (c & rest & -> & _ & Hlen). exact Hlen.
Qed.

(** X28. As long as the cached domain list and every JSON body the
    network answers with are arrays of strings, 1secmail's [createEmail]
    never throws, whatever else the network does (connection failures,
    timeouts, HTTP errors, bodies that are not JSON): it returns a result
    with a 12-character login, a domain that is a string and the address
    [login@domain], after at most two requests (the health check of the
    domain list, with one retry) and 13 random draws, and the adapter
    still holds an array of strings. So with such answers 1secmail can
    fail in the orchestrator's walk only through the address test, never
    by an exception. *)
Theorem sm_createEmail_never_throws pf s cur :
  answers_string_arrays pf ->
  string_array (sm_domains s) = true ->
  exists login host s' cur' trace,
    sm_createEmail length_positive random_element pf s cur =
      (Ret (JObj [("login", JStr login); ("domain", JStr host);
                  ("email", JStr (login ++ "@" ++ host))]),
       s', cur', trace) /\
    String.length login = 12%nat /\
    (sent_requests trace <= 2)%nat /\
    draws_made cur' = (draws_made cur + 13)%nat /\
    string_array (sm_domains s') = true.
Proof.
  intros Hans Hs.
  destruct (sm_getDomains_strings pf s cur Hans Hs)
    as (first & others & s' & cur' & trace & Hrun & Hstr & Hb & Hd & Hs').
  unfold sm_createEmail. prov. rewrite Hrun.
  cbn [draws_made requests_made clock_reads].
  rewrite element_at_random_array.
  destruct (array_element_string first others (entropy pf (draws_made cur' + Nat.max 1 12))
              Hstr) as [host Hhost].
  rewrite Hhost. cbn [to_string stringifies].
  change (js_toString (JStr host)) with host.
  exists (generateRandomString 12 true (fun i => entropy pf (draws_made cur' + i)%nat)), host.
  do 3 eexists. split; [reflexivity|].
  split; [apply random_string_length|].
  split; [rewrite !app_nil_r; exact Hb|].
  split; [|exact Hs'].
  cbn [draws_made]. rewrite Hd. simpl. lia.
Qed.

Ltac builtin_host login dom tld :=
  apply isValidEmail_shape; exists login, dom, tld;
  split; [reflexivity|]; repeat split; auto; try discriminate; simpl; lia.

Lemma builtin_domains_valid login host :
  login <> EmptyString ->
  all_chars local_class login = true ->
  In host BUILTIN_DOMAINS ->
  isValidEmail (JStr (login ++ "@" ++ host)) = Ret true.
Proof.
  intros Hne Hall Hin. unfold BUILTIN_DOMAINS in Hin. simpl in Hin.
  destruct Hin as [<-|[<-|[<-|[<-|[<-|[<-|[<-|[<-|[]]]]]]]]].
  - builtin_host login "1secmail" "com".
  - builtin_host login "1secmail" "org".
  - builtin_host login "1secmail" "net".
  - builtin_host login "kzccv" "com".
  - builtin_host login "qiott" "com".
  - builtin_host login "wuuvo" "com".
  - builtin_host login "icznn" "com".
  - builtin_host login "vjuum" "com".
Qed.

Lemma builtin_element r :
  exists host,
    array_element (List.map JStr BUILTIN_DOMAINS) r = JStr host /\ In host BUILTIN_DOMAINS.
Proof.
  unfold array_element, BUILTIN_DOMAINS. cbn [List.map length].
  pose proof (Nat.mod_upper_bound r 8 ltac:(lia)) as Hlt.
  destruct (r mod 8)%nat as [|[|[|[|[|[|[|[|n]]]]]]]];
    try (eexists; split; [reflexivity|]; simpl; tauto).
  lia.
Qed.

(** X29. With an empty cached domain list and an unreachable domain
    endpoint, 1secmail's [createEmail] still returns an address: its
    domain is one of the eight built-in domains, the adapter is flagged
    unhealthy, and the result passes the orchestrator's acceptance
    test. *)
Theorem sm_createEmail_offline pf s cur e :
  sm_domains s = JArr [] ->
  (fetchWithRetry (net pf) (requests_made cur)
     (sm_baseURL ++ "?action=getDomainList") 1).1 = Throw e ->
  exists login host s' cur' trace,
    sm_createEmail length_positive random_element pf s cur =
      (Ret (JObj [("login", JStr login); ("domain", JStr host);
                  ("email", JStr (login ++ "@" ++ host))]),
       s', cur', trace) /\
    In host BUILTIN_DOMAINS /\
    valid_result (JObj [("login", JStr login); ("domain", JStr host);
                        ("email", JStr (login ++ "@" ++ host))]) = true /\
    sm_isHealthy s' = false.
Proof.
  intros Hdom Hthrow.
  destruct (sm_checkHealth_total pf s cur)
    as (b & s' & cur' & trace & Hrun & _ & _ & _ & Hfail).
  specialize (Hfail e Hthrow). subst s'.
  unfold sm_createEmail, sm_getDomains. prov. rewrite Hdom in *.
  rewrite length_is_zero_array. rewrite Hrun. cbn [sm_domains fst snd].
  rewrite length_gt_zero_array. cbn [nonempty_array].
  cbn [draws_made requests_made clock_reads].
  rewrite element_at_random_array.
  match goal with
  | |- context [array_element (List.map JStr BUILTIN_DOMAINS) ?r] =>
      destruct (builtin_element r) as (host & Hel & Hin); rewrite Hel
  end.
  cbn [to_string stringifies]. change (js_toString (JStr host)) with host.
  exists (generateRandomString 12 true (fun i => entropy pf (draws_made cur' + i)%nat)), host.
  do 3 eexists. split; [reflexivity|]. split; [exact Hin|]. split; [|reflexivity].
  destruct (generateRandomString_shape 12 true (fun i => entropy pf (draws_made cur' + i)%nat))
    as (c & rest & Hgen & _ & _).
  assert (Hvalid : isValidEmail
            (JStr (generateRandomString 12 true
                     (fun i => entropy pf (draws_made cur' + i)%nat) ++ "@" ++ host))
            = Ret true).
  { apply builtin_domains_valid; [rewrite Hgen; discriminate| |exact Hin].
    apply (all_chars_weaken (fun c => is_alpha c || is_digit c)).
    - intros a Ha. unfold local_class. rewrite Ha. reflexivity.
    - apply generateRandomString_alnum. }
  unfold valid_result. cbn [truthy field assoc]. cbv [String.eqb Ascii.eqb Bool.eqb].
  cbn [truthy field assoc]. rewrite Hvalid, Hgen. reflexivity.
Qed.

(** X30. 1secmail's [getDomains] answers from its cache: with a
    non-empty cached domain list whose health check is at most 60 s old
    it returns the cached list without any request and without changing
    the adapter. *)
Theorem sm_getDomains_cached pf s cur first others :
  sm_domains s = JArr (first :: others) ->
  (clock pf (clock_reads cur) - sm_lastHealthCheck s <= 60000)%Z ->
  sm_getDomains length_positive pf s cur =
    (Ret (JArr (first :: others)), s,
     mkCursor (requests_made cur) (S (clock_reads cur)) (draws_made cur), []).
Proof.
  intros Hdom Hfresh. unfold sm_getDomains. prov. rewrite Hdom.
  rewrite length_is_zero_array.
  destruct (Z.ltb_spec 60000 (clock pf (clock_reads cur) - sm_lastHealthCheck s)); [lia|].
  cbn [fst snd]. rewrite Hdom, length_gt_zero_array. reflexivity.
Qed.

End AdapterProperties.


Lemma secmail_server_answers : answers_string_arrays secmail_server.
Proof.
  intros [|i] response data; cbn [secmail_server net]; intros [= <-]; [discriminate|].
  intros _ [= <-]. reflexivity.
Defined.

Lemma sm_createEmail_never_throws_witness :
  exists login host s' cur' trace,
    sm_createEmail on_arrays_length_positive on_arrays_random_element secmail_server
      newSecMailProvider start =
      (Ret (JObj [("login", JStr login); ("domain", JStr host);
                  ("email", JStr (login ++ "@" ++ host))]),
       s', cur', trace) /\
    String.length login = 12%nat /\
    (sent_requests trace <= 2)%nat /\
    draws_made cur' = 13%nat /\
    string_array (sm_domains s') = true.
Proof.
  exact (sm_createEmail_never_throws on_arrays_length_positive on_arrays_random_element
           (fun _ => eq_refl) (fun _ _ => eq_refl)
           secmail_server newSecMailProvider start secmail_server_answers eq_refl).
Defined.

(** The same run, computed: the first request meets a 503, the retry
    the list of two domains, of which one is drawn. *)
Example sm_createEmail_server_run :
  (sm_createEmail on_arrays_length_positive on_arrays_random_element secmail_server
     newSecMailProvider start).1.1.1 =
    Ret (JObj [("login", JStr "dkry5cjqx4bi"); ("domain", JStr "kzccv.com");
               ("email", JStr "dkry5cjqx4bi@kzccv.com")]) /\
  sent_requests
    (sm_createEmail on_arrays_length_positive on_arrays_random_element secmail_server
       newSecMailProvider start).2 = 2%nat.
Proof. split; vm_compute; reflexivity. Qed.

(** A listed domain that cannot be converted to a string makes
    1secmail's [createEmail] throw, at the template literal of the
    address. *)
Example sm_createEmail_unconvertible_domain :
  (sm_createEmail on_arrays_length_positive on_arrays_random_element secmail_unconvertible
     newSecMailProvider start).1.1.1 = Throw conversion_error.
Proof. vm_compute. reflexivity. Qed.

Lemma checkHealth_never_throws_witness :
  exists s' cur' trace,
    sm_checkHealth offline newSecMailProvider start = (Ret false, s', cur', trace) /\
    sm_isHealthy s' = false.
Proof.
  destruct (proj1 (checkHealth_never_throws on_arrays_length_positive offline start)
              newSecMailProvider)
    as (b & s' & cur' & trace & Hrun & Hflag & _ & Hfail).
  exists s', cur', trace.
  rewrite Hrun, <- Hflag, (Hfail (typeError "Failed to fetch") eq_refl). auto.
Defined.

Lemma reads_without_credential_witness :
  mt_getMessages guerrilla_server newMailTmProvider start =
    (Ret (JArr []), newMailTmProvider, start, []) /\
  gm_getMessage (JStr "42") guerrilla_server newGuerrillaMailProvider start =
    (Ret JNull, newGuerrillaMailProvider, start, []).
Proof.
  split.
  - exact (proj1 (proj1 (reads_without_credential guerrilla_server start (JStr "42"))
                    newMailTmProvider eq_refl)).
  - exact (proj2 (proj1 (proj2 (reads_without_credential guerrilla_server start (JStr "42")))
                    newGuerrillaMailProvider eq_refl)).
Defined.

Lemma mt_createEmail_no_domains_witness :
  mt_createEmail mailtm_no_active_domain newMailTmProvider start =
    (Throw (mkError "Error" "No domains available"), newMailTmProvider,
     mkCursor 1 0 0, [Sent (mt_baseURL ++ "/domains") NO_OPTIONS]).
Proof.
  apply (mt_createEmail_no_domains mailtm_no_active_domain newMailTmProvider start
           (json_response
              (JObj [("hydra:member",
                      JArr [JObj [("domain", JStr "gone.example");
                                  ("isActive", JBool false)]])]))
           _ _ eq_refl eq_refl eq_refl eq_refl).
  right. eexists. split; [reflexivity|]. repeat constructor.
Defined.

Lemma mt_createEmail_transaction_witness :
  (exists cur',
      (mt_createEmail mailtm_server newMailTmProvider start).1.1.2 =
        mkMailTm (JStr "jwt-1") (JStr "acc-1") true /\
      (mt_createEmail mailtm_server newMailTmProvider start).1.2 = cur' /\
      requests_made cur' = 3%nat /\ draws_made cur' = 29%nat) /\
  (exists cur' trace,
      mt_createEmail mailtm_token_timeout newMailTmProvider start =
        (Throw abortError, mkMailTm JNull (JStr "acc-1") true, cur', trace)).
Proof.
  split.
  - destruct (proj1 (mt_createEmail_transaction mailtm_server newMailTmProvider start
                       _ _ _ _ _ _ _ eq_refl eq_refl eq_refl eq_refl eq_refl eq_refl eq_refl
                       eq_refl eq_refl)
                (json_response (JObj [("token", JStr "jwt-1")])) _
                eq_refl eq_refl eq_refl eq_refl) as (cur' & Hrun & Hreq & Hdraws).
    exists cur'. rewrite Hrun. auto.
  - exact (proj2 (mt_createEmail_transaction mailtm_token_timeout newMailTmProvider start
                    _ _ _ _ _ _ _ eq_refl eq_refl eq_refl eq_refl eq_refl eq_refl eq_refl
                    eq_refl eq_refl) abortError eq_refl).
Defined.

Lemma gm_createEmail_splits_witness :
  gm_createEmail guerrilla_server newGuerrillaMailProvider start =
    (Ret (JObj [("login", JStr "bob"); ("domain", JStr "sharklasers.com");
                ("email", JStr "bob@sharklasers.com"); ("sidToken", JStr "sid-1")]),
     mkGuerrilla (JStr "sid-1") true, mkCursor 1 0 0,
     [Sent (gm_baseURL ++ "?f=get_email_address&ip=127.0.0.1&agent=T3N_Mail") NO_OPTIONS]).
Proof.
  exact (proj1 (proj1 (gm_createEmail_splits guerrilla_server newGuerrillaMailProvider start
                         _ _ eq_refl eq_refl eq_refl eq_refl)
                  "bob" "sharklasers.com" eq_refl eq_refl eq_refl)).
Defined.

Lemma sm_createEmail_offline_witness :
  exists login host s' cur' trace,
    sm_createEmail on_arrays_length_positive on_arrays_random_element offline
      newSecMailProvider start =
      (Ret (JObj [("login", JStr login); ("domain", JStr host);
                  ("email", JStr (login ++ "@" ++ host))]),
       s', cur', trace) /\
    In host BUILTIN_DOMAINS /\
    valid_result (JObj [("login", JStr login); ("domain", JStr host);
                        ("email", JStr (login ++ "@" ++ host))]) = true /\
    sm_isHealthy s' = false.
Proof.
  exact (sm_createEmail_offline on_arrays_length_positive on_arrays_random_element
           (fun _ => eq_refl) (fun _ _ => eq_refl)
           offline newSecMailProvider start (typeError "Failed to fetch") eq_refl eq_refl).
Defined.

Lemma sm_getDomains_cached_witness :
  sm_getDomains on_arrays_length_positive guerrilla_server secmail_cached start =
    (Ret (JArr [JStr "1secmail.com"; JStr "kzccv.com"]), secmail_cached,
     mkCursor 0 1 0, []).
Proof.
  apply (sm_getDomains_cached on_arrays_length_positive (fun _ => eq_refl)
           guerrilla_server secmail_cached start); [reflexivity|vm_compute; congruence].
Defined.

Example sm_createEmail_offline_run :
  (sm_createEmail on_arrays_length_positive on_arrays_random_element offline
     newSecMailProvider start).1.1.1 =
    Ret (JObj [("login", JStr "dkry5cjqx4bi"); ("domain", JStr "vjuum.com");
               ("email", JStr "dkry5cjqx4bi@vjuum.com")]) /\
  sent_requests
    (sm_createEmail on_arrays_length_positive on_arrays_random_element offline
       newSecMailProvider start).2 = 2%nat.
Proof. split; vm_compute; reflexivity. Qed.
